(** * Bluetooth Seal HUD Clock (Arduino Mega 2560): time model, renderer and scheduler

    Shallow embedding of [Buletooth_Clock.ino].  The sketch targets the
    ATmega2560, where [int] is a 16-bit two's-complement integer,
    [uint16_t] is [unsigned int] (16 bits), [long] and [unsigned long]
    are 32 bits and [uint8_t] is 8 bits.  Every integer is a [Z]; the
    width of the C type is written out where a value is stored or an
    unsigned operation is performed. *)

From Stdlib Require Import ZArith NArith List String Ascii Bool Lia.
From Stdlib Require Import DecimalString.
From Stdlib Require Import Floats.SpecFloat.
From Equations Require Import Equations.
Import ListNotations.
Open Scope string_scope.
Open Scope list_scope.
Open Scope Z_scope.

(** ** Machine integers of the target *)

Module CInt.

(** Reduction into the range of a signed two's-complement type. *)
Definition wrap_signed (bits x : Z) : Z :=
  (x + 2 ^ (bits - 1)) mod 2 ^ bits - 2 ^ (bits - 1).

Definition int16 (x : Z) : Z := wrap_signed 16 x.
Definition int32 (x : Z) : Z := wrap_signed 32 x.
Definition u8 (x : Z) : Z := x mod 2 ^ 8.
Definition u16 (x : Z) : Z := x mod 2 ^ 16.
Definition u32 (x : Z) : Z := x mod 2 ^ 32.

Definition INT_MAX : Z := 32767.
Definition INT_MIN : Z := -32768.

(** [x++] on an [int]. *)
Definition incr (x : Z) : Z := int16 (x + 1).
(** [x--] on an [int]. *)
Definition decr (x : Z) : Z := int16 (x - 1).

End CInt.
Import CInt.

(** ** C strings

    A [string] stands for the bytes of a [char] array starting at the
    pointer.  The C string it holds ends at the first NUL byte, or at the
    end of the Rocq string, where the terminator sits. *)

Definition NUL : ascii := Ascii.zero.

(** Value of a [char] after promotion to [int] ([char] is signed). *)
Definition char_val (c : ascii) : Z :=
  let n := Z.of_N (N_of_ascii c) in if n <? 128 then n else n - 256.

(** [s[i]]; the terminator is read at and past the end. *)
Definition char_at (s : string) (i : nat) : ascii :=
  match String.get i s with Some c => c | None => NUL end.

Fixpoint strlen (s : string) : nat :=
  match s with
  | EmptyString => 0
  | String c r => if Ascii.eqb c NUL then 0 else S (strlen r)
  end.

(** The C string held by a buffer: the bytes before the first NUL. *)
Fixpoint c_str (s : string) : string :=
  match s with
  | EmptyString => EmptyString
  | String c r => if Ascii.eqb c NUL then EmptyString else String c (c_str r)
  end.

(** ** Clock state *)

Record ClockTime := mkClockTime {
  year : Z; month : Z; day : Z;
  hour : Z; minute : Z; second : Z;
  hasDate : bool;
  isSet : bool
}.

(** Value of a default-initialised [ClockTime]. *)
Definition ClockTime_init : ClockTime := mkClockTime 0 0 0 0 0 0 false false.

Definition set_year (v : Z) (t : ClockTime) : ClockTime :=
  mkClockTime v (month t) (day t) (hour t) (minute t) (second t) (hasDate t) (isSet t).
Definition set_month (v : Z) (t : ClockTime) : ClockTime :=
  mkClockTime (year t) v (day t) (hour t) (minute t) (second t) (hasDate t) (isSet t).
Definition set_day (v : Z) (t : ClockTime) : ClockTime :=
  mkClockTime (year t) (month t) v (hour t) (minute t) (second t) (hasDate t) (isSet t).
Definition set_hour (v : Z) (t : ClockTime) : ClockTime :=
  mkClockTime (year t) (month t) (day t) v (minute t) (second t) (hasDate t) (isSet t).
Definition set_minute (v : Z) (t : ClockTime) : ClockTime :=
  mkClockTime (year t) (month t) (day t) (hour t) v (second t) (hasDate t) (isSet t).
Definition set_second (v : Z) (t : ClockTime) : ClockTime :=
  mkClockTime (year t) (month t) (day t) (hour t) (minute t) v (hasDate t) (isSet t).
Definition set_hasDate (v : bool) (t : ClockTime) : ClockTime :=
  mkClockTime (year t) (month t) (day t) (hour t) (minute t) (second t) v (isSet t).
Definition set_isSet (v : bool) (t : ClockTime) : ClockTime :=
  mkClockTime (year t) (month t) (day t) (hour t) (minute t) (second t) (hasDate t) v.

(** ** Parse helpers *)

Definition isDigitN (c : ascii) : bool :=
  (char_val "0" <=? char_val c) && (char_val c <=? char_val "9").

(** [to2(s + off)] *)
Definition to2 (s : string) (off : nat) : Z :=
  if negb (isDigitN (char_at s off)) || negb (isDigitN (char_at s (off + 1))) then -1
  else (char_val (char_at s off) - char_val "0") * 10
       + (char_val (char_at s (off + 1)) - char_val "0").

(** [to4(s + off)] *)
Definition to4 (s : string) (off : nat) : Z :=
  if forallb (fun k => isDigitN (char_at s (off + k))) [0; 1; 2; 3]%nat then
    (char_val (char_at s off) - char_val "0") * 1000
    + (char_val (char_at s (off + 1)) - char_val "0") * 100
    + (char_val (char_at s (off + 2)) - char_val "0") * 10
    + (char_val (char_at s (off + 3)) - char_val "0")
  else -1.

(** The loop that moves [s] past leading blanks and tabs. *)
Fixpoint skipBlanks (s : string) : string :=
  match s with
  | EmptyString => EmptyString
  | String c r =>
      if Ascii.eqb c " " || Ascii.eqb c (ascii_of_nat 9) then skipBlanks r else s
  end.

Definition is_char (s : string) (i : nat) (c : ascii) : bool := Ascii.eqb (char_at s i) c.

Definition hms_out_of_range (t : ClockTime) : bool :=
  (hour t <? 0) || (23 <? hour t) || (minute t <? 0) || (59 <? minute t)
  || (second t <? 0) || (59 <? second t).

(** [parseTime]: [Some temp] stands for [out = temp; return true], [None]
    for [return false] (which leaves [out] untouched). *)
Definition parseTime (s0 : string) : option ClockTime :=
  let s := skipBlanks s0 in
  let temp := ClockTime_init in
  let len := int16 (Z.of_nat (strlen s)) in
  if (8 <=? len) && isDigitN (char_at s 0) && isDigitN (char_at s 1) && is_char s 2 ":"
     && isDigitN (char_at s 3) && isDigitN (char_at s 4) && is_char s 5 ":"
     && isDigitN (char_at s 6) && isDigitN (char_at s 7)
  then
    let temp := set_hour (to2 s 0) temp in
    let temp := set_minute (to2 s 3) temp in
    let temp := set_second (to2 s 6) temp in
    let temp := set_hasDate false temp in
    if hms_out_of_range temp then None
    else Some (set_isSet true temp)
  else if (19 <=? len) && isDigitN (char_at s 0) then
    if negb (is_char s 4 "-" && is_char s 7 "-" && is_char s 10 " "
             && is_char s 13 ":" && is_char s 16 ":") then None
    else
      let temp := set_year (to4 s 0) temp in
      let temp := set_month (to2 s 5) temp in
      let temp := set_day (to2 s 8) temp in
      let temp := set_hour (to2 s 11) temp in
      let temp := set_minute (to2 s 14) temp in
      let temp := set_second (to2 s 17) temp in
      let temp := set_hasDate (0 <? year temp) temp in
      if (year temp <? 1970) || (month temp <? 1) || (12 <? month temp)
         || (day temp <? 1) || (31 <? day temp) then None
      else if hms_out_of_range temp then None
      else Some (set_isSet true temp)
  else None.

(** ** Calendar and the one-second advance *)

(** C's [%] truncates towards zero: [Z.rem]. *)
Definition isLeap (y : Z) : bool :=
  ((Z.rem y 4 =? 0) && negb (Z.rem y 100 =? 0)) || (Z.rem y 400 =? 0).

(** Read of a C array; an index outside the array has no defined value. *)
Definition array_get {A} (a : list A) (i : Z) : option A :=
  if i <? 0 then None else nth_error a (Z.to_nat i).

Definition days_table : list Z := [31; 28; 31; 30; 31; 30; 31; 31; 30; 31; 30; 31].

Definition daysInMonth (y m : Z) : option Z :=
  if m =? 2 then Some (if isLeap y then 29 else 28)
  else array_get days_table (m - 1).

(** [tickOneSecond]; [None] when the table read in [daysInMonth] is out of
    bounds. *)
Definition tickOneSecond (t : ClockTime) : option ClockTime :=
  let t := set_second (incr (second t)) t in
  let t := if 60 <=? second t then set_minute (incr (minute t)) (set_second 0 t) else t in
  let t := if 60 <=? minute t then set_hour (incr (hour t)) (set_minute 0 t) else t in
  if 24 <=? hour t then
    let t := set_hour 0 t in
    if hasDate t && (1970 <=? year t) then
      let t := set_day (incr (day t)) t in
      match daysInMonth (year t) (month t) with
      | None => None
      | Some dim =>
          if dim <? day t then
            let t := set_month (incr (month t)) (set_day 1 t) in
            if 12 <? month t then Some (set_year (incr (year t)) (set_month 1 t))
            else Some t
          else Some t
      end
    else Some t
  else Some t.

(** [tickOneSecond] applied [n] times in a row. *)
Definition tick_times (n : N) (t : ClockTime) : option ClockTime :=
  N.iter n (fun o => match o with Some x => tickOneSecond x | None => None end) (Some t).


(** ** The display

    The panel has no frame buffer: the sketch only ever sends drawing
    commands.  A run of the renderer is its list of commands, oldest first. *)

Inductive TftOp : Type :=
| FillRect (x y w h color : Z)
| FillRoundRect (x y w h r color : Z)
| DrawRoundRect (x y w h r color : Z)
| DrawFastHLine (x y w color : Z)
| FillCircle (x y r color : Z)
| SetTextSize (s : Z)
| SetTextColor (fg bg : Z)
| SetCursor (x y : Z)
| Print (s : string).

(** Commands that write pixels; the three text-attribute commands only set
    the state of the text cursor. *)
Definition paints (op : TftOp) : bool :=
  match op with
  | SetTextSize _ | SetTextColor _ _ | SetCursor _ _ => false
  | _ => true
  end.

Definition COL_BG : Z := 0x0000.
Definition COL_TEXT : Z := 0xFFFF.
Definition COL_BAR : Z := 0x05BF.
Definition COL_GLOW : Z := 0x07FF.
Definition COL_GLOW2 : Z := 0x07E0.
Definition COL_GLOW_DIM : Z := 0x025F.
Definition OCEAN_TOP : Z := 0x0255.
Definition OCEAN_MID : Z := 0x039B.
Definition OCEAN_BOT : Z := 0x043F.

Definition HARD_REFRESH_MINUTES : bool := true.
Definition HARD_REFRESH_SECONDS : bool := true.

(** Seven-segment geometry, shrunk by [autoSizeToFit]. *)
Record SegParams := mkSegParams {
  SEG_THICK : Z; SEG_LEN : Z; SEG_HGAP : Z; SEG_VLEN : Z;
  COLON_W : Z; E_SP : Z
}.

(** The initialisers of the globals. *)
Definition SegParams_init : SegParams := mkSegParams 5 28 7 28 8 2.

Definition set_SEG_THICK (v : Z) (p : SegParams) : SegParams :=
  mkSegParams v (SEG_LEN p) (SEG_HGAP p) (SEG_VLEN p) (COLON_W p) (E_SP p).
Definition set_SEG_LEN (v : Z) (p : SegParams) : SegParams :=
  mkSegParams (SEG_THICK p) v (SEG_HGAP p) (SEG_VLEN p) (COLON_W p) (E_SP p).
Definition set_SEG_VLEN (v : Z) (p : SegParams) : SegParams :=
  mkSegParams (SEG_THICK p) (SEG_LEN p) (SEG_HGAP p) v (COLON_W p) (E_SP p).
Definition set_COLON_W (v : Z) (p : SegParams) : SegParams :=
  mkSegParams (SEG_THICK p) (SEG_LEN p) (SEG_HGAP p) (SEG_VLEN p) v (E_SP p).
Definition set_E_SP (v : Z) (p : SegParams) : SegParams :=
  mkSegParams (SEG_THICK p) (SEG_LEN p) (SEG_HGAP p) (SEG_VLEN p) (COLON_W p) v.

(** Positions computed by [setupLayout]. *)
Record Layout := mkLayout {
  DIGIT_Y : Z; DIG_X : list Z; COLON_X : list Z; COLON_Y : Z
}.

Definition SEG_A : Z := 0.
Definition SEG_B : Z := 1.
Definition SEG_C : Z := 2.
Definition SEG_D : Z := 3.
Definition SEG_E : Z := 4.
Definition SEG_F : Z := 5.
Definition SEG_G : Z := 6.

(** Segment masks of the digits 0 to 9 (bit [i] is segment [i], A to G). *)
Definition DIGIT_MASK : list Z :=
  [0x3F; 0x06; 0x5B; 0x4F; 0x66;
   0x6D; 0x7D; 0x07; 0x7F; 0x6F].

(** Element [i] of an array whose index the sketch keeps in range. *)
Definition elem (a : list Z) (i : nat) : Z := nth i a 0.

Fixpoint array_set (a : list Z) (i : nat) (v : Z) : list Z :=
  match a, i with
  | [], _ => []
  | _ :: r, O => v :: r
  | x :: r, S k => x :: array_set r k v
  end.

(** *** Auto-size *)

Definition MARGIN : Z := 6.
Definition MIN_SP : Z := 0.
Definition MIN_COLON : Z := 4.
Definition MIN_THICK : Z := 4.
Definition MIN_LEN : Z := 16.
Definition MIN_VLEN : Z := 16.

Definition totalRowWidth (p : SegParams) : Z :=
  let dcellW := int16 (SEG_LEN p + 2 * SEG_HGAP p) in
  int16 (6 * dcellW + 2 * COLON_W p + 7 * E_SP p).

(** The test [need <= W - 2*MARGIN].  [W] is a [uint16_t], so the
    subtraction and the comparison are carried out on 16-bit unsigned
    values. *)
Definition rowFits (W : Z) (p : SegParams) : bool :=
  u16 (totalRowWidth p) <=? u16 (W - 2 * MARGIN).

(** One pass through the body of the [for] loop; [None] is [break]. *)
Definition autoSizeStep (W : Z) (p : SegParams) : option SegParams :=
  if rowFits W p then None
  else if MIN_SP <? E_SP p then Some (set_E_SP (decr (E_SP p)) p)
  else if MIN_COLON <? COLON_W p then Some (set_COLON_W (decr (COLON_W p)) p)
  else if MIN_LEN <? SEG_LEN p then Some (set_SEG_LEN (decr (SEG_LEN p)) p)
  else if MIN_VLEN <? SEG_VLEN p then Some (set_SEG_VLEN (decr (SEG_VLEN p)) p)
  else if MIN_THICK <? SEG_THICK p then Some (set_SEG_THICK (decr (SEG_THICK p)) p)
  else None.

(** The [for] loop with [passes] iterations left. *)
Fixpoint autoSizeLoop (passes : nat) (W : Z) (p : SegParams) : SegParams :=
  match passes with
  | O => p
  | S k =>
      match autoSizeStep W p with
      | None => p
      | Some p' => autoSizeLoop k W p'
      end
  end.

Definition autoSizeToFit (W : Z) (p : SegParams) : SegParams := autoSizeLoop 200 W p.

(** Number of shrinking passes [autoSizeLoop] performs. *)
Fixpoint autoSizePasses (passes : nat) (W : Z) (p : SegParams) : nat :=
  match passes with
  | O => O
  | S k =>
      match autoSizeStep W p with
      | None => O
      | Some p' => S (autoSizePasses k W p')
      end
  end.

(** *** Layout *)

Definition setupLayout (W : Z) (p : SegParams) : Layout :=
  let DIGIT_Y := 56 in
  let dcellW := int16 (SEG_LEN p + 2 * SEG_HGAP p) in
  let totalW := int16 (6 * dcellW + 2 * COLON_W p + 7 * E_SP p) in
  let startX :=
    Z.max 2 (int16 (if 0 <? u16 (W - totalW) then u16 (W - totalW) / 2 else 2)) in
  let x0 := startX in
  let x1 := x0 + (dcellW + E_SP p) in
  let xc0 := x1 + (dcellW + E_SP p) in
  let x2 := xc0 + (COLON_W p + E_SP p) in
  let x3 := x2 + (dcellW + E_SP p) in
  let xc1 := x3 + (dcellW + E_SP p) in
  let x4 := xc1 + (COLON_W p + E_SP p) in
  let x5 := x4 + (dcellW + E_SP p) in
  mkLayout DIGIT_Y [x0; x1; x2; x3; x4; x5]
           [xc0 + Z.quot (COLON_W p) 2; xc1 + Z.quot (COLON_W p) 2]
           (DIGIT_Y + Z.quot (SEG_VLEN p) 2 - 2).

(** *** Ocean gradient: the background is recomputed, never stored *)

Definition oceanMidY (H : Z) : Z := int16 (u16 (H * 2) / 5).

Definition lerp_channel (a b t : Z) : Z :=
  u16 (u16 (u16 (a * (255 - t)) + u16 (b * t)) / 255).

Definition lerp565 (c1 c2 t : Z) : Z :=
  let r1 := Z.land (Z.shiftr c1 11) 0x1F in
  let g1 := Z.land (Z.shiftr c1 5) 0x3F in
  let b1 := Z.land c1 0x1F in
  let r2 := Z.land (Z.shiftr c2 11) 0x1F in
  let g2 := Z.land (Z.shiftr c2 5) 0x3F in
  let b2 := Z.land c2 0x1F in
  let r := lerp_channel r1 r2 t in
  let g := lerp_channel g1 g2 t in
  let b := lerp_channel b1 b2 t in
  u16 (Z.lor (Z.lor (u16 (Z.shiftl r 11)) (u16 (Z.shiftl g 5))) b).

Definition oceanColorAtY (H : Z) (y : Z) : Z :=
  let midY := oceanMidY H in
  let y := if y <? 0 then 0 else y in
  let y := if int16 H <=? y then int16 (u16 (H - 1)) else y in
  if y <? midY then
    let t := u8 (u32 (u32 y * 255) / u32 (if midY =? 0 then 1 else midY)) in
    lerp565 OCEAN_TOP OCEAN_MID t
  else
    let span := u16 (H - midY) in
    let t := u8 (u32 (u32 (y - midY) * 255) / (if span =? 0 then 1 else span)) in
    lerp565 OCEAN_MID OCEAN_BOT t.

(** Erasing is repainting the gradient, one scan line at a time. *)
Definition fillRectWithOceanBG (W H : Z) (x y w h : Z) : list TftOp :=
  if (w <=? 0) || (h <=? 0) then []
  else
    let w := if x <? 0 then int16 (w + x) else w in
    let x := if x <? 0 then 0 else x in
    let h := if y <? 0 then int16 (h + y) else h in
    let y := if y <? 0 then 0 else y in
    let w := if W <? u16 (x + w) then int16 (u16 (W - x)) else w in
    let h := if int16 H <? int16 (y + h) then int16 (u16 (H - y)) else h in
    map (fun k => let yy := y + Z.of_nat k in DrawFastHLine x yy w (oceanColorAtY H yy))
        (seq 0 (Z.to_nat h)).

(** ** Text formatting and the C string functions the renderer uses *)

Definition dec_digits (n : Z) : string := NilZero.string_of_uint (N.to_uint (Z.to_N n)).

Fixpoint repeat_char (c : ascii) (n : nat) : string :=
  match n with
  | O => EmptyString
  | S k => String c (repeat_char c k)
  end.

(** The conversion [%0<width>d]. *)
Definition fmt_d0 (width : nat) (v : Z) : string :=
  let sign := if v <? 0 then "-" else "" in
  let ds := dec_digits (Z.abs v) in
  (sign ++ repeat_char "0" (width - String.length sign - String.length ds) ++ ds)%string.

(** The conversion [%d]. *)
Definition fmt_d (v : Z) : string := fmt_d0 0 v.

(** The conversion [%<width>s]: right-justified in a field of blanks. *)
Definition fmt_s (width : nat) (s : string) : string :=
  (repeat_char " " (width - String.length s) ++ s)%string.

(** [snprintf(buf, size, ...)]: what is stored before the terminator, given
    the fully formatted text. *)
Definition snprintf (size : nat) (formatted : string) : string :=
  substring 0 (size - 1) formatted.

(** [strncpy(dst, src, n)] with [n = sizeof dst]: the bytes of [dst]
    afterwards (NUL padding past the copied text is left implicit). *)
Definition strncpy (src : string) (n : nat) : string := substring 0 n (c_str src).

(** [strcmp(a, b) != 0] *)
Definition strcmp_ne (a b : string) : bool := negb (String.eqb (c_str a) (c_str b)).

(** [strncmp(a, b, n) != 0] *)
Definition strncmp_ne (a b : string) (n : nat) : bool :=
  negb (String.eqb (substring 0 n (c_str a)) (substring 0 n (c_str b))).

(** [map] of the Arduino core, on [long]. *)
Definition arduino_map (x in_min in_max out_min out_max : Z) : Z :=
  int32 (Z.quot (int32 (int32 (x - in_min) * int32 (out_max - out_min)))
                (int32 (in_max - in_min)) + out_min).

(** ** Date helpers *)

Definition weekday_table : list Z := [0; 3; 2; 5; 0; 3; 5; 1; 4; 6; 2; 4].

Definition weekdayIndex (y m d : Z) : Z :=
  let y := if m <? 3 then y - 1 else y in
  Z.rem (y + Z.quot y 4 - Z.quot y 100 + Z.quot y 400
         + elem weekday_table (Z.to_nat (m - 1)) + d) 7.

Definition WEEKDAY_NAME : list string :=
  ["Sunday"; "Monday"; "Tuesday"; "Wednesday"; "Thursday"; "Friday"; "Saturday"].
Definition MONTH_NAME : list string :=
  ["January"; "February"; "March"; "April"; "May"; "June"; "July"; "August";
   "September"; "October"; "November"; "December"].

(** ** Incremental rendering engine *)

(** What the renderer remembers of the screen, with the seconds-bar
    rectangle that [drawSecondsBarFrameOnce] fixes. *)
Record Shadow := mkShadow {
  prevTimeStr : string;
  prevDateStr : string;
  prevDigitMask : list Z;
  prevFillW : Z;
  barY : Z;
  barW : Z
}.

(** The initialisers of the globals. *)
Definition Shadow_init : Shadow := mkShadow "??:??:??" "" [0; 0; 0; 0; 0; 0] (-1) 0 0.

Definition barX : Z := 10.
Definition barH : Z := 10.

Definition ENV_X : Z := 6.
Definition ENV_Y : Z := 26.
Definition ENV_TEXT_SIZE : Z := 2.
Definition ENV_LINE_LEN : nat := 26.

Section Renderer.

(** Panel size read in [setup], the geometry left by [autoSizeToFit] and
    [setupLayout], and the width [getTextBounds] reports for a text. *)
Variables W H : Z.
Variable p : SegParams.
Variable lay : Layout.
Variable textWidth : string -> Z.

Definition drawHSeg (x y len c : Z) : TftOp :=
  FillRoundRect x y len (SEG_THICK p) (Z.quot (SEG_THICK p) 2) c.
Definition drawVSeg (x y len c : Z) : TftOp :=
  FillRoundRect x y (SEG_THICK p) len (Z.quot (SEG_THICK p) 2) c.

Definition eraseHSegBG (x y len : Z) : list TftOp :=
  fillRectWithOceanBG W H x y len (SEG_THICK p).
Definition eraseVSegBG (x y len : Z) : list TftOp :=
  fillRectWithOceanBG W H x y (SEG_THICK p) len.

(** [mask & (1 << seg)] *)
Definition has_seg (mask seg : Z) : bool := negb (Z.land mask (Z.shiftl 1 seg) =? 0).

Definition when {A} (b : bool) (l : list A) : list A := if b then l else [].

Definition drawDigitSegments (x0 y0 mask : Z) (erase : bool) : list TftOp :=
  let th := SEG_THICK p in
  let xr := x0 + SEG_HGAP p + SEG_LEN p in
  let yu := y0 + Z.quot th 2 in
  let yl := y0 + SEG_VLEN p + Z.quot (3 * th) 2 in
  if erase then
    when (has_seg mask SEG_A) (eraseHSegBG (x0 + SEG_HGAP p) y0 (SEG_LEN p))
    ++ when (has_seg mask SEG_G) (eraseHSegBG (x0 + SEG_HGAP p) (y0 + SEG_VLEN p + th) (SEG_LEN p))
    ++ when (has_seg mask SEG_D)
         (eraseHSegBG (x0 + SEG_HGAP p) (y0 + 2 * SEG_VLEN p + 2 * th) (SEG_LEN p))
    ++ when (has_seg mask SEG_B) (eraseVSegBG xr yu (SEG_VLEN p))
    ++ when (has_seg mask SEG_C) (eraseVSegBG xr yl (SEG_VLEN p))
    ++ when (has_seg mask SEG_F) (eraseVSegBG x0 yu (SEG_VLEN p))
    ++ when (has_seg mask SEG_E) (eraseVSegBG x0 yl (SEG_VLEN p))
  else
    let col := COL_GLOW in
    when (has_seg mask SEG_A) [drawHSeg (x0 + SEG_HGAP p) y0 (SEG_LEN p) col]
    ++ when (has_seg mask SEG_G) [drawHSeg (x0 + SEG_HGAP p) (y0 + SEG_VLEN p + th) (SEG_LEN p) col]
    ++ when (has_seg mask SEG_D)
         [drawHSeg (x0 + SEG_HGAP p) (y0 + 2 * SEG_VLEN p + 2 * th) (SEG_LEN p) col]
    ++ when (has_seg mask SEG_B) [drawVSeg xr yu (SEG_VLEN p) col]
    ++ when (has_seg mask SEG_C) [drawVSeg xr yl (SEG_VLEN p) col]
    ++ when (has_seg mask SEG_F) [drawVSeg x0 yu (SEG_VLEN p) col]
    ++ when (has_seg mask SEG_E) [drawVSeg x0 yl (SEG_VLEN p) col].

(** [digitBounds]: the box [(x, y, w, h)] of digit [di]. *)
Definition digitBounds (di : nat) : Z * Z * Z * Z :=
  (elem (DIG_X lay) di, DIGIT_Y lay,
   SEG_LEN p + 2 * SEG_HGAP p + SEG_THICK p,
   2 * SEG_VLEN p + 3 * SEG_THICK p).

Definition hardRefreshDigit (di : nat) (newMask : Z) (masks : list Z)
  : list Z * list TftOp :=
  let '(x, y, w, h) := digitBounds di in
  (array_set masks di newMask,
   fillRectWithOceanBG W H x y w h
   ++ when (negb (newMask =? 0)) (drawDigitSegments x y newMask false)).

(** Body of the loop of [drawTimeDigits] for position [i] of the text. *)
Definition drawTimeDigit (cur prev : string) (acc : list Z * list TftOp) (i : nat)
  : list Z * list TftOp :=
  let '(masks, ops) := acc in
  if Nat.eqb i 2 || Nat.eqb i 5 then acc
  else if Ascii.eqb (char_at cur i) (char_at prev i) then acc
  else
    let di := (if Nat.ltb i 2 then i else if Nat.ltb i 5 then i - 1 else i - 2)%nat in
    let newMask :=
      if isDigitN (char_at cur i)
      then elem DIGIT_MASK (Z.to_nat (char_val (char_at cur i) - char_val "0"))
      else 0 in
    let oldMask := elem masks di in
    if Nat.eqb di 0 || Nat.eqb di 1
       || (HARD_REFRESH_MINUTES && (Nat.eqb di 2 || Nat.eqb di 3))
       || (HARD_REFRESH_SECONDS && (Nat.eqb di 4 || Nat.eqb di 5))
    then
      let '(masks', ops') := hardRefreshDigit di newMask masks in
      (masks', ops ++ ops')
    else
      let offMask := u8 (Z.land oldMask (Z.lnot newMask)) in
      let onMask := u8 (Z.land newMask (Z.lnot oldMask)) in
      (array_set masks di newMask,
       ops
       ++ when (negb (offMask =? 0))
            (drawDigitSegments (elem (DIG_X lay) di) (DIGIT_Y lay) offMask true)
       ++ when (negb (onMask =? 0))
            (drawDigitSegments (elem (DIG_X lay) di) (DIGIT_Y lay) onMask false)).

(** The text [drawTimeDigits] composes for a clock value. *)
Definition timeText (c : ClockTime) : string :=
  snprintf 9 (fmt_d0 2 (hour c) ++ ":" ++ fmt_d0 2 (minute c) ++ ":" ++ fmt_d0 2 (second c)).

Definition drawTimeDigits (c : ClockTime) (sh : Shadow) : Shadow * list TftOp :=
  let cur := timeText c in
  let '(masks, ops) :=
    fold_left (drawTimeDigit cur (prevTimeStr sh)) (seq 0 8) (prevDigitMask sh, []) in
  (mkShadow (strncpy cur 9) (prevDateStr sh) masks (prevFillW sh) (barY sh) (barW sh), ops).

(** *** Seconds bar *)

Definition drawSecondsBarFrameOnce (sh : Shadow) : Shadow * list TftOp :=
  let barY' := int16 (u16 (H - 26)) in
  let barW' := int16 (u16 (W - 20)) in
  (mkShadow (prevTimeStr sh) (prevDateStr sh) (prevDigitMask sh) (prevFillW sh) barY' barW',
   [DrawRoundRect (barX - 1) (barY' - 1) (barW' + 2) (barH + 2) 4 COL_GLOW2]).

(** The width [drawSecondsBarFill] computes for its argument. *)
Definition fillWidth (bar_w sec : Z) : Z := int16 (arduino_map (u8 sec) 0 59 0 bar_w).

Definition drawSecondsBarFill (sec : Z) (sh : Shadow) : Shadow * list TftOp :=
  let fillW := fillWidth (barW sh) sec in
  let stored :=
    mkShadow (prevTimeStr sh) (prevDateStr sh) (prevDigitMask sh) fillW (barY sh) (barW sh) in
  if fillW =? prevFillW sh then (sh, [])
  else if prevFillW sh <? 0 then (stored, [FillRect barX (barY sh) fillW barH COL_BAR])
  else if prevFillW sh <? fillW then
    (stored, [FillRect (barX + prevFillW sh) (barY sh) (fillW - prevFillW sh) barH COL_BAR])
  else
    (stored, fillRectWithOceanBG W H (barX + fillW) (barY sh) (prevFillW sh - fillW) barH).

(** *** Date line *)

Definition dateText (c : ClockTime) : string :=
  snprintf 16
    (fmt_d0 2 (if hasDate c && negb (day c =? 0) then day c else 0) ++ "-"
     ++ fmt_d0 2 (if hasDate c && negb (month c =? 0) then month c else 0) ++ "-"
     ++ fmt_d0 4 (if hasDate c && negb (year c =? 0) then year c else 0)).

Definition weekdayText (c : ClockTime) : string :=
  if hasDate c && (1970 <=? year c) && (1 <=? month c) && (month c <=? 12) && (1 <=? day c)
  then
    let wd := weekdayIndex (year c) (month c) (day c) in
    let wn := nth (Z.to_nat wd) WEEKDAY_NAME "" in
    let mn := nth (Z.to_nat (month c - 1)) MONTH_NAME "" in
    if Ascii.eqb (char_at wn 0) NUL then ""
    else snprintf 32 (wn ++ " , " ++ mn ++ " " ++ fmt_d (day c))
  else "".

Definition drawDateLine (c : ClockTime) (sh : Shadow) : Shadow * list TftOp :=
  let attrs := [SetTextSize 2; SetTextColor COL_TEXT COL_BG] in
  let line1 := dateText c in
  if strcmp_ne line1 (prevDateStr sh) then
    let line2 := weekdayText c in
    (mkShadow (prevTimeStr sh) (strncpy line1 16) (prevDigitMask sh) (prevFillW sh)
              (barY sh) (barW sh),
     attrs
     ++ fillRectWithOceanBG W H 0 (int16 (u16 (H - 70))) (int16 W) 45
     ++ [SetCursor (int16 (u16 (W - textWidth line1) / 2)) (int16 (u16 (H - 70)));
         Print line1;
         SetCursor (int16 (u16 (W - textWidth line2) / 2)) (int16 (u16 (H - 50)));
         Print line2])
  else (sh, attrs).

(** *** Title strip and environment line *)

Definition drawTitleStrip (lastStatus : string) : list TftOp :=
  [FillRect 0 0 (int16 W) 24 COL_GLOW2; SetTextSize 2; SetTextColor 0x0000 COL_GLOW2;
   SetCursor 6 4; Print "BT SYNC: "; Print lastStatus].

Definition drawEnvLine (ENV_BG : Z) (s : string) : list TftOp :=
  let text := substring 0 ENV_LINE_LEN (c_str s) in
  let buf := (text ++ repeat_char " " (ENV_LINE_LEN - String.length text))%string in
  [SetTextSize ENV_TEXT_SIZE; SetTextColor COL_TEXT ENV_BG; SetCursor ENV_X ENV_Y; Print buf].

(** *** Forced full repaint *)

Definition forceRedrawAll (ENV_BG : Z) (c : ClockTime) (sh : Shadow)
  : Shadow * list TftOp :=
  let sh0 := mkShadow "" "" [0; 0; 0; 0; 0; 0] (-1) (barY sh) (barW sh) in
  let '(sh1, o1) := drawTimeDigits c sh0 in
  let '(sh2, o2) := drawDateLine c sh1 in
  let '(sh3, o3) := drawSecondsBarFrameOnce sh2 in
  let '(sh4, o4) := drawSecondsBarFill (second c) sh3 in
  (sh4, o1 ++ o2 ++ o3 ++ o4 ++ drawEnvLine ENV_BG "TEMP --.- C   HUM -- %").

End Renderer.

(** ** Serial line reader and the scheduler *)

Definition LF : ascii := ascii_of_nat 10.
Definition CR : ascii := ascii_of_nat 13.
Definition CRLF : string := String CR (String LF EmptyString).

(** Capacity of [str_in], terminator included. *)
Definition STR_IN_SIZE : Z := 128.

(** The read loop: [rx] holds the bytes that are available while it runs,
    [buf] is [str_in[0..in_i)].  Returns the line and the bytes not yet
    read. *)
Fixpoint readLine (rx : list ascii) (buf : string) : string * list ascii :=
  match rx with
  | [] => (buf, [])
  | c :: rest =>
      if Ascii.eqb c LF || Ascii.eqb c CR then (buf, rest)
      else if Z.of_nat (String.length buf) <? STR_IN_SIZE - 1
           then readLine rest (buf ++ String c EmptyString)%string
           else readLine rest buf
  end.

(** The globals the scheduler works on, with everything sent to the panel
    ([tft]) and to the Bluetooth link ([bt]) so far. *)
Record Sketch := mkSketch {
  ct : ClockTime;
  shadow : Shadow;
  lastTickMs : Z;
  repaintAll : bool;
  lastStatus : string;
  tft : list TftOp;
  bt : string
}.

Definition Sketch_init : Sketch :=
  mkSketch ClockTime_init Shadow_init 0 false "Waiting for time" [] "".

(** One second of the catch-up loop, after [lastTickMs += 1000UL]: advance,
    then redraw digits, seconds bar and, at midnight, the date line. *)
Definition secondStep (W H : Z) (p : SegParams) (lay : Layout) (textWidth : string -> Z)
    (c : ClockTime) (sh : Shadow) : option (ClockTime * Shadow * list TftOp) :=
  match tickOneSecond c with
  | None => None
  | Some c' =>
      let '(sh1, o1) := drawTimeDigits W H p lay c' sh in
      let '(sh2, o2) := drawSecondsBarFill W H (second c') sh1 in
      let '(sh3, o3) :=
        if (hour c' =? 0) && (minute c' =? 0) && (second c' =? 0)
        then drawDateLine W H textWidth c' sh2 else (sh2, []) in
      Some (c', sh3, o1 ++ o2 ++ o3)
  end.

Section Scheduler.

Variables W H : Z.
Variable p : SegParams.
Variable lay : Layout.
Variable textWidth : string -> Z.

(** The part of [loop] that reads a Bluetooth line; [rx] is what the
    link delivers during this iteration and [now] what [millis] returns
    when the clock is replaced. *)
Definition serialPhase (now : Z) (rx : list ascii) (st : Sketch) : Sketch * list ascii :=
  match rx with
  | [] => (st, [])
  | _ :: _ =>
      let '(str_in, rest) := readLine rx "" in
      if 0 <? Z.of_nat (String.length str_in) then
        match parseTime str_in with
        | Some parsed =>
            let status := snprintf 48 "Time synced" in
            (mkSketch (set_isSet true parsed) (shadow st) now true status
                      (tft st ++ drawTitleStrip W status)
                      (bt st ++ "SYNCED: " ++ c_str str_in ++ CRLF)%string,
             rest)
        | None =>
            let status := snprintf 48 "Invalid time format!" in
            (mkSketch (ct st) (shadow st) (lastTickMs st) (repaintAll st) status
                      (tft st ++ drawTitleStrip W status)
                      (bt st ++ "INVALID: " ++ c_str str_in ++ CRLF)%string,
             rest)
        end
      else (st, rest)
  end.

(** The catch-up [while (ms - lastTickMs >= 1000UL)] loop on the globals
    it touches; [ops] collects the drawing commands.  Both sides of the
    test are [unsigned long]. *)
Equations? catchUp (ms last : Z) (c : ClockTime) (sh : Shadow) (ops : list TftOp)
  : option (Z * ClockTime * Shadow * list TftOp)
  by wf (Z.to_nat (u32 (ms - last))) lt :=
  catchUp ms last c sh ops with Z_le_gt_dec 1000 (u32 (ms - last)) => {
    | left _ with secondStep W H p lay textWidth c sh => {
        | Some (c', sh', o) := catchUp ms (u32 (last + 1000)) c' sh' (ops ++ o);
        | None := None };
    | right _ := Some (last, c, sh, ops) }.
Proof.
  assert (E : u32 (ms - u32 (last + 1000)) = u32 (ms - last) - 1000).
  { unfold u32 in *. rewrite Zminus_mod_idemp_r.
    replace (ms - (last + 1000)) with ((ms - last) - 1000) by lia.
    rewrite <- Zminus_mod_idemp_l.
    pose proof (Z.mod_pos_bound (ms - last) (2 ^ 32) ltac:(lia)).
    apply Z.mod_small. lia. }
  rewrite E. lia.
Qed.

(** The 1 Hz part of [loop], entered with [ms = millis()]. *)
Definition clockPhase (ms : Z) (st : Sketch) : option Sketch :=
  if isSet (ct st) then
    match catchUp ms (lastTickMs st) (ct st) (shadow st) [] with
    | Some (last', c', sh', ops) =>
        Some (mkSketch c' sh' last' (repaintAll st) (lastStatus st) (tft st ++ ops) (bt st))
    | None => None
    end
  else Some st.

End Scheduler.

(** ** Environment line

    On the target [float] and [double] are both IEEE 754 binary32; the
    operations are those of [SpecFloat] at precision 24, maximal exponent
    128. *)

Definition float : Type := spec_float.

Definition NAN : float := S754_nan.
Definition isnan (x : float) : bool :=
  match x with S754_nan => true | _ => false end.
Definition f32_sub (a b : float) : float := SFsub 24 128 a b.
Definition fabs (x : float) : float := SFabs x.
(** [a >= b] *)
Definition f32_ge (a b : float) : bool := SFleb b a.
(** [a < b] *)
Definition f32_lt (a b : float) : bool := SFltb a b.

(** The literals [0.2] and [1.0] as binary32 values. *)
Definition TEMP_STEP : float := S754_finite false 13421773 (-26).
Definition HUM_STEP : float := S754_finite false 8388608 (-23).

(** The binary32 value nearest to [n / d]. *)
Definition f32_of_ratio (n d : Z) : float :=
  SFdiv 24 128 (binary_normalize 24 128 n 0 false) (binary_normalize 24 128 d 0 false).

(** [|m * 2^e| * 10^prec] rounded to the nearest integer, ties upwards. *)
Definition scaled_round (m : positive) (e : Z) (prec : nat) : Z :=
  let k := 10 ^ Z.of_nat prec in
  if 0 <=? e then Z.pos m * 2 ^ e * k
  else (2 * Z.pos m * k + 2 ^ (- e)) / (2 * 2 ^ (- e)).

(** [dtostrf(val, width, prec, buf)] of avr-libc (for a positive [width]):
    fixed notation with [prec] digits after the point, right-justified in
    [width] characters. *)
Definition dtostrf (val : float) (width prec : nat) : string :=
  let body (neg : bool) (q : Z) : string :=
    let k := 10 ^ Z.of_nat prec in
    ((if neg then "-" else "") ++ dec_digits (q / k)
     ++ (if Nat.eqb prec 0 then "" else "." ++ fmt_d0 prec (q mod k)))%string in
  fmt_s width
    match val with
    | S754_nan => "NAN"
    | S754_infinity neg => ((if neg then "-" else "") ++ "INF")%string
    | S754_zero neg => body neg 0
    | S754_finite neg m e => body neg (scaled_round m e prec)
    end.

Definition ENV_INTERVAL : Z := 2000.

Record EnvState := mkEnvState {
  lastEnvRead : Z;
  lastEnvStr : string;
  lastT : float;
  lastH : float
}.

Definition EnvState_init : EnvState := mkEnvState 0 "" NAN NAN.

(** The line composed for a valid reading. *)
Definition envText (t h : float) : string :=
  snprintf (ENV_LINE_LEN + 1)
    ("TEMP " ++ fmt_s 4 (dtostrf t 4 1) ++ " C   HUM " ++ fmt_s 3 (dtostrf h 3 0) ++ " %").

Definition envPlaceholder : string :=
  snprintf (ENV_LINE_LEN + 1) "TEMP --.- C   HUM -- %".

(** [updateEnv], entered with [ms = millis()]; [h] and [t] are what the
    sensor returns if it is read in this call. *)
Definition updateEnv (ENV_BG : Z) (ms : Z) (h t : float) (es : EnvState)
  : EnvState * list TftOp :=
  if u32 (ms - lastEnvRead es) <? ENV_INTERVAL then (es, [])
  else
    let es := mkEnvState ms (lastEnvStr es) (lastT es) (lastH es) in
    if negb (isnan h) && negb (isnan t) then
      let line := envText t h in
      let changedValues :=
        isnan (lastT es) || isnan (lastH es)
        || f32_ge (fabs (f32_sub t (lastT es))) TEMP_STEP
        || f32_ge (fabs (f32_sub h (lastH es))) HUM_STEP in
      let changedText := strncmp_ne line (lastEnvStr es) ENV_LINE_LEN in
      if changedValues || changedText then
        (mkEnvState ms (strncpy line ENV_LINE_LEN) t h, drawEnvLine ENV_BG line)
      else (es, [])
    else
      let line := envPlaceholder in
      if strncmp_ne line (lastEnvStr es) ENV_LINE_LEN then
        (mkEnvState ms (strncpy line ENV_LINE_LEN) (lastT es) (lastH es),
         drawEnvLine ENV_BG line)
      else (es, []).

(** Number of times the environment line is printed in a command list. *)
Definition envRedraws (ops : list TftOp) : nat :=
  List.length (filter (fun op => match op with Print _ => true | _ => false end) ops).

(** ** The two grammars of the sync line, as the specification words them *)

Definition feb28_2024 : ClockTime := mkClockTime 2024 2 28 23 59 59 true true.
Definition feb28_2023 : ClockTime := mkClockTime 2023 2 28 23 59 59 true true.

(** The character of a decimal digit. *)
Definition digit_char (d : Z) : ascii := ascii_of_N (Z.to_N (48 + d)).

(** A number written with exactly two, or four, decimal digits. *)
Definition two (n : Z) : string :=
  String (digit_char (n / 10)) (String (digit_char (n mod 10)) EmptyString).
Definition four (n : Z) : string :=
  String (digit_char (n / 1000)) (String (digit_char (n / 100 mod 10))
    (String (digit_char (n / 10 mod 10)) (String (digit_char (n mod 10)) EmptyString))).

Definition hms_valid (h m sec : Z) : Prop :=
  0 <= h <= 23 /\ 0 <= m <= 59 /\ 0 <= sec <= 59.

(** [HH:MM:SS] followed by [rest], read as the clock value [t]. *)
Definition short_text (h m sec : Z) (rest : string) : string :=
  (two h ++ ":" ++ two m ++ ":" ++ two sec ++ rest)%string.

(** [YYYY-MM-DD HH:MM:SS] followed by [rest]. *)
Definition long_text (y mo d h m sec : Z) (rest : string) : string :=
  (four y ++ "-" ++ two mo ++ "-" ++ two d ++ " " ++ short_text h m sec rest)%string.

(** The short grammar with exactly eight characters. *)
Definition short_form_8 (s : string) (t : ClockTime) : Prop :=
  exists h m sec,
    s = short_text h m sec "" /\ hms_valid h m sec
    /\ t = mkClockTime 0 0 0 h m sec false true.

(** The short grammar as a prefix: at least eight characters. *)
Definition short_form (s : string) (t : ClockTime) : Prop :=
  exists h m sec rest,
    s = short_text h m sec rest /\ hms_valid h m sec
    /\ t = mkClockTime 0 0 0 h m sec false true.

(** The long grammar: at least nineteen characters. *)
Definition long_form (s : string) (t : ClockTime) : Prop :=
  exists y mo d h m sec rest,
    s = long_text y mo d h m sec rest
    /\ 1970 <= y <= 9999 /\ 1 <= mo <= 12 /\ 1 <= d <= 31 /\ hms_valid h m sec
    /\ t = mkClockTime y mo d h m sec true true.

(** ** Invariants of the clock value *)

(** The ranges [parseTime] checks on the date fields. *)
Definition date_fields_ok (t : ClockTime) : Prop :=
  1970 <= year t /\ 1 <= month t <= 12 /\ 1 <= day t <= 31.

(** A date of the calendar: the day exists in that month of that year. *)
Definition calendar_valid (t : ClockTime) : Prop :=
  1970 <= year t /\ 1 <= month t <= 12
  /\ exists dim, daysInMonth (year t) (month t) = Some dim /\ 1 <= day t <= dim.

(** [ticks_from t0 t]: [t] is [t0] after some calls of [tickOneSecond],
    none of them made with the 16-bit year at its largest value. *)
Inductive ticks_from (t0 : ClockTime) : ClockTime -> Prop :=
| ticks_none : ticks_from t0 t0
| ticks_more t t' :
    ticks_from t0 t -> year t < INT_MAX -> tickOneSecond t = Some t' -> ticks_from t0 t'.

(** The values the shared clock [ct] takes: its initial value, a value
    installed by the serial handler after a successful parse, and a value
    left by [tickOneSecond], which the scheduler only calls once the clock
    is set. *)
Inductive reachable : ClockTime -> Prop :=
| reach_startup : reachable ClockTime_init
| reach_sync t s parsed :
    reachable t -> parseTime s = Some parsed -> reachable (set_isSet true parsed)
| reach_tick t t' :
    reachable t -> isSet t = true -> tickOneSecond t = Some t' -> reachable t'.

(** ** The catch-up loop, second by second *)

(** [n] seconds handled one after the other: each is one advance of the
    clock followed by its redraws, starting from the clock and shadow the
    previous second left. *)
Fixpoint seconds_run (W H : Z) (p : SegParams) (lay : Layout) (textWidth : string -> Z)
    (n : nat) (c : ClockTime) (sh : Shadow) : option (ClockTime * Shadow * list TftOp) :=
  match n with
  | O => Some (c, sh, [])
  | S k =>
      match secondStep W H p lay textWidth c sh with
      | None => None
      | Some (c1, sh1, o1) =>
          match seconds_run W H p lay textWidth k c1 sh1 with
          | None => None
          | Some (c2, sh2, o2) => Some (c2, sh2, o1 ++ o2)
          end
      end
  end.

(** Whole seconds elapsed since the tick reference, as the loop test sees
    them. *)
Definition elapsed_seconds (ms last : Z) : Z := u32 (ms - last) / 1000.

(** ** A concrete panel, for the examples

    The 2.8 inch panel in landscape is 320 by 240; the built-in font at
    size 2 is 12 pixels wide. *)

Definition panel_W : Z := 320.
Definition panel_H : Z := 240.
Definition panel_params : SegParams := autoSizeToFit panel_W SegParams_init.
Definition panel_layout : Layout := setupLayout panel_W panel_params.
Definition panel_textWidth (s : string) : Z := 12 * Z.of_nat (String.length s).

(** The sketch right after the line [2024-02-28 23:59:59] was accepted at
    time 0. *)
Definition synced_sketch : Sketch :=
  mkSketch feb28_2024 Shadow_init 0 true "Time synced" [] "".

(** ** Rendering a clock value

    The three diffing draw routines, called for one clock value.  *)
Definition renderClock (W H : Z) (p : SegParams) (lay : Layout) (textWidth : string -> Z)
    (c : ClockTime) (sh : Shadow) : Shadow * list TftOp :=
  let '(sh1, o1) := drawTimeDigits W H p lay c sh in
  let '(sh2, o2) := drawDateLine W H textWidth c sh1 in
  let '(sh3, o3) := drawSecondsBarFill W H (second c) sh2 in
  (sh3, o1 ++ o2 ++ o3).

(** Text without a NUL byte: as a C string it is all of itself. *)
Fixpoint nul_free (s : string) : Prop :=
  match s with
  | EmptyString => True
  | String c r => Ascii.eqb c NUL = false /\ nul_free r
  end.

(** ** Auto-size: where the shrinking can lead *)

(** Every parameter between its minimum and its initial value. *)
Definition shrunk (p : SegParams) : Prop :=
  MIN_SP <= E_SP p <= E_SP SegParams_init
  /\ MIN_COLON <= COLON_W p <= COLON_W SegParams_init
  /\ MIN_LEN <= SEG_LEN p <= SEG_LEN SegParams_init
  /\ MIN_VLEN <= SEG_VLEN p <= SEG_VLEN SegParams_init
  /\ MIN_THICK <= SEG_THICK p <= SEG_THICK SegParams_init
  /\ SEG_HGAP p = SEG_HGAP SegParams_init.

Definition at_minimum (p : SegParams) : Prop :=
  E_SP p = MIN_SP /\ COLON_W p = MIN_COLON /\ SEG_LEN p = MIN_LEN
  /\ SEG_VLEN p = MIN_VLEN /\ SEG_THICK p = MIN_THICK.

(** Pixels that can still be taken off the parameters. *)
Definition slack (p : SegParams) : Z :=
  (E_SP p - MIN_SP) + (COLON_W p - MIN_COLON) + (SEG_LEN p - MIN_LEN)
  + (SEG_VLEN p - MIN_VLEN) + (SEG_THICK p - MIN_THICK).

(** [p'] is [p] with one pixel taken off the first parameter, in the order
    gap, colon width, segment length, vertical length, thickness, that is
    still above its minimum; all other parameters are unchanged. *)
Definition shrinks_by_priority (p p' : SegParams) : Prop :=
  (MIN_SP < E_SP p /\ p' = set_E_SP (E_SP p - 1) p)
  \/ (E_SP p <= MIN_SP /\ MIN_COLON < COLON_W p /\ p' = set_COLON_W (COLON_W p - 1) p)
  \/ (E_SP p <= MIN_SP /\ COLON_W p <= MIN_COLON /\ MIN_LEN < SEG_LEN p
      /\ p' = set_SEG_LEN (SEG_LEN p - 1) p)
  \/ (E_SP p <= MIN_SP /\ COLON_W p <= MIN_COLON /\ SEG_LEN p <= MIN_LEN
      /\ MIN_VLEN < SEG_VLEN p /\ p' = set_SEG_VLEN (SEG_VLEN p - 1) p)
  \/ (E_SP p <= MIN_SP /\ COLON_W p <= MIN_COLON /\ SEG_LEN p <= MIN_LEN
      /\ SEG_VLEN p <= MIN_VLEN /\ MIN_THICK < SEG_THICK p
      /\ p' = set_SEG_THICK (SEG_THICK p - 1) p).

(** ** Environment line: readings against the last rendered values *)

(** A valid reading. *)
Definition env_valid (h t : float) : Prop := isnan h = false /\ isnan t = false.

(** The reading is less than 0.2 degrees and less than 1.0 percent away
    from the values rendered last. *)
Definition env_below_steps (es : EnvState) (h t : float) : Prop :=
  f32_lt (fabs (f32_sub t (lastT es))) TEMP_STEP = true
  /\ f32_lt (fabs (f32_sub h (lastH es))) HUM_STEP = true.

(** The reading is at least 0.2 degrees or at least 1.0 percent away from
    the values rendered last. *)
Definition env_crosses_step (es : EnvState) (h t : float) : Prop :=
  f32_ge (fabs (f32_sub t (lastT es))) TEMP_STEP = true
  \/ f32_ge (fabs (f32_sub h (lastH es))) HUM_STEP = true.

(** The line composed for the reading is the line rendered last. *)
Definition env_same_text (es : EnvState) (h t : float) : Prop :=
  strncmp_ne (envText t h) (lastEnvStr es) ENV_LINE_LEN = false.

(** Readings of 24.0 and 24.1 degrees and of 50 percent. *)
Definition temp_24_0 : float := f32_of_ratio 240 10.
Definition temp_24_1 : float := f32_of_ratio 241 10.
Definition temp_24_3 : float := f32_of_ratio 243 10.
Definition hum_50 : float := f32_of_ratio 50 1.

(** The environment state after the first valid reading, 24.0 degrees and
    50 percent, was rendered at time 2000. *)
Definition env_after_first_reading : EnvState :=
  fst (updateEnv 0 2000 hum_50 temp_24_0 EnvState_init).

(** * Further definitions *)

(** ** Time of day *)

(** Seconds since midnight. *)
Definition secs_of_day (t : ClockTime) : Z := hour t * 3600 + minute t * 60 + second t.

(** Hour, minute and second of a time of day. *)
Definition time_ok (t : ClockTime) : Prop := hms_valid (hour t) (minute t) (second t).

(** ** Checks over a range of integers *)

(** [f] holds on the [n] integers from [z] on; on the integers below [n]. *)
Fixpoint all_from (z : Z) (n : nat) (f : Z -> bool) : bool :=
  match n with
  | O => true
  | S k => f z && all_from (z + 1) k f
  end.
Definition all_below (n : nat) (f : Z -> bool) : bool := all_from 0 n f.

(** ** Weekday of the date line *)

(** Days counted by the year part of [weekdayIndex], with flooring
    division. *)
Definition year_days (y : Z) : Z := y + y / 4 - y / 100 + y / 400.

(** ** The serial line, as a split of the received bytes *)

Definition is_eol (c : ascii) : bool := Ascii.eqb c LF || Ascii.eqb c CR.

(** The bytes in front of the first line terminator, and the bytes behind
    it. *)
Fixpoint before_eol (rx : list ascii) : list ascii :=
  match rx with
  | [] => []
  | c :: r => if is_eol c then [] else c :: before_eol r
  end.
Fixpoint after_eol (rx : list ascii) : list ascii :=
  match rx with
  | [] => []
  | c :: r => if is_eol c then r else after_eol r
  end.

(** ** Background gradient *)

(** [drawOceanGradient]: the two loops that paint the background, one
    full-width line per row. *)
Definition drawOceanGradient (W H : Z) : list TftOp :=
  let midY := oceanMidY H in
  map (fun k =>
         let y := Z.of_nat k in
         DrawFastHLine 0 y (int16 W)
           (lerp565 OCEAN_TOP OCEAN_MID
              (u8 (u32 (u32 y * 255) / u32 (if midY =? 0 then 1 else midY)))))
      (seq 0 (Z.to_nat midY))
  ++ map (fun k =>
            let y := midY + Z.of_nat k in
            let span := u16 (H - midY) in
            DrawFastHLine 0 y (int16 W)
              (lerp565 OCEAN_MID OCEAN_BOT
                 (u8 (u32 (u32 (y - midY) * 255) / (if span =? 0 then 1 else span)))))
         (seq 0 (Z.to_nat (int16 H - midY))).

(** The three channels of an RGB565 colour. *)
Definition red565 (c : Z) : Z := Z.land (Z.shiftr c 11) 0x1F.
Definition green565 (c : Z) : Z := Z.land (Z.shiftr c 5) 0x3F.
Definition blue565 (c : Z) : Z := Z.land c 0x1F.

(** The word [lerp565] builds from three channel values. *)
Definition pack565 (r g b : Z) : Z :=
  u16 (Z.lor (Z.lor (u16 (Z.shiftl r 11)) (u16 (Z.shiftl g 5))) b).

(** ** Environment line: sensor failures *)

(** A text of at least two characters that does not start with two
    dashes. *)
Definition no_dash_pair (s : string) : Prop :=
  (2 <= String.length s)%nat
  /\ (char_at s 0 <> "-"%char \/ char_at s 1 <> "-"%char).

(** ** Digit masks of the shadow state *)

(** The segment mask [drawTimeDigits] computes for a character of the time
    text. *)
Definition mask_of_char (c : ascii) : Z :=
  if isDigitN c then elem DIGIT_MASK (Z.to_nat (char_val c - char_val "0")) else 0.

(** Positions of the six digits in the time text. *)
Definition digit_positions : list nat := [0; 1; 3; 4; 6; 7]%nat.

(** The masks are those of the digits of [text]. *)
Definition masks_match (text : string) (masks : list Z) : Prop :=
  masks = map (fun i => mask_of_char (char_at text i)) digit_positions.

(** The mask update of one pass through the loop of [drawTimeDigits]. *)
Definition mask_step (cur prev : string) (masks : list Z) (i : nat) : list Z :=
  if Nat.eqb i 2 || Nat.eqb i 5 then masks
  else if Ascii.eqb (char_at cur i) (char_at prev i) then masks
  else array_set masks (if Nat.ltb i 2 then i else if Nat.ltb i 5 then i - 1 else i - 2)%nat
                 (mask_of_char (char_at cur i)).

(** ** Pulsing colons

    The brightness of the colons follows a cosine over the current second.
    [cosf] is the routine of the C library; it is left open here, and
    everything below holds for whatever it returns. *)

Definition f32_add (a b : float) : float := SFadd 24 128 a b.
Definition f32_mul (a b : float) : float := SFmul 24 128 a b.
Definition f32_div (a b : float) : float := SFdiv 24 128 a b.

(** Conversion of an integer to [float]. *)
Definition f32_of_Z (n : Z) : float := binary_normalize 24 128 n 0 false.

(** The literals [0.5f], [1.0f], [2.0f], [255.0f], [1000.0f] and
    [3.1415926f] (whose nearest binary32 value is [13176794 * 2^-22]). *)
Definition F_0_5 : float := binary_normalize 24 128 1 (-1) false.
Definition F_1 : float := f32_of_Z 1.
Definition F_2 : float := f32_of_Z 2.
Definition F_255 : float := f32_of_Z 255.
Definition F_1000 : float := f32_of_Z 1000.
Definition F_PI : float := S754_finite false 13176794 (-22).

(** Conversion of a [float] to an integer type: the fraction is dropped.
    (For NaN and the infinities C leaves the result open; 0 is used.) *)
Definition f32_trunc (x : float) : Z :=
  match x with
  | S754_finite s m e =>
      let v := if 0 <=? e then Z.pos m * 2 ^ e else Z.pos m / 2 ^ (- e) in
      if s then - v else v
  | _ => 0
  end.

(** [(uint8_t) x] *)
Definition f32_to_u8 (x : float) : Z := u8 (f32_trunc x).

Section ColonPulse.

Variable cosf : float -> float.
Variable p : SegParams.
Variable lay : Layout.

Definition drawColonColor (col : Z) : list TftOp :=
  let r := Z.quot (SEG_THICK p) 2 + 1 in
  flat_map (fun i => [FillCircle (elem (COLON_X lay) i) (COLON_Y lay) r col;
                      FillCircle (elem (COLON_X lay) i) (COLON_Y lay + SEG_VLEN p) r col])
           [0; 1]%nat.

(** The weight [t] that [updateColonPulse] computes from the time [ms]
    and the tick reference [last], both [unsigned long]. *)
Definition pulseWeight (ms last : Z) : Z :=
  let frac := if u32 last <=? u32 ms then u32 (ms - last) else 0 in
  let frac := if 999 <? frac then 999 else frac in
  let phase := f32_div (f32_of_Z frac) F_1000 in
  let bright := f32_mul F_0_5 (f32_sub F_1 (cosf (f32_mul (f32_mul F_2 F_PI) phase))) in
  f32_to_u8 (f32_add (f32_mul bright F_255) F_0_5).

Definition updateColonPulse (ms last : Z) : list TftOp :=
  drawColonColor (lerp565 COL_GLOW_DIM COL_GLOW (pulseWeight ms last)).

End ColonPulse.

(** ** One pass through [loop] *)

(** What [loop] works on: the globals of the scheduler, the timer of the
    animation block and the statics of the environment line. *)
Record LoopState := mkLoopState {
  sketch : Sketch;
  subAnimMs : Z;
  env : EnvState
}.

Section LoopPass.

Variables W H : Z.
Variable p : SegParams.
Variable lay : Layout.
Variable textWidth : string -> Z.
Variable ENV_BG : Z.
Variable cosf : float -> float.

(** The 30 ms animation block: colon pulse and environment line (the
    scan line is compiled out).  [ms] is the reading of [millis] taken by
    [loop], [msEnv] the one [updateEnv] takes itself, [h] and [t] what the
    sensor returns if it is read. *)
Definition animPhase (ms msEnv : Z) (h t : float) (ls : LoopState) : LoopState :=
  if 30 <=? u32 (ms - subAnimMs ls) then
    let st := sketch ls in
    let o1 := updateColonPulse cosf p lay ms (lastTickMs st) in
    let '(es, o2) := updateEnv ENV_BG msEnv h t (env ls) in
    mkLoopState
      (mkSketch (ct st) (shadow st) (lastTickMs st) (repaintAll st) (lastStatus st)
                (tft st ++ o1 ++ o2) (bt st))
      ms es
  else ls.

(** The last part of [loop]: the forced repaint that an accepted line
    asks for. *)
Definition repaintPhase (st : Sketch) : Sketch :=
  if repaintAll st then
    let '(sh, ops) := forceRedrawAll W H p lay textWidth ENV_BG (ct st) (shadow st) in
    mkSketch (ct st) sh (lastTickMs st) false (lastStatus st) (tft st ++ ops) (bt st)
  else st.

(** One pass through [loop]: the serial part, the animation block, the
    1 Hz part and the forced repaint.  [now] is the reading of [millis]
    taken when a line is accepted and [rx] what the link delivers during
    the pass. *)
Definition loopPass (now ms msEnv : Z) (rx : list ascii) (h t : float) (ls : LoopState)
  : option (LoopState * list ascii) :=
  let '(st1, rest) := serialPhase W now rx (sketch ls) in
  let ls2 := animPhase ms msEnv h t (mkLoopState st1 (subAnimMs ls) (env ls)) in
  match clockPhase W H p lay textWidth ms (sketch ls2) with
  | Some st3 => Some (mkLoopState (repaintPhase st3) (subAnimMs ls2) (env ls2), rest)
  | None => None
  end.

End LoopPass.

(** The shadow state describes the clock value: time text, digit masks,
    date text and width of the seconds bar. *)
Definition shadow_in_step (c : ClockTime) (sh : Shadow) : Prop :=
  prevTimeStr sh = timeText c
  /\ masks_match (timeText c) (prevDigitMask sh)
  /\ strcmp_ne (dateText c) (prevDateStr sh) = false
  /\ prevFillW sh = fillWidth (barW sh) (second c).

(** What holds between two passes through [loop]. *)
Definition loop_invariant (st : Sketch) : Prop :=
  reachable (ct st) /\ repaintAll st = false
  /\ 0 <= lastTickMs st < 2 ^ 32
  /\ shadow_in_step (ct st) (shadow st).

(** ** Start-up

    [setup] paints the background, which needs three drawing commands the
    renderer never uses afterwards. *)

Definition SEAL_DARK : Z := 0x632C.
Definition SEAL_MID : Z := 0x8410.
Definition SEAL_LIGHT : Z := 0xAD55.
Definition SEAL_EYE : Z := 0x0000.
Definition SEAL_WHISK : Z := 0xFFFF.

Inductive GfxOp : Type :=
| Tft (op : TftOp)
| DrawLine (x0 y0 x1 y1 color : Z)
| FillTriangle (x0 y0 x1 y1 x2 y2 color : Z)
| DrawCircle (x y r color : Z).

(** [k*scale/10] on [int]. *)
Definition scaled (k scale : Z) : Z := Z.quot (int16 (k * scale)) 10.

Definition drawSeal (cx cy scale : Z) : list GfxOp :=
  let br := scaled 28 scale in
  let hr := scaled 14 scale in
  let hx := cx + scaled 24 scale in
  let hy := cy - scaled 10 scale in
  let tx := cx - br - scaled 10 scale in
  let ty := cy + scaled 2 scale in
  [Tft (FillCircle cx cy (br + 6) SEAL_DARK);
   Tft (FillCircle (cx + scaled 8 scale) (cy + scaled 2 scale) (br + 4) SEAL_DARK);
   Tft (FillCircle (cx - scaled 12 scale) (cy + scaled 2 scale) br SEAL_DARK);
   Tft (FillCircle (cx - scaled 2 scale) (cy + scaled 4 scale) (br - 8) SEAL_LIGHT);
   Tft (FillCircle hx hy hr SEAL_MID);
   Tft (FillCircle (hx + Z.quot hr 3) (hy + Z.quot hr 3) (scaled 2 scale + 1) SEAL_EYE);
   Tft (FillCircle (hx - Z.quot hr 3) (hy - Z.quot hr 4) 2 SEAL_EYE);
   Tft (FillCircle (hx + Z.quot hr 6) (hy - Z.quot hr 3) 2 SEAL_EYE)]
  ++ flat_map (fun i =>
       [DrawLine (hx - 2) (hy + 2 + 3 * i) (hx - 10 - 6 * i) (hy + 2 + 3 * i) SEAL_WHISK;
        DrawLine (hx + 2) (hy + 2 + 3 * i) (hx + 10 + 6 * i) (hy + 2 + 3 * i) SEAL_WHISK])
       [-1; 0; 1]
  ++ [FillTriangle (cx - scaled 6 scale) (cy + br - 8) (cx - scaled 20 scale) (cy + br + 6)
                   (cx - scaled 2 scale) (cy + br + 6) SEAL_MID;
      FillTriangle (cx + scaled 10 scale) (cy + br - 6) (cx + scaled 22 scale) (cy + br + 6)
                   (cx + scaled 2 scale) (cy + br + 6) SEAL_MID;
      FillTriangle tx ty (tx - scaled 12 scale) (ty - scaled 8 scale)
                   (tx - scaled 12 scale) (ty + scaled 8 scale) SEAL_MID;
      DrawCircle cx cy (br + 7) SEAL_MID].

Definition drawSealBackground (W H : Z) : list GfxOp :=
  let baseY := int16 (u16 (H * 3) / 4) in
  map Tft (drawOceanGradient W H)
  ++ [Tft (FillRoundRect (int16 (W / 4)) baseY (int16 (W / 2)) 12 6 0xC618);
      Tft (DrawRoundRect (int16 (W / 4)) baseY (int16 (W / 2)) 12 6 0x8410)]
  ++ drawSeal (int16 (u16 (W / 2 - 10))) (baseY - 18) 12.

(** What [setup] leaves: the geometry, the layout, the background colour
    of the environment line, everything it has sent to the panel, and the
    state [loop] starts from. *)
Record Started := mkStarted {
  seg : SegParams;
  layout : Layout;
  env_bg : Z;
  painted : list GfxOp;
  state : LoopState
}.

(** [setup] on a panel of [W] by [H] pixels; [now] is the reading of
    [millis] at its end.  The trace of the state it leaves starts empty:
    it collects what [loop] sends. *)
Definition setup (W H : Z) (textWidth : string -> Z) (now : Z) : Started :=
  let bg := oceanColorAtY H ENV_Y in
  let p := autoSizeToFit W SegParams_init in
  let o1 := drawSealBackground W H in
  let o2 := drawTitleStrip W (lastStatus Sketch_init) in
  let lay := setupLayout W p in
  let '(sh, o3) := forceRedrawAll W H p lay textWidth bg (ct Sketch_init) (shadow Sketch_init) in
  mkStarted p lay bg (o1 ++ map Tft (o2 ++ o3))
    (mkLoopState
       (mkSketch (ct Sketch_init) sh now (repaintAll Sketch_init) (lastStatus Sketch_init)
                 [] (bt Sketch_init))
       now EnvState_init).

(** What the outside world feeds one pass through [loop]: the readings of
    [millis], the bytes that arrive on the link, and what the sensor
    returns if it is read. *)
Record PassInput := mkPassInput {
  pass_now : Z;
  pass_ms : Z;
  pass_msEnv : Z;
  arrived : list ascii;
  sensor_h : float;
  sensor_t : float
}.

(** [loop] called over and over; the bytes a pass leaves unread are in
    front of those that arrive during the next one. *)
Fixpoint loopRun (W H : Z) (p : SegParams) (lay : Layout) (textWidth : string -> Z)
    (bg : Z) (cosf : float -> float)
    (inputs : list PassInput) (pending : list ascii) (ls : LoopState)
  : option (LoopState * list ascii) :=
  match inputs with
  | [] => Some (ls, pending)
  | i :: more =>
      match loopPass W H p lay textWidth bg cosf (pass_now i) (pass_ms i) (pass_msEnv i)
                     (pending ++ arrived i) (sensor_h i) (sensor_t i) ls with
      | Some (ls', rest) => loopRun W H p lay textWidth bg cosf more rest ls'
      | None => None
      end
  end.

(** ** Where a command paints *)

(** The command paints inside the rectangle with corner [(x, y)], width
    [w] and height [h] (and nowhere else). *)
Definition op_in_box (x y w h : Z) (op : TftOp) : Prop :=
  match op with
  | DrawFastHLine lx ly lw _ =>
      0 <= lw /\ x <= lx /\ lx + lw <= x + w /\ y <= ly < y + h
  | FillRect rx ry rw rh _ | FillRoundRect rx ry rw rh _ _ =>
      0 <= rw /\ 0 <= rh /\ x <= rx /\ rx + rw <= x + w /\ y <= ry /\ ry + rh <= y + h
  | _ => False
  end.

(** The digit a position of the time text belongs to. *)
Definition digit_index (i : nat) : nat :=
  (if Nat.ltb i 2 then i else if Nat.ltb i 5 then i - 1 else i - 2)%nat.

(** ** The frame of the seconds bar *)

(** The command is the outline of a rounded rectangle: the only such
    outline the renderer draws is the frame of the seconds bar. *)
Definition is_frame (op : TftOp) : bool :=
  match op with
  | DrawRoundRect _ _ _ _ _ _ => true
  | _ => false
  end.

(** ** What one second of the catch-up loop puts on the panel *)

(** Repainting the digit at position [i] of the time text [cur]: the box
    of the digit is filled with the background, then the segments of the
    character are drawn. *)
Definition digit_repaint (W H : Z) (p : SegParams) (lay : Layout) (cur : string) (i : nat)
  : list TftOp :=
  let '(x, y, w, h) := digitBounds p lay (digit_index i) in
  fillRectWithOceanBG W H x y w h
  ++ drawDigitSegments W H p x y (mask_of_char (char_at cur i)) false.

(** One second of the catch-up loop, seen from outside.  The clock [c']
    is what one call of [tickOneSecond] makes of [c]: a valid time of day,
    one second of the day after [c], on the date of [c] unless it is
    midnight.  The shadow state [sh'] holds its text and the bar width of
    its second.  The commands [o] repaint every digit whose character
    differs from the one the shadow state [sh] remembered, the last digit
    among them when [sh] remembered the text of [c], and bring the seconds
    bar from the remembered width to the new one: a first fill, a strip
    added at its end, or a strip at its end given back to the
    background. *)
Definition second_shown (W H : Z) (p : SegParams) (lay : Layout)
    (c : ClockTime) (sh : Shadow) (c' : ClockTime) (sh' : Shadow) (o : list TftOp) : Prop :=
  let fw := fillWidth (barW sh) (second c') in
  tickOneSecond c = Some c'
  /\ time_ok c'
  /\ secs_of_day c' = (secs_of_day c + 1) mod 86400
  /\ (secs_of_day c' <> 0 -> year c' = year c /\ month c' = month c /\ day c' = day c)
  /\ prevTimeStr sh' = timeText c'
  /\ prevFillW sh' = fw /\ barW sh' = barW sh /\ barY sh' = barY sh
  /\ (forall i, In i digit_positions ->
        char_at (timeText c') i <> char_at (prevTimeStr sh) i ->
        incl (digit_repaint W H p lay (timeText c') i) o)
  /\ (prevTimeStr sh = timeText c -> incl (digit_repaint W H p lay (timeText c') 7) o)
  /\ (prevFillW sh < 0 -> fw <> prevFillW sh ->
      In (FillRect barX (barY sh) fw barH COL_BAR) o)
  /\ (0 <= prevFillW sh < fw ->
      In (FillRect (barX + prevFillW sh) (barY sh) (fw - prevFillW sh) barH COL_BAR) o)
  /\ (0 <= prevFillW sh -> fw < prevFillW sh ->
      incl (fillRectWithOceanBG W H (barX + fw) (barY sh) (prevFillW sh - fw) barH) o).

(** ** The text on the environment line

    The panel keeps a text cursor: [setCursor] places it, [print] writes
    at it and moves it on.  The environment line is what was last printed
    with the cursor at [(ENV_X, ENV_Y)]. *)

(** The cursor, if it is where a [setCursor] put it, and the text last
    printed at the start of the environment line, after one more
    command.  Printing an empty text writes nothing and moves nothing. *)
Definition textStep (st : option (Z * Z) * string) (op : TftOp) : option (Z * Z) * string :=
  match op with
  | SetCursor x y => (Some (x, y), snd st)
  | Print s =>
      match s with
      | EmptyString => st
      | String _ _ =>
          match fst st with
          | Some (x, y) => (None, if (x =? ENV_X) && (y =? ENV_Y) then s else snd st)
          | None => st
          end
      end
  | _ => st
  end.

(** The text on the environment line after a list of commands; empty when
    none of them printed there. *)
Definition envLineText (ops : list TftOp) : string :=
  snd (fold_left textStep ops (None, "")).

(** The 26 cells [drawEnvLine] prints for a text. *)
Definition envCells (s : string) : string :=
  let text := substring 0 ENV_LINE_LEN (c_str s) in
  (text ++ repeat_char " " (ENV_LINE_LEN - String.length text))%string.

(** The commands of the renderer among those of [setup]. *)
Definition tftOps (l : list GfxOp) : list TftOp :=
  flat_map (fun g => match g with Tft op => [op] | _ => [] end) l.

(** Commands that place the cursor or print. *)
Definition is_text (op : TftOp) : bool :=
  match op with
  | SetCursor _ _ | Print _ => true
  | _ => false
  end.

(** Commands that leave the environment line as it is, wherever the
    cursor was before them. *)
Definition off_env_line (ops : list TftOp) : Prop :=
  forall st, snd (fold_left textStep ops st) = snd st.

(** The environment line shows the placeholder or the text remembered in
    [lastEnvStr]. *)
Definition env_line_tracked (ops : list TftOp) (es : EnvState) : Prop :=
  envLineText ops = envCells envPlaceholder
  \/ envLineText ops = envCells (lastEnvStr es).

(** ** A run with a sensor that answers, fails, and a time line

    On the 320 by 240 panel, with a [cosf] that returns 1: a first pass
    two seconds after [setup] reads 24.0 degrees and 50 percent; then
    either the sensor fails in a pass at four seconds, or a time line
    arrives at three seconds and the same reading is taken again at four
    and a half seconds. *)

Definition state_after (r : option (LoopState * list ascii)) (otherwise : LoopState)
  : LoopState :=
  match r with
  | Some (ls, _) => ls
  | None => otherwise
  end.

Definition panel_start : Started := setup panel_W panel_H panel_textWidth 0.

Definition panel_pass (now ms msEnv : Z) (rx : list ascii) (h t : float) (ls : LoopState)
  : option (LoopState * list ascii) :=
  loopPass panel_W panel_H (seg panel_start) (layout panel_start) panel_textWidth
    (env_bg panel_start) (fun _ => F_1) now ms msEnv rx h t ls.

Definition loop_after_reading : LoopState :=
  state_after
    (loopRun panel_W panel_H (seg panel_start) (layout panel_start) panel_textWidth
       (env_bg panel_start) (fun _ => F_1)
       [mkPassInput 2000 2000 2000 [] hum_50 temp_24_0] [] (state panel_start))
    (state panel_start).

Definition loop_after_failure : LoopState :=
  state_after (panel_pass 4000 4000 4000 [] NAN NAN loop_after_reading) loop_after_reading.

Definition loop_after_time_line : LoopState :=
  state_after
    (panel_pass 3000 3000 3000 (list_ascii_of_string "12:34:56" ++ [LF]) hum_50 temp_24_0
       loop_after_reading)
    loop_after_reading.

Definition loop_after_same_reading : LoopState :=
  state_after (panel_pass 4500 4500 4500 [] hum_50 temp_24_0 loop_after_time_line)
    loop_after_time_line.

(** * Properties *)

(** ** Machine integers *)

Lemma int16_id x : INT_MIN <= x <= INT_MAX -> int16 x = x.
Proof.
  unfold int16, wrap_signed, INT_MIN, INT_MAX. intros Hx.
  change (2 ^ (16 - 1)) with 32768. change (2 ^ 16) with 65536.
  rewrite Z.mod_small; lia.
Qed.

Lemma int32_id x : - 2147483648 <= x <= 2147483647 -> int32 x = x.
Proof.
  unfold int32, wrap_signed. intros Hx.
  change (2 ^ (32 - 1)) with 2147483648. change (2 ^ 32) with 4294967296.
  rewrite Z.mod_small; lia.
Qed.

Lemma incr_small x : INT_MIN <= x < INT_MAX -> incr x = x + 1.
Proof. intros Hx. unfold incr. apply int16_id. unfold INT_MIN, INT_MAX in *. lia. Qed.

Lemma decr_small x : INT_MIN < x <= INT_MAX -> decr x = x - 1.
Proof. intros Hx. unfold decr. apply int16_id. unfold INT_MIN, INT_MAX in *. lia. Qed.

Lemma u8_id x : 0 <= x < 256 -> u8 x = x.
Proof. intros Hx. unfold u8. change (2 ^ 8) with 256. apply Z.mod_small. lia. Qed.

Lemma u16_id x : 0 <= x < 65536 -> u16 x = x.
Proof. intros Hx. unfold u16. change (2 ^ 16) with 65536. apply Z.mod_small. lia. Qed.

Lemma u32_id x : 0 <= x < 4294967296 -> u32 x = x.
Proof. intros Hx. unfold u32. change (2 ^ 32) with 4294967296. apply Z.mod_small. lia. Qed.

Lemma u32_range x : 0 <= u32 x < 4294967296.
Proof. unfold u32. change (2 ^ 32) with 4294967296. apply Z.mod_pos_bound. lia. Qed.

(** Advancing the tick reference by one second consumes exactly 1000 ms of
    the elapsed time, also across a wrap of the millisecond counter. *)
Lemma u32_elapsed_step ms last :
  1000 <= u32 (ms - last) -> u32 (ms - u32 (last + 1000)) = u32 (ms - last) - 1000.
Proof.
  intros Hle. unfold u32 in *. rewrite Zminus_mod_idemp_r.
  replace (ms - (last + 1000)) with ((ms - last) - 1000) by lia.
  rewrite <- Zminus_mod_idemp_l.
  pose proof (Z.mod_pos_bound (ms - last) (2 ^ 32) ltac:(lia)).
  apply Z.mod_small. lia.
Qed.

(** ** Time model: the leap-day rollover *)

Example tick_within_minute :
  tickOneSecond (mkClockTime 0 0 0 7 5 9 false true)
  = Some (mkClockTime 0 0 0 7 5 10 false true).
Proof. reflexivity. Qed.

Example tick_over_new_year :
  tickOneSecond (mkClockTime 2024 12 31 23 59 59 true true)
  = Some (mkClockTime 2025 1 1 0 0 0 true true).
Proof. reflexivity. Qed.

Example tick_without_date_wraps_the_day :
  tickOneSecond (mkClockTime 0 0 0 23 59 59 false true)
  = Some (mkClockTime 0 0 0 0 0 0 false true).
Proof. reflexivity. Qed.

Example parse_long_line :
  parseTime "2024-02-28 23:59:59" = Some feb28_2024.
Proof. reflexivity. Qed.

Example parse_short_line_after_blanks :
  parseTime "  07:05:09" = Some (mkClockTime 0 0 0 7 5 9 false true).
Proof. reflexivity. Qed.

Example parse_rejects :
  parseTime "24:00:00" = None /\ parseTime "2024-13-01 10:00:00" = None
  /\ parseTime "1969-12-31 23:59:59" = None /\ parseTime "2024/02/28 23:59:59" = None
  /\ parseTime "7:05:09" = None.
Proof. repeat split. Qed.

Lemma isLeap_gregorian y :
  isLeap y = true <-> ((4 | y) /\ ~ (100 | y)) \/ (400 | y).
Proof.
  unfold isLeap.
  rewrite orb_true_iff, andb_true_iff, negb_true_iff, !Z.eqb_eq, Z.eqb_neq.
  rewrite !Z.rem_divide by lia. tauto.
Qed.

Lemma daysInMonth_february y :
  daysInMonth y 2 = Some (if isLeap y then 29 else 28).
Proof. reflexivity. Qed.

(** C1, as stated: 86400 ticks from 23:59:59 do not end at midnight; they
    end one full day later, again at 23:59:59. *)
Lemma day_of_ticks_from_feb28_misses_midnight :
  tick_times 86400 feb28_2024 = Some (mkClockTime 2024 2 29 23 59 59 true true)
  /\ tick_times 86400 feb28_2024 <> Some (mkClockTime 2024 2 29 0 0 0 true true)
  /\ tick_times 86400 feb28_2023 <> Some (mkClockTime 2023 3 1 0 0 0 true true).
Proof.
  assert (E24 : tick_times 86400 feb28_2024
                = Some (mkClockTime 2024 2 29 23 59 59 true true))
    by (vm_compute; reflexivity).
  assert (E23 : tick_times 86400 feb28_2023
                = Some (mkClockTime 2023 3 1 23 59 59 true true))
    by (vm_compute; reflexivity).
  split; [exact E24 | split].
  - rewrite E24. discriminate.
  - rewrite E23. discriminate.
Qed.

(** C1, amended: a single tick from 2024-02-28 23:59:59 gives
    2024-02-29 00:00:00 and from 2023-02-28 23:59:59 gives
    2023-03-01 00:00:00; 86400 ticks give the same time of day one calendar
    day later (2024-02-29 23:59:59 and 2023-03-01 23:59:59).  February has
    29 days exactly in the years divisible by 4 and not by 100, or
    divisible by 400. *)
Theorem leap_day_rollover :
  tickOneSecond feb28_2024 = Some (mkClockTime 2024 2 29 0 0 0 true true)
  /\ tickOneSecond feb28_2023 = Some (mkClockTime 2023 3 1 0 0 0 true true)
  /\ tick_times 86400 feb28_2024 = Some (mkClockTime 2024 2 29 23 59 59 true true)
  /\ tick_times 86400 feb28_2023 = Some (mkClockTime 2023 3 1 23 59 59 true true)
  /\ (forall y, daysInMonth y 2 = Some 29 <-> ((4 | y) /\ ~ (100 | y)) \/ (400 | y))
  /\ (forall y, daysInMonth y 2 = Some 28 <-> ~ (((4 | y) /\ ~ (100 | y)) \/ (400 | y))).
Proof.
  split; [vm_compute; reflexivity |].
  split; [vm_compute; reflexivity |].
  split; [vm_compute; reflexivity |].
  split; [vm_compute; reflexivity |].
  split; intros y; rewrite daysInMonth_february, <- isLeap_gregorian;
    destruct (isLeap y); split; intros Hc;
    reflexivity || discriminate Hc || (exfalso; apply Hc; reflexivity) || idtac.
  intros Hd. discriminate Hd.
Qed.

(** ** Parser *)

Lemma isDigitN_inv c :
  isDigitN c = true ->
  exists d, 0 <= d <= 9 /\ c = digit_char d /\ char_val c - char_val "0" = d.
Proof.
  destruct c as [[] [] [] [] [] [] [] []]; intros Hd;
    try (vm_compute in Hd; discriminate Hd);
    match goal with
    | |- exists d, _ /\ ?c = _ /\ _ =>
        let v := eval vm_compute in (char_val c - char_val "0") in exists v
    end;
    repeat split; try lia; vm_compute; reflexivity.
Qed.

Lemma digit_cases d : 0 <= d <= 9 ->
  d = 0 \/ d = 1 \/ d = 2 \/ d = 3 \/ d = 4 \/ d = 5 \/ d = 6 \/ d = 7 \/ d = 8 \/ d = 9.
Proof. lia. Qed.

Ltac each_digit Hd :=
  apply digit_cases in Hd;
  repeat match type of Hd with _ \/ _ => destruct Hd as [Hd | Hd] end; subst.

Lemma digit_char_facts d : 0 <= d <= 9 ->
  isDigitN (digit_char d) = true
  /\ char_val (digit_char d) - char_val "0" = d
  /\ Ascii.eqb (digit_char d) NUL = false
  /\ Ascii.eqb (digit_char d) ":" = false.
Proof. intros Hd. each_digit Hd; vm_compute; auto. Qed.

Lemma two_digits d0 d1 : 0 <= d0 <= 9 -> 0 <= d1 <= 9 ->
  two (d0 * 10 + d1) = String (digit_char d0) (String (digit_char d1) EmptyString).
Proof.
  intros H0 H1. unfold two.
  replace ((d0 * 10 + d1) / 10) with d0 by (apply Z.div_unique with d1; lia).
  replace ((d0 * 10 + d1) mod 10) with d1 by (apply Z.mod_unique with d0; lia).
  reflexivity.
Qed.

Lemma four_digits d0 d1 d2 d3 :
  0 <= d0 <= 9 -> 0 <= d1 <= 9 -> 0 <= d2 <= 9 -> 0 <= d3 <= 9 ->
  four (d0 * 1000 + d1 * 100 + d2 * 10 + d3)
  = String (digit_char d0) (String (digit_char d1)
      (String (digit_char d2) (String (digit_char d3) EmptyString))).
Proof.
  intros H0 H1 H2 H3. unfold four.
  set (n := d0 * 1000 + d1 * 100 + d2 * 10 + d3).
  replace (n / 1000) with d0 by (apply Z.div_unique with (d1 * 100 + d2 * 10 + d3); lia).
  replace (n / 100) with (d0 * 10 + d1) by (apply Z.div_unique with (d2 * 10 + d3); lia).
  replace (n / 10) with (d0 * 100 + d1 * 10 + d2) by (apply Z.div_unique with d3; lia).
  replace ((d0 * 10 + d1) mod 10) with d1 by (apply Z.mod_unique with d0; lia).
  replace ((d0 * 100 + d1 * 10 + d2) mod 10) with d2
    by (apply Z.mod_unique with (d0 * 10 + d1); lia).
  replace (n mod 10) with d3 by (apply Z.mod_unique with (d0 * 100 + d1 * 10 + d2); lia).
  reflexivity.
Qed.

Lemma two_split n : 0 <= n <= 99 ->
  exists d0 d1, 0 <= d0 <= 9 /\ 0 <= d1 <= 9 /\ n = d0 * 10 + d1.
Proof.
  intros Hn. exists (n / 10), (n mod 10).
  pose proof (Z.div_mod n 10 ltac:(lia)). pose proof (Z.mod_pos_bound n 10 ltac:(lia)).
  lia.
Qed.

Lemma four_split n : 0 <= n <= 9999 ->
  exists d0 d1 d2 d3, 0 <= d0 <= 9 /\ 0 <= d1 <= 9 /\ 0 <= d2 <= 9 /\ 0 <= d3 <= 9
                      /\ n = d0 * 1000 + d1 * 100 + d2 * 10 + d3.
Proof.
  intros Hn.
  destruct (two_split (n / 100)) as (d0 & d1 & H0 & H1 & E1).
  { pose proof (Z.div_mod n 100 ltac:(lia)).
    pose proof (Z.mod_pos_bound n 100 ltac:(lia)). lia. }
  destruct (two_split (n mod 100)) as (d2 & d3 & H2 & H3 & E2).
  { pose proof (Z.mod_pos_bound n 100 ltac:(lia)). lia. }
  exists d0, d1, d2, d3. pose proof (Z.div_mod n 100 ltac:(lia)). lia.
Qed.

Lemma char_at_0 c s : char_at (String c s) 0 = c.
Proof. reflexivity. Qed.
Lemma char_at_S c s i : char_at (String c s) (S i) = char_at s i.
Proof. reflexivity. Qed.

(** Peel the first character off [s], given a fact [Hc] that fails on the
    empty string. *)
Ltac peel s Hc c :=
  destruct s as [| c s];
  [ exfalso; vm_compute in Hc; discriminate Hc
  | rewrite ?char_at_S, ?char_at_0 in * ].

Ltac is_sep Hc :=
  apply Ascii.eqb_eq in Hc; match type of Hc with ?c = _ => subst c end.

Ltac as_digit Hc d Hd :=
  let E := fresh "E" in let V := fresh "V" in
  destruct (isDigitN_inv _ Hc) as (d & Hd & E & V).

Lemma hms_in_range t :
  hms_out_of_range t = false -> hms_valid (hour t) (minute t) (second t).
Proof.
  unfold hms_out_of_range, hms_valid. rewrite !orb_false_iff, !Z.ltb_ge. lia.
Qed.

Lemma hms_valid_in_range h m sec y mo d b1 b2 :
  hms_valid h m sec -> hms_out_of_range (mkClockTime y mo d h m sec b1 b2) = false.
Proof.
  unfold hms_out_of_range, hms_valid. simpl. rewrite !orb_false_iff, !Z.ltb_ge. lia.
Qed.

Lemma to2_digits c0 c1 s i :
  isDigitN (char_at s i) = true -> isDigitN (char_at s (i + 1)) = true ->
  char_at s i = c0 -> char_at s (i + 1) = c1 ->
  to2 s i = (char_val c0 - char_val "0") * 10 + (char_val c1 - char_val "0").
Proof. intros D0 D1 <- <-. unfold to2. rewrite D0, D1. reflexivity. Qed.

Lemma parse_sound s t :
  parseTime s = Some t -> short_form (skipBlanks s) t \/ long_form (skipBlanks s) t.
Proof.
  unfold parseTime. generalize (skipBlanks s) as u. clear s. intros u.
  destruct (_ && isDigitN (char_at u 7)) eqn:C.
  - intros Hp. left.
    rewrite !andb_true_iff in C.
    destruct C as [[[[[[[[L D0] D1] S2] D3] D4] S5] D6] D7].
    unfold is_char in *.
    pose proof (to2_digits _ _ u 0 D0 D1 eq_refl eq_refl) as T0.
    pose proof (to2_digits _ _ u 3 D3 D4 eq_refl eq_refl) as T3.
    pose proof (to2_digits _ _ u 6 D6 D7 eq_refl eq_refl) as T6.
    simpl Nat.add in *. rewrite T0, T3, T6 in Hp. clear T0 T3 T6 L.
    peel u D0 c0. peel u D1 c1. peel u S2 c2. peel u D3 c3.
    peel u D4 c4. peel u S5 c5. peel u D6 c6. peel u D7 c7.
    is_sep S2. is_sep S5.
    destruct (isDigitN_inv _ D0) as (d0 & B0 & -> & V0).
    destruct (isDigitN_inv _ D1) as (d1 & B1 & -> & V1).
    destruct (isDigitN_inv _ D3) as (d3 & B3 & -> & V3).
    destruct (isDigitN_inv _ D4) as (d4 & B4 & -> & V4).
    destruct (isDigitN_inv _ D6) as (d6 & B6 & -> & V6).
    destruct (isDigitN_inv _ D7) as (d7 & B7 & -> & V7).
    rewrite V0, V1, V3, V4, V6, V7 in Hp.
    destruct (hms_out_of_range _) eqn:R; [discriminate Hp |].
    apply hms_in_range in R. simpl in R.
    injection Hp as <-.
    exists (d0 * 10 + d1), (d3 * 10 + d4), (d6 * 10 + d7), u.
    split; [| split; [exact R | reflexivity]].
    unfold short_text. rewrite !two_digits by assumption. reflexivity.
  - clear C.
    destruct ((19 <=? _) && isDigitN (char_at u 0)) eqn:C; [| discriminate].
    destruct (negb _) eqn:S; [discriminate |].
    apply negb_false_iff in S. rewrite !andb_true_iff in S.
    destruct S as [[[[S4 S7] S10] S13] S16].
    set (y := to4 u 0). set (mo := to2 u 5). set (d := to2 u 8).
    set (h := to2 u 11). set (m := to2 u 14). set (sec := to2 u 17).
    cbn [set_year set_month set_day set_hour set_minute set_second set_hasDate set_isSet
         year month day hour minute second hasDate isSet ClockTime_init].
    destruct (_ || (31 <? d)) eqn:R1; [discriminate |].
    destruct (hms_out_of_range _) eqn:R2; [discriminate |].
    intros Hp. injection Hp as <-. right.
    apply hms_in_range in R2. cbn in R2.
    rewrite !orb_false_iff, !Z.ltb_ge in R1.
    destruct R1 as [[[[Ry Rm1] Rm2] Rd1] Rd2].
    assert (D4 : forallb (fun k => isDigitN (char_at u (0 + k))) [0; 1; 2; 3]%nat = true).
    { destruct (forallb _ _) eqn:F; [reflexivity |].
      exfalso. unfold y, to4 in Ry. rewrite F in Ry. lia. }
    cbn [forallb Nat.add] in D4. rewrite !andb_true_iff in D4.
    destruct D4 as (Y0 & Y1 & Y2 & Y3 & _).
    assert (Dg : forall i v, to2 u i = v -> 0 <= v ->
                 isDigitN (char_at u i) = true /\ isDigitN (char_at u (i + 1)) = true).
    { intros i v E Hv. unfold to2 in E.
      destruct (isDigitN (char_at u i)), (isDigitN (char_at u (i + 1)));
        simpl in E; try lia; auto. }
    destruct (Dg 5%nat mo eq_refl ltac:(lia)) as [M0 M1].
    destruct (Dg 8%nat d eq_refl ltac:(lia)) as [A0 A1].
    destruct (Dg 11%nat h eq_refl ltac:(unfold hms_valid in R2; lia)) as [H0 H1].
    destruct (Dg 14%nat m eq_refl ltac:(unfold hms_valid in R2; lia)) as [N0 N1].
    destruct (Dg 17%nat sec eq_refl ltac:(unfold hms_valid in R2; lia)) as [Q0 Q1].
    clear Dg. simpl Nat.add in *.
    assert (Ey : y = (char_val (char_at u 0) - char_val "0") * 1000
                     + (char_val (char_at u 1) - char_val "0") * 100
                     + (char_val (char_at u 2) - char_val "0") * 10
                     + (char_val (char_at u 3) - char_val "0")).
    { unfold y, to4. cbn [forallb Nat.add]. rewrite Y0, Y1, Y2, Y3. reflexivity. }
    pose proof (to2_digits _ _ u 5 M0 M1 eq_refl eq_refl) as Emo.
    pose proof (to2_digits _ _ u 8 A0 A1 eq_refl eq_refl) as Ed.
    pose proof (to2_digits _ _ u 11 H0 H1 eq_refl eq_refl) as Eh.
    pose proof (to2_digits _ _ u 14 N0 N1 eq_refl eq_refl) as Em.
    pose proof (to2_digits _ _ u 17 Q0 Q1 eq_refl eq_refl) as Es.
    simpl Nat.add in *.
    fold mo in Emo. fold d in Ed. fold h in Eh. fold m in Em. fold sec in Es.
    clearbody y mo d h m sec. clear C.
    unfold is_char in *.
    peel u Y0 c0. peel u Y1 c1. peel u Y2 c2. peel u Y3 c3. peel u S4 c4.
    peel u M0 c5. peel u M1 c6. peel u S7 c7. peel u A0 c8. peel u A1 c9.
    peel u S10 c10. peel u H0 c11. peel u H1 c12. peel u S13 c13.
    peel u N0 c14. peel u N1 c15. peel u S16 c16. peel u Q0 c17. peel u Q1 c18.
    is_sep S4. is_sep S7. is_sep S10. is_sep S13. is_sep S16.
    destruct (isDigitN_inv _ Y0) as (y0 & By0 & -> & Vy0).
    destruct (isDigitN_inv _ Y1) as (y1 & By1 & -> & Vy1).
    destruct (isDigitN_inv _ Y2) as (y2 & By2 & -> & Vy2).
    destruct (isDigitN_inv _ Y3) as (y3 & By3 & -> & Vy3).
    destruct (isDigitN_inv _ M0) as (m0 & Bm0 & -> & Vm0).
    destruct (isDigitN_inv _ M1) as (m1 & Bm1 & -> & Vm1).
    destruct (isDigitN_inv _ A0) as (a0 & Ba0 & -> & Va0).
    destruct (isDigitN_inv _ A1) as (a1 & Ba1 & -> & Va1).
    destruct (isDigitN_inv _ H0) as (h0 & Bh0 & -> & Vh0).
    destruct (isDigitN_inv _ H1) as (h1 & Bh1 & -> & Vh1).
    destruct (isDigitN_inv _ N0) as (n0 & Bn0 & -> & Vn0).
    destruct (isDigitN_inv _ N1) as (n1 & Bn1 & -> & Vn1).
    destruct (isDigitN_inv _ Q0) as (q0 & Bq0 & -> & Vq0).
    destruct (isDigitN_inv _ Q1) as (q1 & Bq1 & -> & Vq1).
    rewrite Vy0, Vy1, Vy2, Vy3 in Ey. rewrite Vm0, Vm1 in Emo. rewrite Va0, Va1 in Ed.
    rewrite Vh0, Vh1 in Eh. rewrite Vn0, Vn1 in Em. rewrite Vq0, Vq1 in Es.
    subst y mo d h m sec.
    exists (y0 * 1000 + y1 * 100 + y2 * 10 + y3), (m0 * 10 + m1), (a0 * 10 + a1),
           (h0 * 10 + h1), (n0 * 10 + n1), (q0 * 10 + q1), u.
    split.
    { unfold long_text, short_text. rewrite four_digits, !two_digits by assumption.
      reflexivity. }
    assert (Hy : (0 <? y0 * 1000 + y1 * 100 + y2 * 10 + y3) = true)
      by (apply Z.ltb_lt; lia).
    rewrite Hy. repeat split; try lia; apply R2.
Qed.

Lemma strlen_cons c r :
  Ascii.eqb c NUL = false -> strlen (String c r) = S (strlen r).
Proof. intros E. simpl. rewrite E. reflexivity. Qed.

Lemma strlen_le_length s : (strlen s <= String.length s)%nat.
Proof.
  induction s as [| c r IH]; simpl; [lia |].
  destruct (Ascii.eqb c NUL); lia.
Qed.

Lemma skipBlanks_length s : (String.length (skipBlanks s) <= String.length s)%nat.
Proof.
  induction s as [| c r IH]; simpl; [lia |].
  destruct (_ || _); simpl; lia.
Qed.

Ltac digit_facts d Hd :=
  let F1 := fresh "F" in let F2 := fresh "F" in
  let F3 := fresh "F" in let F4 := fresh "F" in
  destruct (digit_char_facts d Hd) as (F1 & F2 & F3 & F4);
  rewrite ?F1, ?F2, ?F3, ?F4.

Lemma to2_two s i d0 d1 :
  0 <= d0 <= 9 -> 0 <= d1 <= 9 ->
  char_at s i = digit_char d0 -> char_at s (i + 1) = digit_char d1 ->
  to2 s i = d0 * 10 + d1.
Proof.
  intros B0 B1 E0 E1. unfold to2. rewrite E0, E1.
  destruct (digit_char_facts d0 B0) as (-> & -> & _).
  destruct (digit_char_facts d1 B1) as (-> & -> & _).
  reflexivity.
Qed.

Lemma to4_four s d0 d1 d2 d3 :
  0 <= d0 <= 9 -> 0 <= d1 <= 9 -> 0 <= d2 <= 9 -> 0 <= d3 <= 9 ->
  char_at s 0 = digit_char d0 -> char_at s 1 = digit_char d1 ->
  char_at s 2 = digit_char d2 -> char_at s 3 = digit_char d3 ->
  to4 s 0 = d0 * 1000 + d1 * 100 + d2 * 10 + d3.
Proof.
  intros B0 B1 B2 B3 E0 E1 E2 E3. unfold to4. cbn [forallb Nat.add].
  rewrite E0, E1, E2, E3.
  destruct (digit_char_facts d0 B0) as (-> & -> & _).
  destruct (digit_char_facts d1 B1) as (-> & -> & _).
  destruct (digit_char_facts d2 B2) as (-> & -> & _).
  destruct (digit_char_facts d3 B3) as (-> & -> & _).
  reflexivity.
Qed.

Lemma parse_complete s t :
  Z.of_nat (String.length s) <= INT_MAX ->
  short_form (skipBlanks s) t \/ long_form (skipBlanks s) t ->
  parseTime s = Some t.
Proof.
  intros L Hf.
  assert (L' : Z.of_nat (strlen (skipBlanks s)) <= INT_MAX).
  { pose proof (strlen_le_length (skipBlanks s)). pose proof (skipBlanks_length s). lia. }
  unfold parseTime. revert L' Hf. generalize (skipBlanks s) as u. clear s L.
  intros u L [(h & m & sec & rest & E & V & ->) | (y & mo & d & h & m & sec & rest & E & Vy & Vm & Vd & V & ->)].
  - destruct V as (Vh & Vmi & Vs).
    destruct (two_split h ltac:(lia)) as (h0 & h1 & Bh0 & Bh1 & ->).
    destruct (two_split m ltac:(lia)) as (m0 & m1 & Bm0 & Bm1 & ->).
    destruct (two_split sec ltac:(lia)) as (s0 & s1 & Bs0 & Bs1 & ->).
    unfold short_text in E. rewrite !two_digits in E by assumption. cbn [append] in E.
    rewrite (to2_two u 0 h0 h1), (to2_two u 3 m0 m1), (to2_two u 6 s0 s1)
      by (assumption || (subst u; reflexivity)).
    unfold is_char. subst u. rewrite ?char_at_S, ?char_at_0.
    destruct (digit_char_facts h0 Bh0) as (Dh0 & _ & Nh0 & _).
    destruct (digit_char_facts h1 Bh1) as (Dh1 & _ & Nh1 & _).
    destruct (digit_char_facts m0 Bm0) as (Dm0 & _ & Nm0 & _).
    destruct (digit_char_facts m1 Bm1) as (Dm1 & _ & Nm1 & _).
    destruct (digit_char_facts s0 Bs0) as (Ds0 & _ & Ns0 & _).
    destruct (digit_char_facts s1 Bs1) as (Ds1 & _ & Ns1 & _).
    rewrite Dh0, Dh1, Dm0, Dm1, Ds0, Ds1.
    rewrite !strlen_cons in L |- * by (assumption || reflexivity).
    rewrite int16_id by (unfold INT_MIN, INT_MAX in *; lia).
    replace (8 <=? _) with true by (symmetry; apply Z.leb_le; lia).
    cbn [andb Ascii.eqb Bool.eqb].
    cbv beta iota zeta delta
      [set_hour set_minute set_second set_hasDate set_isSet
       year month day hour minute second hasDate isSet ClockTime_init].
    rewrite hms_valid_in_range by (unfold hms_valid; lia). reflexivity.
  - destruct V as (Vh & Vmi & Vs).
    destruct (four_split y ltac:(lia)) as (y0 & y1 & y2 & y3 & By0 & By1 & By2 & By3 & Ey).
    destruct (two_split mo ltac:(lia)) as (o0 & o1 & Bo0 & Bo1 & Eo).
    destruct (two_split d ltac:(lia)) as (a0 & a1 & Ba0 & Ba1 & Ea).
    destruct (two_split h ltac:(lia)) as (h0 & h1 & Bh0 & Bh1 & Eh).
    destruct (two_split m ltac:(lia)) as (m0 & m1 & Bm0 & Bm1 & Em).
    destruct (two_split sec ltac:(lia)) as (s0 & s1 & Bs0 & Bs1 & Es).
    unfold long_text, short_text in E.
    rewrite Ey, Eo, Ea, Eh, Em, Es in E.
    rewrite four_digits, !two_digits in E by assumption. cbn [append] in E.
    rewrite (to4_four u y0 y1 y2 y3), (to2_two u 5 o0 o1), (to2_two u 8 a0 a1),
      (to2_two u 11 h0 h1), (to2_two u 14 m0 m1), (to2_two u 17 s0 s1)
      by (assumption || (subst u; reflexivity)).
    rewrite <- Ey, <- Eo, <- Ea, <- Eh, <- Em, <- Es.
    unfold is_char. subst u. rewrite ?char_at_S, ?char_at_0.
    destruct (digit_char_facts y0 By0) as (Dy0 & _ & Ny0 & _).
    destruct (digit_char_facts y1 By1) as (Dy1 & _ & Ny1 & _).
    destruct (digit_char_facts y2 By2) as (Dy2 & _ & Ny2 & Cy2).
    destruct (digit_char_facts y3 By3) as (Dy3 & _ & Ny3 & _).
    destruct (digit_char_facts o0 Bo0) as (_ & _ & No0 & _).
    destruct (digit_char_facts o1 Bo1) as (_ & _ & No1 & _).
    destruct (digit_char_facts a0 Ba0) as (_ & _ & Na0 & _).
    destruct (digit_char_facts a1 Ba1) as (_ & _ & Na1 & _).
    destruct (digit_char_facts h0 Bh0) as (_ & _ & Nh0 & _).
    destruct (digit_char_facts h1 Bh1) as (_ & _ & Nh1 & _).
    destruct (digit_char_facts m0 Bm0) as (_ & _ & Nm0 & _).
    destruct (digit_char_facts m1 Bm1) as (_ & _ & Nm1 & _).
    destruct (digit_char_facts s0 Bs0) as (_ & _ & Ns0 & _).
    destruct (digit_char_facts s1 Bs1) as (_ & _ & Ns1 & _).
    rewrite Dy0, Dy1, Cy2.
    rewrite !strlen_cons in L |- * by (assumption || reflexivity).
    rewrite int16_id by (unfold INT_MIN, INT_MAX in *; lia).
    replace (8 <=? _) with true by (symmetry; apply Z.leb_le; lia).
    replace (19 <=? _) with true by (symmetry; apply Z.leb_le; lia).
    cbn [andb negb Ascii.eqb Bool.eqb].
    cbv beta iota zeta delta
      [set_year set_month set_day set_hour set_minute set_second set_hasDate set_isSet
       year month day hour minute second hasDate isSet ClockTime_init].
    replace (y <? 1970) with false by (symmetry; apply Z.ltb_ge; lia).
    replace (mo <? 1) with false by (symmetry; apply Z.ltb_ge; lia).
    replace (12 <? mo) with false by (symmetry; apply Z.ltb_ge; lia).
    replace (d <? 1) with false by (symmetry; apply Z.ltb_ge; lia).
    replace (31 <? d) with false by (symmetry; apply Z.ltb_ge; lia).
    replace (0 <? y) with true by (symmetry; apply Z.ltb_lt; lia).
    cbn [orb].
    rewrite hms_valid_in_range by (unfold hms_valid; lia). reflexivity.
Qed.

(** C2, as stated: a line with text after [HH:MM:SS] is accepted, though it
    is neither the eight-character short form nor the long form. *)
Lemma trailing_text_is_accepted :
  parseTime "12:34:56x" = Some (mkClockTime 0 0 0 12 34 56 false true)
  /\ (forall t, ~ short_form_8 (skipBlanks "12:34:56x") t)
  /\ (forall t, ~ long_form (skipBlanks "12:34:56x") t).
Proof.
  split; [reflexivity | split].
  - intros t (h & m & sec & E & _).
    apply (f_equal String.length) in E. cbn in E. discriminate E.
  - intros t (y & mo & d & h & m & sec & rest & E & _).
    apply (f_equal String.length) in E. cbn in E. discriminate E.
Qed.

(** C2, amended: for a line that fits an [int] length, [parseTime]
    succeeds exactly when the text left after the leading blanks and tabs
    starts with [HH:MM:SS] (at least 8 characters; what follows is ignored)
    or with [YYYY-MM-DD HH:MM:SS] (at least 19 characters, separators at
    offsets 4, 7, 10, 13, 16), with hour 0-23, minute and second 0-59 and,
    in the long form, year 1970-9999, month 1-12, day 1-31; every other
    line is rejected.  The value produced has [isSet = true], and
    [hasDate = true] exactly for the long form. *)
Theorem parse_accepts_exactly_the_two_grammars s t :
  Z.of_nat (String.length s) <= INT_MAX ->
  (parseTime s = Some t <-> short_form (skipBlanks s) t \/ long_form (skipBlanks s) t)
  /\ (parseTime s = None <->
      forall t', ~ (short_form (skipBlanks s) t' \/ long_form (skipBlanks s) t'))
  /\ (parseTime s = Some t ->
      isSet t = true /\ (hasDate t = true <-> long_form (skipBlanks s) t)).
Proof.
  intros L.
  assert (Iff : forall t0, parseTime s = Some t0 <->
                           short_form (skipBlanks s) t0 \/ long_form (skipBlanks s) t0).
  { intros t0. split; [apply parse_sound | apply parse_complete; exact L]. }
  split; [apply Iff | split].
  - split.
    + intros Hn t' Hf. apply Iff in Hf. congruence.
    + intros Hn. destruct (parseTime s) as [t0 |] eqn:E; [| reflexivity].
      exfalso. apply (Hn t0). apply Iff. reflexivity.
  - intros Hp. apply Iff in Hp.
    destruct Hp as [(h & m & sec & rest & E & V & ->) | Hl].
    + split; [reflexivity |]. split; [discriminate |].
      intros (y & mo & d & h' & m' & sec' & rest' & _ & _ & _ & _ & _ & Et).
      discriminate Et.
    + split.
      * destruct Hl as (y & mo & d & h & m & sec & rest & _ & _ & _ & _ & _ & ->).
        reflexivity.
      * split; [intros _; exact Hl |].
        destruct Hl as (y & mo & d & h & m & sec & rest & _ & _ & _ & _ & _ & ->).
        reflexivity.
Qed.

Lemma parse_accepts_exactly_the_two_grammars_witness :
  (parseTime "  2024-02-28 23:59:59" = Some feb28_2024 <->
   short_form (skipBlanks "  2024-02-28 23:59:59") feb28_2024
   \/ long_form (skipBlanks "  2024-02-28 23:59:59") feb28_2024)
  /\ (parseTime "  2024-02-28 23:59:59" = None <->
      forall t', ~ (short_form (skipBlanks "  2024-02-28 23:59:59") t'
                    \/ long_form (skipBlanks "  2024-02-28 23:59:59") t'))
  /\ (parseTime "  2024-02-28 23:59:59" = Some feb28_2024 ->
      isSet feb28_2024 = true
      /\ (hasDate feb28_2024 = true <->
          long_form (skipBlanks "  2024-02-28 23:59:59") feb28_2024)).
Proof.
  apply (parse_accepts_exactly_the_two_grammars "  2024-02-28 23:59:59" feb28_2024).
  unfold INT_MAX. simpl. lia.
Defined.

(** ** Date invariants *)

Lemma month_cases m : 1 <= m <= 12 ->
  m = 1 \/ m = 2 \/ m = 3 \/ m = 4 \/ m = 5 \/ m = 6
  \/ m = 7 \/ m = 8 \/ m = 9 \/ m = 10 \/ m = 11 \/ m = 12.
Proof. lia. Qed.

Lemma daysInMonth_range y m : 1 <= m <= 12 ->
  exists dim, daysInMonth y m = Some dim /\ 28 <= dim <= 31.
Proof.
  intros Hm. apply month_cases in Hm.
  repeat match type of Hm with _ \/ _ => destruct Hm as [Hm | Hm] end; subst m;
    try (eexists; split; [reflexivity | lia]).
  unfold daysInMonth. simpl. destruct (isLeap y); eexists; split; try reflexivity; lia.
Qed.

Lemma daysInMonth_defined y m dim : daysInMonth y m = Some dim -> 1 <= m <= 12.
Proof.
  unfold daysInMonth, array_get.
  destruct (m =? 2) eqn:E2; [apply Z.eqb_eq in E2; lia |].
  destruct (m - 1 <? 0) eqn:E0; [discriminate |].
  apply Z.ltb_ge in E0. intros Hn.
  assert (Hl : (Z.to_nat (m - 1) < List.length days_table)%nat).
  { apply nth_error_Some. congruence. }
  simpl in Hl. lia.
Qed.

(** What one call of [tickOneSecond] does to the date fields. *)
Lemma tick_date_cases t t' :
  tickOneSecond t = Some t' ->
  hasDate t' = hasDate t /\ isSet t' = isSet t
  /\ ((year t' = year t /\ month t' = month t /\ day t' = day t)
      \/ (hasDate t = true /\ 1970 <= year t
          /\ exists dim, daysInMonth (year t) (month t) = Some dim
             /\ ((incr (day t) <= dim
                  /\ year t' = year t /\ month t' = month t /\ day t' = incr (day t))
                 \/ (dim < incr (day t) /\ incr (month t) <= 12
                     /\ year t' = year t /\ month t' = incr (month t) /\ day t' = 1)
                 \/ (dim < incr (day t) /\ 12 < incr (month t)
                     /\ year t' = incr (year t) /\ month t' = 1 /\ day t' = 1)))).
Proof.
  destruct t as [y mo d h mi s hd st]. unfold tickOneSecond.
  cbv beta iota zeta delta
    [set_year set_month set_day set_hour set_minute set_second set_hasDate set_isSet
     year month day hour minute second hasDate isSet].
  repeat match goal with
         | |- context [if ?b then _ else _] => destruct b eqn:?
         | |- context [match daysInMonth ?a ?b with _ => _ end] =>
             destruct (daysInMonth a b) as [dim |] eqn:?
         end;
    intros Ht; try discriminate Ht; injection Ht as <-; cbn;
    (split; [reflexivity | split; [reflexivity |]]);
    try (left; repeat split; reflexivity);
    right;
    match goal with
    | Hc : (_ && _) = true |- _ => apply andb_true_iff in Hc; destruct Hc as [Hd Hy]
    end;
    apply Z.leb_le in Hy;
    (split; [assumption | split; [assumption |]]);
    exists dim; (split; [reflexivity |]);
    repeat match goal with
           | Hc : (_ <? _) = true |- _ => apply Z.ltb_lt in Hc
           | Hc : (_ <? _) = false |- _ => apply Z.ltb_ge in Hc
           end;
    first [ left; repeat split; (lia || reflexivity)
          | right; left; repeat split; (lia || reflexivity)
          | right; right; repeat split; (lia || reflexivity) ].
Qed.

Lemma tick_defined t :
  (hasDate t = true -> 1 <= month t <= 12) -> exists t', tickOneSecond t = Some t'.
Proof.
  destruct t as [y mo d h mi s hd st]. cbn. intros Hm. unfold tickOneSecond.
  cbv beta iota zeta delta
    [set_year set_month set_day set_hour set_minute set_second set_hasDate set_isSet
     year month day hour minute second hasDate isSet].
  repeat match goal with
         | |- context [if ?b then _ else _] => destruct b eqn:?
         end;
    try (eexists; reflexivity);
    match goal with
    | Hc : (hd && _) = true |- _ => apply andb_true_iff in Hc; destruct Hc as [Hd _]
    end;
    destruct (daysInMonth_range y mo (Hm Hd)) as (dim & -> & _);
    repeat match goal with
           | |- context [if ?b then _ else _] => destruct b eqn:?
           end;
    eexists; reflexivity.
Qed.

Lemma tick_keeps_fields t t' :
  date_fields_ok t -> year t < INT_MAX -> tickOneSecond t = Some t' -> date_fields_ok t'.
Proof.
  intros (Hy & Hm & Hd) Hmax Ht. unfold INT_MAX in Hmax. unfold date_fields_ok.
  destruct (tick_date_cases t t' Ht) as (_ & _ & [(-> & -> & ->) | (_ & _ & dim & Ed & C)]).
  - repeat split; lia.
  - destruct (daysInMonth_range (year t) (month t) Hm) as (dim' & Ed' & Hdim).
    rewrite Ed in Ed'. injection Ed' as <-.
    rewrite (incr_small (day t)), (incr_small (month t)), (incr_small (year t)) in C
      by (unfold INT_MIN, INT_MAX; lia).
    destruct C as [(? & -> & -> & ->) | [(? & ? & -> & -> & ->) | (? & ? & -> & -> & ->)]];
      lia.
Qed.

Lemma tick_keeps_calendar t t' :
  calendar_valid t -> year t < INT_MAX -> tickOneSecond t = Some t' -> calendar_valid t'.
Proof.
  intros (Hy & Hm & dim0 & Ed0 & Hd) Hmax Ht. unfold INT_MAX in Hmax.
  destruct (daysInMonth_range (year t) (month t) Hm) as (dim' & Ed' & Hdim).
  rewrite Ed0 in Ed'. injection Ed' as <-.
  destruct (tick_date_cases t t' Ht) as (_ & _ & [(Ey & Em & Edy) | (_ & _ & dim & Ed & C)]).
  - unfold calendar_valid. rewrite Ey, Em, Edy. repeat split; try lia.
    exists dim0. split; [assumption | lia].
  - rewrite Ed0 in Ed. injection Ed as <-.
    rewrite (incr_small (day t)), (incr_small (month t)), (incr_small (year t)) in C
      by (unfold INT_MIN, INT_MAX; lia).
    unfold calendar_valid.
    destruct C as [(? & Ey & Em & Edy) | [(? & ? & Ey & Em & Edy) | (? & ? & Ey & Em & Edy)]];
      rewrite Ey, Em, Edy.
    + repeat split; try lia. exists dim0. split; [assumption | lia].
    + repeat split; try lia.
      destruct (daysInMonth_range (year t) (month t + 1) ltac:(lia)) as (dim1 & E1 & H1).
      exists dim1. split; [assumption | lia].
    + repeat split; try lia.
      destruct (daysInMonth_range (year t + 1) 1 ltac:(lia)) as (dim1 & E1 & H1).
      exists dim1. split; [assumption | lia].
Qed.

Lemma tick_keeps_hasDate t t' : tickOneSecond t = Some t' -> hasDate t' = hasDate t.
Proof. intros Ht. apply (tick_date_cases t t' Ht). Qed.

Lemma parse_date_fields s t :
  parseTime s = Some t -> hasDate t = true -> date_fields_ok t /\ year t <= 9999.
Proof.
  intros Hp Hd. apply parse_sound in Hp.
  destruct Hp as [(h & m & sec & rest & _ & _ & ->) | Hl]; [discriminate Hd |].
  destruct Hl as (y & mo & d & h & m & sec & rest & _ & Vy & Vm & Vd & _ & ->).
  unfold date_fields_ok. cbn. lia.
Qed.

(** C3, as stated: the parser accepts 31 February, which is no date of the
    calendar. *)
Lemma february_31_is_accepted :
  parseTime "2024-02-31 00:00:00" = Some (mkClockTime 2024 2 31 0 0 0 true true)
  /\ hasDate (mkClockTime 2024 2 31 0 0 0 true true) = true
  /\ ~ calendar_valid (mkClockTime 2024 2 31 0 0 0 true true).
Proof.
  split; [reflexivity | split; [reflexivity |]].
  intros (_ & _ & dim & Ed & Hd). cbn in Ed, Hd.
  injection Ed as <-. lia.
Qed.

(** C3, amended: a clock value with [hasDate = true] produced by a
    successful parse has year 1970 or later, month 1-12 and day 1-31 (the
    day is not checked against the length of the month); every
    [tickOneSecond] step keeps [hasDate] and these ranges, and keeps the
    date valid in the calendar when the parsed date was, as long as the
    16-bit year is below 32767. *)
Theorem parsed_date_ranges_are_kept s t0 t :
  parseTime s = Some t0 -> hasDate t0 = true -> ticks_from t0 t ->
  hasDate t = true /\ date_fields_ok t /\ (calendar_valid t0 -> calendar_valid t).
Proof.
  intros Hp Hd Ht. induction Ht as [| t t' Ht IH Hmax Hs].
  - split; [assumption | split; [| auto]]. apply (parse_date_fields s t0 Hp Hd).
  - destruct IH as (IHd & IHf & IHc). split; [| split].
    + rewrite (tick_keeps_hasDate t t' Hs). assumption.
    + apply (tick_keeps_fields t t'); assumption.
    + intros Hc. apply (tick_keeps_calendar t t'); auto.
Qed.

Lemma parsed_date_ranges_are_kept_witness :
  hasDate (mkClockTime 2024 2 29 0 0 0 true true) = true
  /\ date_fields_ok (mkClockTime 2024 2 29 0 0 0 true true)
  /\ (calendar_valid feb28_2024 -> calendar_valid (mkClockTime 2024 2 29 0 0 0 true true)).
Proof.
  apply (parsed_date_ranges_are_kept "2024-02-28 23:59:59" feb28_2024).
  - reflexivity.
  - reflexivity.
  - apply (ticks_more feb28_2024 feb28_2024).
    + apply ticks_none.
    + unfold INT_MAX. simpl. lia.
    + reflexivity.
Defined.

(** ** Reachable clock values and the table lookup *)

Lemma reachable_month t : reachable t -> hasDate t = true -> 1 <= month t <= 12.
Proof.
  induction 1 as [| t s parsed Hr IH Hp | t t' Hr IH Hset Ht]; intros Hd.
  - discriminate Hd.
  - destruct parsed as [y mo d h mi sc hd st]. cbn in Hd |- *.
    apply (parse_date_fields s _ Hp Hd).
  - destruct (tick_date_cases t t' Ht) as (Ehd & _ & C).
    rewrite Ehd in Hd. specialize (IH Hd).
    destruct C as [(_ & -> & _) | (_ & _ & dim & _ & C)]; [assumption |].
    rewrite (incr_small (month t)) in C by (unfold INT_MIN, INT_MAX; lia).
    destruct C as [(_ & _ & -> & _) | [(_ & ? & _ & -> & _) | (_ & _ & _ & -> & _)]]; lia.
Qed.

(** The hazard the invariant rules out: with month 0 the table is read at
    index -1. *)
Example month_zero_reads_outside_the_table :
  tickOneSecond (mkClockTime 2024 0 28 23 59 59 true true) = None.
Proof. reflexivity. Qed.

(** C10: in every reachable clock value with [hasDate = true] the month is
    in 1-12, so the read [d[m-1]] in [daysInMonth] is inside the table,
    and [tickOneSecond] is defined on every reachable value. *)
Theorem month_lookup_in_bounds t :
  reachable t ->
  (hasDate t = true ->
   1 <= month t <= 12
   /\ (month t = 2 \/ 0 <= month t - 1 < Z.of_nat (List.length days_table))
   /\ exists dim, daysInMonth (year t) (month t) = Some dim)
  /\ exists t', tickOneSecond t = Some t'.
Proof.
  intros Hr. split.
  - intros Hd. pose proof (reachable_month t Hr Hd) as Hm.
    split; [assumption | split; [simpl; lia |]].
    destruct (daysInMonth_range (year t) (month t) Hm) as (dim & E & _).
    exists dim. exact E.
  - apply tick_defined. apply reachable_month. exact Hr.
Qed.

Lemma month_lookup_in_bounds_witness :
  (hasDate feb28_2024 = true ->
   1 <= month feb28_2024 <= 12
   /\ (month feb28_2024 = 2
       \/ 0 <= month feb28_2024 - 1 < Z.of_nat (List.length days_table))
   /\ exists dim, daysInMonth (year feb28_2024) (month feb28_2024) = Some dim)
  /\ exists t', tickOneSecond feb28_2024 = Some t'.
Proof.
  apply (month_lookup_in_bounds feb28_2024).
  apply (reach_sync ClockTime_init "2024-02-28 23:59:59" feb28_2024).
  - apply reach_startup.
  - reflexivity.
Defined.

(** ** Scheduler: the catch-up loop *)

Section CatchUp.

Variables W H : Z.
Variable p : SegParams.
Variable lay : Layout.
Variable textWidth : string -> Z.

Lemma catchUp_done ms last c sh ops :
  u32 (ms - last) < 1000 ->
  catchUp W H p lay textWidth ms last c sh ops = Some (last, c, sh, ops).
Proof.
  intros Hlt. simp catchUp.
  destruct (Z_le_gt_dec 1000 (u32 (ms - last))) as [Hle | Hgt]; [lia | reflexivity].
Qed.

Lemma catchUp_step ms last c sh ops :
  1000 <= u32 (ms - last) ->
  catchUp W H p lay textWidth ms last c sh ops
  = match secondStep W H p lay textWidth c sh with
    | Some (c', sh', o) =>
        catchUp W H p lay textWidth ms (u32 (last + 1000)) c' sh' (ops ++ o)
    | None => None
    end.
Proof.
  intros Hge. simp catchUp.
  destruct (Z_le_gt_dec 1000 (u32 (ms - last))) as [Hle | Hgt]; [| lia].
  simpl. destruct (secondStep W H p lay textWidth c sh) as [[[c' sh'] o] |];
    reflexivity.
Qed.

Lemma secondStep_clock c sh :
  match secondStep W H p lay textWidth c sh with
  | Some r => tickOneSecond c = Some (fst (fst r))
  | None => tickOneSecond c = None
  end.
Proof.
  unfold secondStep. destruct (tickOneSecond c) as [c' |]; [| reflexivity].
  destruct (drawTimeDigits _ _ _ _ _ _) as [sh1 o1].
  destruct (drawSecondsBarFill _ _ _ _) as [sh2 o2].
  match goal with |- context [if ?b then _ else _] => destruct b end;
    [destruct (drawDateLine _ _ _ _ _) as [sh3 o3] |]; reflexivity.
Qed.

Lemma elapsed_seconds_step ms last :
  1000 <= u32 (ms - last) ->
  elapsed_seconds ms (u32 (last + 1000)) = elapsed_seconds ms last - 1.
Proof.
  intros Hge. unfold elapsed_seconds. rewrite u32_elapsed_step by assumption.
  replace (u32 (ms - last) - 1000) with (u32 (ms - last) + (-1) * 1000) by lia.
  rewrite Z.div_add by lia. lia.
Qed.

Lemma catchUp_runs ms n : forall last c sh ops,
  0 <= last < 2 ^ 32 ->
  Z.of_nat n = elapsed_seconds ms last ->
  isSet c = true -> reachable c ->
  exists c' sh' o,
    seconds_run W H p lay textWidth n c sh = Some (c', sh', o)
    /\ catchUp W H p lay textWidth ms last c sh ops
       = Some (u32 (last + Z.of_nat n * 1000), c', sh', ops ++ o)
    /\ isSet c' = true /\ reachable c'.
Proof.
  induction n as [| n IH]; intros last c sh ops Hl Hn Hset Hr.
  - exists c, sh, []. split; [reflexivity |].
    unfold elapsed_seconds in Hn. pose proof (u32_range (ms - last)) as Hu.
    assert (Hlt : u32 (ms - last) < 1000).
    { destruct (Z_lt_ge_dec (u32 (ms - last)) 1000) as [Hlt | Hge]; [assumption |].
      assert (1 <= u32 (ms - last) / 1000) by (apply Z.div_le_lower_bound; lia).
      lia. }
    rewrite catchUp_done by assumption. rewrite app_nil_r.
    rewrite Z.add_0_r, u32_id by (change (2 ^ 32) with 4294967296 in Hl; lia).
    auto.
  - assert (Hge : 1000 <= u32 (ms - last)).
    { unfold elapsed_seconds in Hn. pose proof (u32_range (ms - last)) as Hu.
      destruct (Z_lt_ge_dec (u32 (ms - last)) 1000) as [Hlt | Hge]; [| lia].
      rewrite Z.div_small in Hn by lia. lia. }
    rewrite catchUp_step by assumption. simpl seconds_run.
    pose proof (secondStep_clock c sh) as Hs.
    destruct (secondStep W H p lay textWidth c sh) as [[[c1 sh1] o1] |].
    + destruct (tick_date_cases c c1 Hs) as (_ & Eset & _).
      destruct (IH (u32 (last + 1000)) c1 sh1 (ops ++ o1)) as (c' & sh' & o & R & C & S' & R').
      * pose proof (u32_range (last + 1000)).
        change (2 ^ 32) with 4294967296. lia.
      * rewrite elapsed_seconds_step by assumption. lia.
      * congruence.
      * apply (reach_tick c c1); assumption.
      * exists c', sh', (o1 ++ o). rewrite R, C, app_assoc.
        repeat split; try assumption.
        do 4 f_equal. unfold u32. rewrite Zplus_mod_idemp_l. f_equal. lia.
    + exfalso. destruct (tick_defined c (reachable_month c Hr)) as (c1 & Hc1). congruence.
Qed.

Lemma seconds_run_ticks n : forall c sh c' sh' o,
  seconds_run W H p lay textWidth n c sh = Some (c', sh', o) ->
  tick_times (N.of_nat n) c = Some c'.
Proof.
  induction n as [| n IH]; intros c sh c' sh' o Hrun.
  - simpl in Hrun. injection Hrun as <- _ _. reflexivity.
  - simpl seconds_run in Hrun. pose proof (secondStep_clock c sh) as Hs.
    destruct (secondStep W H p lay textWidth c sh) as [[[c1 sh1] o1] |];
      [| discriminate Hrun].
    destruct (seconds_run W H p lay textWidth n c1 sh1) as [[[c2 sh2] o2] |] eqn:R;
      [| discriminate Hrun].
    injection Hrun as <- _ _. apply IH in R.
    unfold tick_times in *. rewrite Nat2N.inj_succ, N.iter_succ_r, Hs. exact R.
Qed.

(** The clock phase is defined on every reachable clock, and the clock it
      leaves is reachable. *)
Lemma clockPhase_reachable ms st :
  reachable (ct st) -> 0 <= lastTickMs st < 2 ^ 32 ->
  exists st', clockPhase W H p lay textWidth ms st = Some st' /\ reachable (ct st').
Proof.
  intros Hr Hl. unfold clockPhase. destruct (isSet (ct st)) eqn:Hset.
  - pose proof (u32_range (ms - lastTickMs st)) as Hu.
    destruct (catchUp_runs ms (Z.to_nat (elapsed_seconds ms (lastTickMs st)))
                (lastTickMs st) (ct st) (shadow st) [] Hl) as (c' & sh' & o & _ & C & _ & R');
      try assumption.
    { rewrite Z2Nat.id; [reflexivity |]. unfold elapsed_seconds. apply Z.div_pos; lia. }
    rewrite C. eexists. split; [reflexivity | exact R'].
  - exists st. split; [reflexivity | exact Hr].
Qed.

End CatchUp.

(** The two seconds of the example end on 2024-02-29 00:00:01. *)
Example catch_up_two_seconds :
  option_map ct
    (clockPhase panel_W panel_H panel_params panel_layout panel_textWidth 2500 synced_sketch)
  = Some (mkClockTime 2024 2 29 0 0 1 true true).
Proof. vm_compute. reflexivity. Qed.

(** ** Scheduler: the serial line handler *)

(** The values the handler gives the shared clock are reachable ones. *)
Lemma serialPhase_reachable W now rx st :
  reachable (ct st) -> reachable (ct (fst (serialPhase W now rx st))).
Proof.
  intros Hr. unfold serialPhase. destruct rx as [| b rx']; [exact Hr |].
  destruct (readLine (b :: rx') "") as [str_in rest].
  destruct (0 <? Z.of_nat (String.length str_in)); [| exact Hr].
  destruct (parseTime str_in) as [parsed |] eqn:Hp; [| exact Hr].
  simpl. apply (reach_sync (ct st) str_in parsed); assumption.
Qed.

(** C4, as stated: an empty line is a line on which the parser fails, but
    the handler is silent about it: no rejection notice is sent. *)
Lemma empty_line_gets_no_notice :
  readLine [LF] "" = ("", [])
  /\ parseTime "" = None
  /\ serialPhase panel_W 0 [LF] synced_sketch = (synced_sketch, [])
  /\ bt (fst (serialPhase panel_W 0 [LF] synced_sketch)) = bt synced_sketch.
Proof. repeat split. Qed.

(** C4, amended: for every non-empty line on which [parseTime] fails, the
    handler leaves the shared clock, the shadow state, the tick reference
    and the repaint flag as they were, sets the status to the invalid-format
    text, redraws the title strip and sends [INVALID: ] followed by the line
    and a line end; no acknowledgment is sent.  The outcome is a function of
    the line and of the state before. *)
Theorem rejected_line_leaves_clock_untouched
    (W now : Z) (rx : list ascii) (st : Sketch) (line : string) (rest : list ascii) :
  rx <> [] ->
  readLine rx "" = (line, rest) ->
  line <> "" ->
  parseTime line = None ->
  serialPhase W now rx st
  = (mkSketch (ct st) (shadow st) (lastTickMs st) (repaintAll st)
              "Invalid time format!"
              (tft st ++ drawTitleStrip W "Invalid time format!")
              (bt st ++ "INVALID: " ++ c_str line ++ CRLF)%string,
     rest).
Proof.
  intros Hrx Hread Hline Hparse. unfold serialPhase.
  destruct rx as [| b rx']; [contradiction |].
  rewrite Hread.
  destruct line as [| c l]; [contradiction |].
  cbn [String.length]. rewrite Hparse.
  replace (0 <? Z.of_nat (S (String.length l))) with true
    by (symmetry; apply Z.ltb_lt; lia).
  reflexivity.
Qed.

Lemma rejected_line_leaves_clock_untouched_witness :
  serialPhase panel_W 5000
    (list_ascii_of_string "2024-13-01 10:00:00" ++ [LF]) synced_sketch
  = (mkSketch (ct synced_sketch) (shadow synced_sketch) (lastTickMs synced_sketch)
              (repaintAll synced_sketch) "Invalid time format!"
              (tft synced_sketch ++ drawTitleStrip panel_W "Invalid time format!")
              (bt synced_sketch ++ "INVALID: " ++ c_str "2024-13-01 10:00:00" ++ CRLF)%string,
     []).
Proof.
  apply (rejected_line_leaves_clock_untouched panel_W 5000
           (list_ascii_of_string "2024-13-01 10:00:00" ++ [LF]) synced_sketch
           "2024-13-01 10:00:00" []).
  - discriminate.
  - reflexivity.
  - discriminate.
  - reflexivity.
Defined.

(** ** Renderer: diffing against the shadow state *)

Lemma nul_free_c_str s : nul_free s -> c_str s = s.
Proof.
  induction s as [| c r IH]; simpl; [reflexivity |].
  intros [Hc Hr]. rewrite Hc, IH by assumption. reflexivity.
Qed.

Lemma nul_free_app a b : nul_free a -> nul_free b -> nul_free (a ++ b)%string.
Proof.
  induction a as [| c r IH]; simpl; [auto |].
  intros [Hc Hr] Hb. split; [assumption | apply IH; assumption].
Qed.

Lemma nul_free_substring s : forall n m, nul_free s -> nul_free (substring n m s).
Proof.
  induction s as [| c r IH]; intros n m Hs.
  - destruct n, m; exact I.
  - destruct Hs as [Hc Hr]. destruct n as [| n]; simpl.
    + destruct m as [| m]; [exact I |]. split; [assumption | apply IH; assumption].
    + apply IH. assumption.
Qed.

Lemma nul_free_repeat c n : Ascii.eqb c NUL = false -> nul_free (repeat_char c n).
Proof. intros Hc. induction n as [| n IH]; simpl; auto. Qed.

Lemma nul_free_dec_digits n : nul_free (dec_digits n).
Proof.
  unfold dec_digits. generalize (N.to_uint (Z.to_N n)) as d. intros d.
  assert (Hd : forall u, nul_free (NilEmpty.string_of_uint u)).
  { induction u; simpl; auto. }
  destruct d; simpl; auto.
Qed.

Lemma nul_free_fmt_d0 w v : nul_free (fmt_d0 w v).
Proof.
  unfold fmt_d0. apply nul_free_app; [destruct (v <? 0); simpl; auto |].
  apply nul_free_app; [apply nul_free_repeat; reflexivity | apply nul_free_dec_digits].
Qed.

Lemma substring_all s : forall n, (String.length s <= n)%nat -> substring 0 n s = s.
Proof.
  induction s as [| c r IH]; intros n Hn.
  - destruct n; reflexivity.
  - destruct n as [| n]; simpl in *; [lia |]. rewrite IH by lia. reflexivity.
Qed.

Lemma substring_length_le s : forall n, (String.length (substring 0 n s) <= n)%nat.
Proof.
  induction s as [| c r IH]; intros n.
  - destruct n; simpl; lia.
  - destruct n as [| n]; simpl; [lia |]. specialize (IH n). lia.
Qed.

(** Copying a formatted text into a buffer that has room for it stores
    the text itself. *)
Lemma strncpy_snprintf size n text :
  nul_free text -> (size - 1 <= n)%nat -> strncpy (snprintf size text) n = snprintf size text.
Proof.
  intros Hf Hn. unfold strncpy, snprintf.
  rewrite nul_free_c_str by (apply nul_free_substring; assumption).
  apply substring_all. pose proof (substring_length_le text (size - 1)). lia.
Qed.

Lemma nul_free_timeText c :
  nul_free (fmt_d0 2 (hour c) ++ ":" ++ fmt_d0 2 (minute c) ++ ":" ++ fmt_d0 2 (second c))%string.
Proof.
  repeat (apply nul_free_app; [first [apply nul_free_fmt_d0 | solve [simpl; auto]] |]).
  apply nul_free_fmt_d0.
Qed.

Lemma nul_free_dateText a b c :
  nul_free (fmt_d0 2 a ++ "-" ++ fmt_d0 2 b ++ "-" ++ fmt_d0 4 c)%string.
Proof.
  repeat (apply nul_free_app; [first [apply nul_free_fmt_d0 | solve [simpl; auto]] |]).
  apply nul_free_fmt_d0.
Qed.

Section Idempotence.

Variables W H : Z.
Variable p : SegParams.
Variable lay : Layout.
Variable textWidth : string -> Z.

Lemma drawTimeDigit_same cur acc i :
  drawTimeDigit W H p lay cur cur acc i = acc.
Proof.
  unfold drawTimeDigit. destruct acc as [masks ops].
  destruct (Nat.eqb i 2 || Nat.eqb i 5); [reflexivity |].
  rewrite Ascii.eqb_refl. reflexivity.
Qed.

Lemma drawTimeDigits_fold_same cur l : forall acc,
  fold_left (drawTimeDigit W H p lay cur cur) l acc = acc.
Proof.
  induction l as [| i l IH]; intros acc; simpl; [reflexivity |].
  rewrite drawTimeDigit_same. apply IH.
Qed.

Lemma strncpy_timeText c : strncpy (timeText c) 9 = timeText c.
Proof.
  unfold timeText. apply strncpy_snprintf; [apply nul_free_timeText | simpl; lia].
Qed.

Lemma strncpy_dateText c : strncpy (dateText c) 16 = dateText c.
Proof.
  unfold dateText. apply strncpy_snprintf; [apply nul_free_dateText | simpl; lia].
Qed.

(** The digits are left alone when the shadow text is the text to show. *)
Lemma drawTimeDigits_settled c sh :
  prevTimeStr sh = timeText c -> drawTimeDigits W H p lay c sh = (sh, []).
Proof.
  intros E. unfold drawTimeDigits. rewrite E, drawTimeDigits_fold_same.
  rewrite strncpy_timeText, <- E. destruct sh; reflexivity.
Qed.

Lemma drawTimeDigits_stores c sh :
  let sh' := fst (drawTimeDigits W H p lay c sh) in
  prevTimeStr sh' = timeText c /\ prevDateStr sh' = prevDateStr sh
  /\ prevFillW sh' = prevFillW sh /\ barW sh' = barW sh.
Proof.
  unfold drawTimeDigits.
  destruct (fold_left _ (seq 0 8) (prevDigitMask sh, [])) as [masks ops].
  cbn. rewrite strncpy_timeText. auto.
Qed.

(** The date line is left alone, apart from the two text attributes the
    routine always sets, when the shadow text is the text to show. *)
Lemma drawDateLine_settled c sh :
  strcmp_ne (dateText c) (prevDateStr sh) = false ->
  drawDateLine W H textWidth c sh = (sh, [SetTextSize 2; SetTextColor COL_TEXT COL_BG]).
Proof. intros E. unfold drawDateLine. rewrite E. reflexivity. Qed.

Lemma drawDateLine_stores c sh :
  let sh' := fst (drawDateLine W H textWidth c sh) in
  strcmp_ne (dateText c) (prevDateStr sh') = false
  /\ prevTimeStr sh' = prevTimeStr sh /\ prevDigitMask sh' = prevDigitMask sh
  /\ prevFillW sh' = prevFillW sh /\ barW sh' = barW sh.
Proof.
  unfold drawDateLine. destruct (strcmp_ne (dateText c) (prevDateStr sh)) eqn:E; cbn.
  - rewrite strncpy_dateText. unfold strcmp_ne. rewrite String.eqb_refl. auto.
  - auto.
Qed.

(** The bar is left alone when the shadow width is the width to show. *)
Lemma drawSecondsBarFill_settled sec sh :
  prevFillW sh = fillWidth (barW sh) sec -> drawSecondsBarFill W H sec sh = (sh, []).
Proof. intros E. unfold drawSecondsBarFill. rewrite E, Z.eqb_refl. reflexivity. Qed.

Lemma drawSecondsBarFill_stores sec sh :
  let sh' := fst (drawSecondsBarFill W H sec sh) in
  prevFillW sh' = fillWidth (barW sh') sec
  /\ prevTimeStr sh' = prevTimeStr sh /\ prevDateStr sh' = prevDateStr sh
  /\ prevDigitMask sh' = prevDigitMask sh /\ barW sh' = barW sh.
Proof.
  unfold drawSecondsBarFill.
  destruct (fillWidth (barW sh) sec =? prevFillW sh) eqn:E.
  - apply Z.eqb_eq in E. cbn. auto.
  - destruct (prevFillW sh <? 0); [| destruct (prevFillW sh <? fillWidth (barW sh) sec)];
      cbn; auto.
Qed.

(** C6: after a clock value has been rendered, rendering the same value
    again with the shadow state the first pass left emits no command that
    writes pixels, whether the three routines are called one by one or in
    a row, and leaves the shadow state as it is.  The only commands sent
    are the two text attributes that [drawDateLine] sets before it
    compares. *)
Theorem rendering_twice_draws_nothing (c : ClockTime) (sh : Shadow) :
  drawTimeDigits W H p lay c (fst (drawTimeDigits W H p lay c sh))
  = (fst (drawTimeDigits W H p lay c sh), [])
  /\ drawSecondsBarFill W H (second c) (fst (drawSecondsBarFill W H (second c) sh))
     = (fst (drawSecondsBarFill W H (second c) sh), [])
  /\ fst (drawDateLine W H textWidth c (fst (drawDateLine W H textWidth c sh)))
     = fst (drawDateLine W H textWidth c sh)
  /\ filter paints
       (snd (drawDateLine W H textWidth c (fst (drawDateLine W H textWidth c sh)))) = []
  /\ fst (renderClock W H p lay textWidth c (fst (renderClock W H p lay textWidth c sh)))
     = fst (renderClock W H p lay textWidth c sh)
  /\ filter paints
       (snd (renderClock W H p lay textWidth c
               (fst (renderClock W H p lay textWidth c sh)))) = [].
Proof.
  split; [| split; [| split; [| split]]].
  - apply drawTimeDigits_settled. apply drawTimeDigits_stores.
  - apply drawSecondsBarFill_settled. apply drawSecondsBarFill_stores.
  - rewrite drawDateLine_settled by apply drawDateLine_stores. reflexivity.
  - rewrite drawDateLine_settled by apply drawDateLine_stores. reflexivity.
  - assert (E : renderClock W H p lay textWidth c
                  (fst (renderClock W H p lay textWidth c sh))
                = (fst (renderClock W H p lay textWidth c sh),
                   [SetTextSize 2; SetTextColor COL_TEXT COL_BG])).
    { unfold renderClock at 2 3.
      pose proof (drawTimeDigits_stores c sh) as S1.
      destruct (drawTimeDigits W H p lay c sh) as [sh1 o1].
      pose proof (drawDateLine_stores c sh1) as S2.
      destruct (drawDateLine W H textWidth c sh1) as [sh2 o2].
      pose proof (drawSecondsBarFill_stores (second c) sh2) as S3.
      destruct (drawSecondsBarFill W H (second c) sh2) as [sh3 o3].
      cbn [fst] in *.
      destruct S1 as (T1 & _), S2 as (D2 & T2 & _), S3 as (F3 & T3 & D3 & _).
      unfold renderClock.
      rewrite drawTimeDigits_settled by congruence.
      rewrite drawDateLine_settled by congruence.
      rewrite drawSecondsBarFill_settled by assumption.
      reflexivity. }
    rewrite E. split; reflexivity.
Qed.

(** After a forced full repaint the shadow state describes the clock
    value that was painted: rendering it again writes no pixel. *)
Lemma forceRedrawAll_settles (bg : Z) (c : ClockTime) (sh : Shadow) :
  renderClock W H p lay textWidth c (fst (forceRedrawAll W H p lay textWidth bg c sh))
  = (fst (forceRedrawAll W H p lay textWidth bg c sh),
     [SetTextSize 2; SetTextColor COL_TEXT COL_BG]).
Proof.
  unfold forceRedrawAll.
  set (sh0 := mkShadow "" "" [0; 0; 0; 0; 0; 0] (-1) (barY sh) (barW sh)).
  pose proof (drawTimeDigits_stores c sh0) as S1.
  destruct (drawTimeDigits W H p lay c sh0) as [sh1 o1].
  pose proof (drawDateLine_stores c sh1) as S2.
  destruct (drawDateLine W H textWidth c sh1) as [sh2 o2].
  unfold drawSecondsBarFrameOnce.
  set (sh3 := mkShadow (prevTimeStr sh2) (prevDateStr sh2) (prevDigitMask sh2)
                       (prevFillW sh2) (int16 (u16 (H - 26))) (int16 (u16 (W - 20)))).
  pose proof (drawSecondsBarFill_stores (second c) sh3) as S3.
  destruct (drawSecondsBarFill W H (second c) sh3) as [sh4 o4].
  cbn [fst] in *.
  destruct S1 as (T1 & _), S2 as (D2 & T2 & _), S3 as (F4 & T4 & D4 & _).
  subst sh3. cbn [prevTimeStr prevDateStr] in T4, D4.
  unfold renderClock.
  rewrite drawTimeDigits_settled by congruence.
  rewrite drawDateLine_settled by congruence.
  rewrite drawSecondsBarFill_settled by assumption.
  reflexivity.
Qed.

End Idempotence.

(** ** Seconds bar *)

Lemma fillWidth_value bar_w sec :
  0 <= bar_w <= INT_MAX -> 0 <= sec <= 59 -> fillWidth bar_w sec = sec * bar_w / 59.
Proof.
  unfold INT_MAX. intros Hb Hs. unfold fillWidth, arduino_map.
  rewrite u8_id by lia. rewrite !Z.sub_0_r, Z.add_0_r.
  assert (Hp : 0 <= sec * bar_w <= 59 * 32767) by nia.
  rewrite (int32_id sec), (int32_id bar_w), (int32_id 59), (int32_id (sec * bar_w)) by lia.
  rewrite Z.quot_div_nonneg by lia.
  assert (Hq : 0 <= sec * bar_w / 59 <= 32767).
  { split; [apply Z.div_pos; lia | apply Z.div_le_upper_bound; lia]. }
  rewrite int32_id by lia. apply int16_id. unfold INT_MIN, INT_MAX. lia.
Qed.

Lemma tick_second t t' :
  tickOneSecond t = Some t' ->
  second t' = if 60 <=? incr (second t) then 0 else incr (second t).
Proof.
  destruct t as [y mo d h mi s hd st]. unfold tickOneSecond.
  cbv beta iota zeta delta
    [set_year set_month set_day set_hour set_minute set_second set_hasDate set_isSet
     year month day hour minute second hasDate isSet].
  destruct (60 <=? incr s) eqn:E60;
    repeat match goal with
           | |- context [if ?b then _ else _] => destruct b eqn:?
           | |- context [match daysInMonth ?a ?b with _ => _ end] =>
               destruct (daysInMonth a b) as [dim |] eqn:?
           end;
    intros Ht; try discriminate Ht; injection Ht as <-; reflexivity.
Qed.

(** C7: for a bar width that an [int] can hold, the width computed for
    the seconds 0 to 59 starts at 0, ends at the bar width and never
    decreases as the second grows; from one tick to the next the width
    gets smaller only when the second has gone from 59 back to 0. *)
Theorem seconds_bar_width_monotone (bar_w : Z) :
  0 <= bar_w <= INT_MAX ->
  (forall s1 s2, 0 <= s1 <= s2 -> s2 <= 59 -> fillWidth bar_w s1 <= fillWidth bar_w s2)
  /\ fillWidth bar_w 0 = 0
  /\ fillWidth bar_w 59 = bar_w
  /\ (forall t t',
        0 <= second t <= 59 -> tickOneSecond t = Some t' ->
        fillWidth bar_w (second t') < fillWidth bar_w (second t) ->
        second t = 59 /\ second t' = 0).
Proof.
  intros Hb.
  assert (Mono : forall s1 s2, 0 <= s1 <= s2 -> s2 <= 59 ->
                               fillWidth bar_w s1 <= fillWidth bar_w s2).
  { intros s1 s2 H1 H2. rewrite !fillWidth_value by lia.
    apply Z.div_le_mono; [lia | nia]. }
  split; [exact Mono | split; [| split]].
  - rewrite fillWidth_value by lia. reflexivity.
  - rewrite fillWidth_value by lia. rewrite Z.mul_comm. apply Z.div_mul. lia.
  - intros t t' Hs Ht Hlt. rewrite (tick_second t t' Ht) in *.
    rewrite incr_small in * by (unfold INT_MIN, INT_MAX; lia).
    destruct (60 <=? second t + 1) eqn:E.
    + apply Z.leb_le in E. split; [lia | reflexivity].
    + apply Z.leb_gt in E. exfalso.
      pose proof (Mono (second t) (second t + 1) ltac:(lia) ltac:(lia)). lia.
Qed.

Lemma seconds_bar_width_monotone_witness :
  (forall s1 s2, 0 <= s1 <= s2 -> s2 <= 59 -> fillWidth 300 s1 <= fillWidth 300 s2)
  /\ fillWidth 300 0 = 0
  /\ fillWidth 300 59 = 300
  /\ (forall t t',
        0 <= second t <= 59 -> tickOneSecond t = Some t' ->
        fillWidth 300 (second t') < fillWidth 300 (second t) ->
        second t = 59 /\ second t' = 0).
Proof.
  apply (seconds_bar_width_monotone 300). unfold INT_MAX. lia.
Defined.

(** On the 320-pixel panel the bar is 300 wide: second 30 fills 152 pixels,
    and the rollover from 59 to 0 takes the width from 300 back to 0. *)
Example seconds_bar_on_panel :
  barW (fst (drawSecondsBarFrameOnce panel_W panel_H Shadow_init)) = 300
  /\ fillWidth 300 30 = 152 /\ fillWidth 300 59 = 300 /\ fillWidth 300 0 = 0.
Proof. repeat split. Qed.

(** ** Auto-size *)

Ltac unfold_mins :=
  unfold shrunk, at_minimum, slack, MIN_SP, MIN_COLON, MIN_LEN, MIN_VLEN, MIN_THICK in *;
  cbn [E_SP COLON_W SEG_LEN SEG_VLEN SEG_THICK SEG_HGAP SegParams_init
       set_E_SP set_COLON_W set_SEG_LEN set_SEG_VLEN set_SEG_THICK] in *.

Lemma autoSizeStep_shrinks W p p' :
  shrunk p -> autoSizeStep W p = Some p' ->
  rowFits W p = false /\ shrinks_by_priority p p' /\ shrunk p' /\ slack p' = slack p - 1.
Proof.
  intros Hs. unfold autoSizeStep, shrinks_by_priority.
  destruct (rowFits W p); [discriminate |].
  destruct p as [th len hgap vlen cw sp]. unfold_mins.
  repeat match goal with
         | |- context [if ?a <? ?b then _ else _] =>
             let E := fresh "E" in
             destruct (Z.ltb_spec a b) as [E | E];
             [rewrite decr_small by (unfold INT_MIN, INT_MAX; lia) |]
         end;
    intros Hp; try discriminate Hp; injection Hp as <-; cbn;
    (split; [reflexivity | split; [| split; lia]]).
  - left. split; [lia | reflexivity].
  - right. left. repeat split; (lia || reflexivity).
  - right. right. left. repeat split; (lia || reflexivity).
  - right. right. right. left. repeat split; (lia || reflexivity).
  - right. right. right. right. repeat split; (lia || reflexivity).
Qed.

Lemma autoSizeStep_stops W p :
  shrunk p -> autoSizeStep W p = None -> rowFits W p = true \/ at_minimum p.
Proof.
  intros Hs. unfold autoSizeStep.
  destruct (rowFits W p); [auto |].
  destruct p as [th len hgap vlen cw sp]. unfold_mins.
  repeat match goal with
         | |- context [if ?a <? ?b then _ else _] =>
             let E := fresh "E" in destruct (Z.ltb_spec a b) as [E | E]
         end;
    intros Hp; try discriminate Hp.
  right. lia.
Qed.

Lemma autoSizeLoop_outcome W n : forall p,
  shrunk p ->
  shrunk (autoSizeLoop n W p)
  /\ (rowFits W (autoSizeLoop n W p) = true \/ at_minimum (autoSizeLoop n W p)
      \/ slack (autoSizeLoop n W p) = slack p - Z.of_nat n)
  /\ slack p - Z.of_nat (autoSizePasses n W p) = slack (autoSizeLoop n W p).
Proof.
  induction n as [| n IH]; intros p Hs.
  - simpl. split; [assumption | split; [right; right |]]; lia.
  - cbn [autoSizeLoop autoSizePasses].
    destruct (autoSizeStep W p) as [p' |] eqn:E.
    + destruct (autoSizeStep_shrinks W p p' Hs E) as (_ & _ & Hs' & Hsl).
      destruct (IH p' Hs') as (R1 & R2 & R3).
      split; [assumption | split].
      * destruct R2 as [R2 | [R2 | R2]]; auto. right; right. lia.
      * lia.
    + split; [assumption | split; [| simpl; lia]].
      destruct (autoSizeStep_stops W p Hs E); auto.
Qed.

Lemma shrunk_init : shrunk SegParams_init.
Proof. unfold_mins. lia. Qed.

Lemma shrunk_row_width p : shrunk p -> 0 <= totalRowWidth p <= 282.
Proof.
  intros Hs. destruct p as [th len hgap vlen cw sp]. unfold_mins.
  unfold totalRowWidth. cbn [SEG_LEN SEG_HGAP COLON_W E_SP].
  rewrite (int16_id (len + 2 * hgap)) by (unfold INT_MIN, INT_MAX; lia).
  rewrite int16_id by (unfold INT_MIN, INT_MAX; lia). lia.
Qed.

(** C9, on every panel at least as wide as the two margins (the width is a
    [uint16_t] read from the panel driver): every pass of the shrinking loop
    takes one pixel off one parameter, in priority order and not below its
    minimum; from the initial geometry at most 31 of the 200 passes shrink
    anything, and the loop ends with a row that fits between the margins or
    with every parameter at its minimum. *)
Theorem autoSize_shrinks_in_order_until_fit (W : Z) :
  2 * MARGIN <= W < 2 ^ 16 ->
  (forall p p', shrunk p -> autoSizeStep W p = Some p' ->
                shrinks_by_priority p p' /\ shrunk p')
  /\ (autoSizePasses 200 W SegParams_init <= 31)%nat
  /\ shrunk (autoSizeToFit W SegParams_init)
  /\ (totalRowWidth (autoSizeToFit W SegParams_init) <= W - 2 * MARGIN
      \/ at_minimum (autoSizeToFit W SegParams_init)).
Proof.
  intros HW. split.
  { intros p p' Hs E. destruct (autoSizeStep_shrinks W p p' Hs E) as (_ & A & B & _). auto. }
  unfold autoSizeToFit.
  destruct (autoSizeLoop_outcome W 200 SegParams_init shrunk_init) as (R1 & R2 & R3).
  revert R1 R2 R3.
  generalize (autoSizeLoop 200 W SegParams_init) as r.
  generalize (autoSizePasses 200 W SegParams_init) as k.
  intros k r R1 R2 R3.
  assert (E31 : slack SegParams_init = 31) by reflexivity.
  rewrite E31 in R2, R3.
  assert (Hsl : 0 <= slack r).
  { clear R2 R3. destruct r. unfold_mins. lia. }
  split; [lia | split; [assumption |]].
  destruct R2 as [R2 | [R2 | R2]]; [left | right; assumption | lia].
  unfold rowFits in R2. apply Z.leb_le in R2.
  pose proof (shrunk_row_width _ R1) as Hw.
  unfold MARGIN in *. change (2 ^ 16) with 65536 in HW.
  rewrite !u16_id in R2 by lia. lia.
Qed.

Lemma autoSize_shrinks_in_order_until_fit_witness :
  (forall p p', shrunk p -> autoSizeStep panel_W p = Some p' ->
                shrinks_by_priority p p' /\ shrunk p')
  /\ (autoSizePasses 200 panel_W SegParams_init <= 31)%nat
  /\ shrunk (autoSizeToFit panel_W SegParams_init)
  /\ (totalRowWidth (autoSizeToFit panel_W SegParams_init) <= panel_W - 2 * MARGIN
      \/ at_minimum (autoSizeToFit panel_W SegParams_init)).
Proof.
  apply (autoSize_shrinks_in_order_until_fit panel_W).
  unfold panel_W, MARGIN. simpl. lia.
Defined.

(** C9, read for every width: at a width below the two margins
    [W - 2*MARGIN] is computed on unsigned 16-bit values and wraps to 65529,
    the test of the loop holds at once, and the geometry is returned
    untouched: the row is 282 pixels wide, far more than the panel, and
    nothing is at its minimum.  [setup] takes the width from the panel
    driver, which reports no such width. *)
Theorem autoSize_narrow_panel_left_unfitted :
  u16 (5 - 2 * MARGIN) = 65529
  /\ autoSizeToFit 5 SegParams_init = SegParams_init
  /\ totalRowWidth (autoSizeToFit 5 SegParams_init) = 282
  /\ ~ (totalRowWidth (autoSizeToFit 5 SegParams_init) <= 5 - 2 * MARGIN)
  /\ ~ at_minimum (autoSizeToFit 5 SegParams_init).
Proof.
  split; [reflexivity | split; [reflexivity | split; [reflexivity | split]]].
  - vm_compute. intros Hc. apply Hc. reflexivity.
  - intros (Hc & _). vm_compute in Hc. discriminate Hc.
Qed.

(** On the 320-pixel panel the initial row of 282 pixels fits at once; at
    240 pixels the loop stops after 12 passes with a row of 224 pixels; at
    160 pixels it stops after 31 passes with everything at its minimum and
    a row of 188 pixels that does not fit. *)
Example autoSize_on_panels :
  autoSizeToFit 320 SegParams_init = SegParams_init
  /\ autoSizeToFit 240 SegParams_init = mkSegParams 5 22 7 28 4 0
  /\ totalRowWidth (mkSegParams 5 22 7 28 4 0) = 224
  /\ autoSizePasses 200 240 SegParams_init = 12%nat
  /\ autoSizeToFit 160 SegParams_init = mkSegParams 4 16 7 16 4 0
  /\ totalRowWidth (mkSegParams 4 16 7 16 4 0) = 188
  /\ autoSizePasses 200 160 SegParams_init = 31%nat.
Proof. repeat split. Qed.

(** ** Environment line *)

Lemma SFcompare_Lt_swap a b : SFcompare a b = Some Lt -> SFcompare b a = Some Gt.
Proof.
  destruct a as [sa | sa | | sa ma ea], b as [sb | sb | | sb mb eb]; simpl;
    try discriminate; try (destruct sa; discriminate || reflexivity);
    try (destruct sb; discriminate || reflexivity);
    try (destruct sa, sb; discriminate || reflexivity).
  destruct sa, sb; try discriminate; try reflexivity;
    rewrite (Z.compare_antisym ea eb);
    destruct (ea ?= eb); simpl; try discriminate; try reflexivity;
    change (Pos.compare_cont Eq mb ma) with (Pos.compare_cont (CompOpp Eq) mb ma);
    rewrite <- (Pos.compare_cont_antisym ma mb Eq);
    destruct (Pos.compare_cont Eq ma mb); simpl; discriminate || reflexivity.
Qed.

Lemma f32_lt_not_ge a b : f32_lt a b = true -> f32_ge a b = false.
Proof.
  unfold f32_lt, f32_ge, SFltb, SFleb. intros Hlt.
  destruct (SFcompare a b) as [[| |] |] eqn:E; try discriminate Hlt.
  rewrite (SFcompare_Lt_swap a b E). reflexivity.
Qed.

Lemma envRedraws_drawEnvLine bg s : envRedraws (drawEnvLine bg s) = 1%nat.
Proof. reflexivity. Qed.

(** A valid reading below both steps and with the same text draws nothing
    and keeps the rendered values. *)
Lemma updateEnv_quiet bg ms h t es :
  ENV_INTERVAL <= u32 (ms - lastEnvRead es) ->
  isnan (lastT es) = false -> isnan (lastH es) = false ->
  env_valid h t -> env_below_steps es h t -> env_same_text es h t ->
  updateEnv bg ms h t es = (mkEnvState ms (lastEnvStr es) (lastT es) (lastH es), []).
Proof.
  intros Hi Ht Hh (Vh & Vt) (Bt & Bh) Hsame. unfold updateEnv.
  replace (u32 (ms - lastEnvRead es) <? ENV_INTERVAL) with false
    by (symmetry; apply Z.ltb_ge; exact Hi).
  cbn [lastEnvRead lastEnvStr lastT lastH].
  rewrite Vh, Vt, Ht, Hh. cbn [negb andb orb].
  rewrite (f32_lt_not_ge _ _ Bt), (f32_lt_not_ge _ _ Bh). cbn [orb].
  unfold env_same_text in Hsame. rewrite Hsame. reflexivity.
Qed.

(** A valid reading that crosses a step is drawn, once. *)
Lemma updateEnv_crossing bg ms h t es :
  ENV_INTERVAL <= u32 (ms - lastEnvRead es) ->
  env_valid h t -> env_crosses_step es h t ->
  updateEnv bg ms h t es
  = (mkEnvState ms (strncpy (envText t h) ENV_LINE_LEN) t h, drawEnvLine bg (envText t h)).
Proof.
  intros Hi (Vh & Vt) Hc. unfold updateEnv.
  replace (u32 (ms - lastEnvRead es) <? ENV_INTERVAL) with false
    by (symmetry; apply Z.ltb_ge; exact Hi).
  cbn [lastEnvRead lastEnvStr lastT lastH].
  rewrite Vh, Vt. cbn [negb andb].
  assert (E : isnan (lastT es) || isnan (lastH es)
              || f32_ge (fabs (f32_sub t (lastT es))) TEMP_STEP
              || f32_ge (fabs (f32_sub h (lastH es))) HUM_STEP = true).
  { destruct Hc as [Hc | Hc]; rewrite Hc; rewrite ?orb_true_r; reflexivity. }
  rewrite E. reflexivity.
Qed.

(** C8, as stated: after 24.0 degrees and 50 percent were rendered, a
    reading of 24.1 degrees and 50 percent is less than 0.2 degrees and
    less than 1.0 percent away, yet the line is redrawn, because its text
    differs. *)
Lemma small_change_of_text_is_redrawn :
  lastT env_after_first_reading = temp_24_0
  /\ lastH env_after_first_reading = hum_50
  /\ env_valid hum_50 temp_24_1
  /\ env_below_steps env_after_first_reading hum_50 temp_24_1
  /\ snd (updateEnv 0 4000 hum_50 temp_24_1 env_after_first_reading)
     = drawEnvLine 0 "TEMP 24.1 C   HUM  50 %"
  /\ envRedraws (snd (updateEnv 0 4000 hum_50 temp_24_1 env_after_first_reading)) = 1%nat.
Proof. repeat split. Qed.

(** C8, amended: once values have been rendered, two consecutive valid
    readings that are less than 0.2 degrees and less than 1.0 percent away
    from the rendered values and whose text equals the rendered text
    trigger no redraw and leave the rendered values and text in place; a
    following valid reading that is at least 0.2 degrees or at least 1.0
    percent away from the rendered values triggers exactly one redraw, of
    its own text, and becomes the rendered value. *)
Theorem env_line_redraw_rule
    (bg : Z) (es : EnvState) (ms1 ms2 ms3 : Z) (h1 t1 h2 t2 h3 t3 : float) :
  isnan (lastT es) = false -> isnan (lastH es) = false ->
  ENV_INTERVAL <= u32 (ms1 - lastEnvRead es) ->
  ENV_INTERVAL <= u32 (ms2 - ms1) ->
  ENV_INTERVAL <= u32 (ms3 - ms2) ->
  env_valid h1 t1 -> env_below_steps es h1 t1 -> env_same_text es h1 t1 ->
  env_valid h2 t2 -> env_below_steps es h2 t2 -> env_same_text es h2 t2 ->
  env_valid h3 t3 -> env_crosses_step es h3 t3 ->
  let r1 := updateEnv bg ms1 h1 t1 es in
  let r2 := updateEnv bg ms2 h2 t2 (fst r1) in
  let r3 := updateEnv bg ms3 h3 t3 (fst r2) in
  snd r1 = [] /\ snd r2 = []
  /\ lastT (fst r2) = lastT es /\ lastH (fst r2) = lastH es
  /\ lastEnvStr (fst r2) = lastEnvStr es
  /\ snd r3 = drawEnvLine bg (envText t3 h3)
  /\ envRedraws (snd r3) = 1%nat
  /\ lastT (fst r3) = t3 /\ lastH (fst r3) = h3.
Proof.
  intros Ht Hh I1 I2 I3 V1 B1 S1 V2 B2 S2 V3 C3. cbv zeta.
  rewrite (updateEnv_quiet bg ms1 h1 t1 es) by assumption. cbn [fst snd].
  rewrite (updateEnv_quiet bg ms2 h2 t2) by assumption. cbn [fst snd].
  rewrite (updateEnv_crossing bg ms3 h3 t3) by assumption.
  cbn [fst snd lastT lastH lastEnvStr]. repeat split.
Qed.

Lemma env_line_redraw_rule_witness :
  let r1 := updateEnv 0 4000 hum_50 temp_24_0 env_after_first_reading in
  let r2 := updateEnv 0 6000 hum_50 temp_24_0 (fst r1) in
  let r3 := updateEnv 0 8000 hum_50 temp_24_3 (fst r2) in
  snd r1 = [] /\ snd r2 = []
  /\ lastT (fst r2) = lastT env_after_first_reading
  /\ lastH (fst r2) = lastH env_after_first_reading
  /\ lastEnvStr (fst r2) = lastEnvStr env_after_first_reading
  /\ snd r3 = drawEnvLine 0 (envText temp_24_3 hum_50)
  /\ envRedraws (snd r3) = 1%nat
  /\ lastT (fst r3) = temp_24_3 /\ lastH (fst r3) = hum_50.
Proof.
  apply (env_line_redraw_rule 0 env_after_first_reading 4000 6000 8000
           hum_50 temp_24_0 hum_50 temp_24_0 hum_50 temp_24_3).
  - reflexivity.
  - reflexivity.
  - vm_compute. discriminate.
  - vm_compute. discriminate.
  - vm_compute. discriminate.
  - split; reflexivity.
  - split; reflexivity.
  - reflexivity.
  - split; reflexivity.
  - split; reflexivity.
  - reflexivity.
  - split; reflexivity.
  - left. reflexivity.
Defined.

(** * Further properties *)

(** ** Time of day under the one-second advance *)

(** The time fields after one call, for a valid time of day. *)
Lemma tick_time_cases t t' :
  time_ok t -> tickOneSecond t = Some t' ->
  (second t < 59 /\ second t' = second t + 1 /\ minute t' = minute t /\ hour t' = hour t)
  \/ (second t = 59 /\ minute t < 59
      /\ second t' = 0 /\ minute t' = minute t + 1 /\ hour t' = hour t)
  \/ (second t = 59 /\ minute t = 59 /\ hour t < 23
      /\ second t' = 0 /\ minute t' = 0 /\ hour t' = hour t + 1)
  \/ (second t = 59 /\ minute t = 59 /\ hour t = 23
      /\ second t' = 0 /\ minute t' = 0 /\ hour t' = 0).
Proof.
  destruct t as [y mo d h mi s hd st]. unfold time_ok, hms_valid. cbn.
  intros (Hh & Hm & Hs). unfold tickOneSecond.
  cbv beta iota zeta delta
    [set_year set_month set_day set_hour set_minute set_second set_hasDate set_isSet
     year month day hour minute second hasDate isSet].
  rewrite (incr_small s) by (unfold INT_MIN, INT_MAX; lia).
  destruct (Z.leb_spec 60 (s + 1)) as [Es | Es].
  - rewrite (incr_small mi) by (unfold INT_MIN, INT_MAX; lia).
    destruct (Z.leb_spec 60 (mi + 1)) as [Em | Em].
    + rewrite (incr_small h) by (unfold INT_MIN, INT_MAX; lia).
      destruct (Z.leb_spec 24 (h + 1)) as [Eh | Eh].
      * repeat match goal with
               | |- context [if ?b then _ else _] => destruct b eqn:?
               | |- context [match daysInMonth ?a ?b with _ => _ end] =>
                   destruct (daysInMonth a b) as [dim |] eqn:?
               end;
          intros Ht; try discriminate Ht; injection Ht as <-; cbn;
          right; right; right; lia.
      * intros Ht. injection Ht as <-. cbn. right; right; left. lia.
    + destruct (Z.leb_spec 24 h) as [Eh | Eh]; [lia |].
      intros Ht. injection Ht as <-. cbn. right; left. lia.
  - destruct (Z.leb_spec 60 mi) as [Em | Em]; [lia |].
    destruct (Z.leb_spec 24 h) as [Eh | Eh]; [lia |].
    intros Ht. injection Ht as <-. cbn. left. lia.
Qed.

Lemma tick_keeps_time_ok t t' : time_ok t -> tickOneSecond t = Some t' -> time_ok t'.
Proof.
  intros Hok Ht. pose proof Hok as (Hh & Hm & Hs).
  unfold time_ok, hms_valid.
  destruct (tick_time_cases t t' Hok Ht)
    as [C | [C | [C | C]]]; lia.
Qed.

(** The date is touched only by the call that takes the time to midnight. *)
Lemma tick_date_only_at_midnight t t' :
  time_ok t -> tickOneSecond t = Some t' -> secs_of_day t' <> 0 ->
  year t' = year t /\ month t' = month t /\ day t' = day t.
Proof.
  destruct t as [y mo d h mi s hd st]. unfold time_ok, hms_valid, secs_of_day. cbn.
  intros (Hh & Hm & Hs). unfold tickOneSecond.
  cbv beta iota zeta delta
    [set_year set_month set_day set_hour set_minute set_second set_hasDate set_isSet
     year month day hour minute second hasDate isSet].
  rewrite (incr_small s) by (unfold INT_MIN, INT_MAX; lia).
  destruct (Z.leb_spec 60 (s + 1)) as [Es | Es].
  - rewrite (incr_small mi) by (unfold INT_MIN, INT_MAX; lia).
    destruct (Z.leb_spec 60 (mi + 1)) as [Em | Em].
    + rewrite (incr_small h) by (unfold INT_MIN, INT_MAX; lia).
      destruct (Z.leb_spec 24 (h + 1)) as [Eh | Eh].
      * repeat match goal with
               | |- context [if ?b then _ else _] => destruct b eqn:?
               | |- context [match daysInMonth ?a ?b with _ => _ end] =>
                   destruct (daysInMonth a b) as [dim |] eqn:?
               end;
          intros Ht; try discriminate Ht; injection Ht as <-; cbn; intros Hn; lia.
      * intros Ht. injection Ht as <-. cbn. auto.
    + destruct (Z.leb_spec 24 h) as [Eh | Eh]; [lia |].
      intros Ht. injection Ht as <-. cbn. auto.
  - destruct (Z.leb_spec 60 mi) as [Em | Em]; [lia |].
    destruct (Z.leb_spec 24 h) as [Eh | Eh]; [lia |].
    intros Ht. injection Ht as <-. cbn. auto.
Qed.

(** One call is one second of the day. *)
Lemma tick_secs_of_day t t' :
  time_ok t -> tickOneSecond t = Some t' ->
  secs_of_day t' = (secs_of_day t + 1) mod 86400.
Proof.
  intros Hok Ht. pose proof Hok as (Hh & Hm & Hs). unfold secs_of_day.
  destruct (tick_time_cases t t' Hok Ht)
    as [(? & -> & -> & ->) | [(? & ? & -> & -> & ->)
        | [(? & ? & ? & -> & -> & ->) | (? & ? & ? & -> & -> & ->)]]].
  - rewrite Z.mod_small by lia. lia.
  - rewrite Z.mod_small by lia. lia.
  - rewrite Z.mod_small by lia. lia.
  - replace (hour t * 3600 + minute t * 60 + second t + 1) with (1 * 86400) by lia.
    rewrite Z.mod_mul by lia. reflexivity.
Qed.

(** X1: on a valid time of day one call of [tickOneSecond] keeps hour,
    minute and second in range and advances the seconds since midnight by
    exactly one, modulo the 86400 seconds of a day; the date fields change
    only in the call that reaches 00:00:00, and never when the clock has no
    date or a year before 1970. *)
Theorem tick_advances_time_of_day t t' :
  time_ok t -> tickOneSecond t = Some t' ->
  time_ok t'
  /\ secs_of_day t' = (secs_of_day t + 1) mod 86400
  /\ (secs_of_day t' <> 0 -> year t' = year t /\ month t' = month t /\ day t' = day t)
  /\ (hasDate t = false \/ year t < 1970 ->
      year t' = year t /\ month t' = month t /\ day t' = day t).
Proof.
  intros Hok Ht. split; [apply (tick_keeps_time_ok t t' Hok Ht) | split; [| split]].
  - apply (tick_secs_of_day t t' Hok Ht).
  - apply (tick_date_only_at_midnight t t' Hok Ht).
  - intros Hnd.
    destruct (tick_date_cases t t' Ht) as (_ & _ & [C | (Hd & Hy & _)]); [exact C |].
    destruct Hnd as [Hnd | Hnd]; [congruence | lia].
Qed.

Lemma tick_advances_time_of_day_witness :
  time_ok (mkClockTime 2025 1 1 0 0 0 true true)
  /\ secs_of_day (mkClockTime 2025 1 1 0 0 0 true true)
     = (secs_of_day (mkClockTime 2024 12 31 23 59 59 true true) + 1) mod 86400
  /\ (secs_of_day (mkClockTime 2025 1 1 0 0 0 true true) <> 0 ->
      year (mkClockTime 2025 1 1 0 0 0 true true)
      = year (mkClockTime 2024 12 31 23 59 59 true true)
      /\ month (mkClockTime 2025 1 1 0 0 0 true true)
         = month (mkClockTime 2024 12 31 23 59 59 true true)
      /\ day (mkClockTime 2025 1 1 0 0 0 true true)
         = day (mkClockTime 2024 12 31 23 59 59 true true))
  /\ (hasDate (mkClockTime 2024 12 31 23 59 59 true true) = false
      \/ year (mkClockTime 2024 12 31 23 59 59 true true) < 1970 ->
      year (mkClockTime 2025 1 1 0 0 0 true true)
      = year (mkClockTime 2024 12 31 23 59 59 true true)
      /\ month (mkClockTime 2025 1 1 0 0 0 true true)
         = month (mkClockTime 2024 12 31 23 59 59 true true)
      /\ day (mkClockTime 2025 1 1 0 0 0 true true)
         = day (mkClockTime 2024 12 31 23 59 59 true true)).
Proof.
  apply (tick_advances_time_of_day (mkClockTime 2024 12 31 23 59 59 true true)
           (mkClockTime 2025 1 1 0 0 0 true true)).
  - unfold time_ok, hms_valid. simpl. lia.
  - reflexivity.
Defined.

(** ** Time fields of reachable clock values *)

Lemma parse_time_ok s t : parseTime s = Some t -> time_ok t.
Proof.
  intros Hp. apply parse_sound in Hp. unfold time_ok.
  destruct Hp as [(h & m & sec & rest & _ & V & ->)
                 | (y & mo & d & h & m & sec & rest & _ & _ & _ & _ & V & ->)];
    exact V.
Qed.

Lemma reachable_time_ok t : reachable t -> time_ok t.
Proof.
  induction 1 as [| t s parsed Hr IH Hp | t t' Hr IH Hset Ht].
  - unfold time_ok, hms_valid. simpl. lia.
  - pose proof (parse_time_ok s parsed Hp) as Hok.
    destruct parsed. exact Hok.
  - apply (tick_keeps_time_ok t t'); assumption.
Qed.

(** ** Formatted text *)

Lemma all_from_spec n f : forall z0,
  all_from z0 n f = true -> forall z, z0 <= z < z0 + Z.of_nat n -> f z = true.
Proof.
  induction n as [| n IH]; intros z0 Ha z Hz; [lia |].
  cbn [all_from] in Ha. apply andb_true_iff in Ha. destruct Ha as [Hn Hr].
  destruct (Z.eq_dec z z0) as [-> | Hne]; [exact Hn |].
  apply (IH (z0 + 1)); [exact Hr | lia].
Qed.

Lemma all_below_spec n f :
  all_below n f = true -> forall z, 0 <= z < Z.of_nat n -> f z = true.
Proof. intros Ha z Hz. apply (all_from_spec n f 0 Ha). lia. Qed.

Lemma fmt_d0_two n : 0 <= n <= 99 -> fmt_d0 2 n = two n.
Proof.
  intros Hn. apply String.eqb_eq.
  apply (all_below_spec 100 (fun z => String.eqb (fmt_d0 2 z) (two z)));
    [vm_compute; reflexivity | lia].
Qed.

Lemma fmt_d0_four n : 0 <= n <= 9999 -> fmt_d0 4 n = four n.
Proof.
  intros Hn. apply String.eqb_eq.
  apply (all_below_spec (Z.to_nat 10000) (fun z => String.eqb (fmt_d0 4 z) (four z)));
    [vm_compute; reflexivity | rewrite Z2Nat.id; lia].
Qed.

Lemma timeText_short t :
  time_ok t -> timeText t = short_text (hour t) (minute t) (second t) "".
Proof.
  intros (Hh & Hm & Hs). unfold timeText, short_text.
  rewrite !fmt_d0_two by lia. reflexivity.
Qed.

Lemma dateText_fields t :
  hasDate t = true -> 1 <= year t <= 9999 -> 1 <= month t <= 99 -> 1 <= day t <= 99 ->
  dateText t = (two (day t) ++ "-" ++ two (month t) ++ "-" ++ four (year t))%string.
Proof.
  intros Hd Hy Hm Hdy. unfold dateText. rewrite Hd. cbn [andb].
  replace (day t =? 0) with false by (symmetry; apply Z.eqb_neq; lia).
  replace (month t =? 0) with false by (symmetry; apply Z.eqb_neq; lia).
  replace (year t =? 0) with false by (symmetry; apply Z.eqb_neq; lia).
  cbn [negb]. rewrite !fmt_d0_two, fmt_d0_four by lia. reflexivity.
Qed.

Lemma digit_char_not_blank d : 0 <= d <= 9 ->
  Ascii.eqb (digit_char d) " " || Ascii.eqb (digit_char d) (ascii_of_nat 9) = false.
Proof. intros Hd. each_digit Hd; reflexivity. Qed.

Lemma skipBlanks_digit d r : 0 <= d <= 9 ->
  skipBlanks (String (digit_char d) r) = String (digit_char d) r.
Proof. intros Hd. cbn [skipBlanks]. rewrite digit_char_not_blank by assumption. reflexivity. Qed.

Lemma tens_digit n : 0 <= n <= 99 -> 0 <= n / 10 <= 9.
Proof.
  intros Hn. split; [apply Z.div_pos; lia |].
  assert (n / 10 < 10) by (apply Z.div_lt_upper_bound; lia). lia.
Qed.

(** X2: the text on the clock face is the text of the accepted line.  After
    a successful parse the time fields are a valid time of day, the
    [HH:MM:SS] text composed for the digits is, character for character,
    the time part of the line (after its leading blanks), and for the long
    form the date line text is the day, month and year of the line in the
    order [DD-MM-YYYY]. *)
Theorem accepted_line_is_shown s t :
  parseTime s = Some t ->
  time_ok t
  /\ (hasDate t = false -> exists rest, skipBlanks s = (timeText t ++ rest)%string)
  /\ (hasDate t = true ->
      (exists rest,
          skipBlanks s
          = (four (year t) ++ "-" ++ two (month t) ++ "-" ++ two (day t) ++ " "
             ++ timeText t ++ rest)%string)
      /\ dateText t = (two (day t) ++ "-" ++ two (month t) ++ "-" ++ four (year t))%string).
Proof.
  intros Hp. pose proof (parse_time_ok s t Hp) as Hok.
  split; [exact Hok |]. apply parse_sound in Hp.
  destruct Hp as [(h & m & sec & rest & E & V & Et)
                 | (y & mo & d & h & m & sec & rest & E & Vy & Vm & Vd & V & Et)].
  - split.
    + intros _. exists rest. rewrite timeText_short by assumption.
      rewrite E, Et. reflexivity.
    + rewrite Et. discriminate.
  - split.
    + rewrite Et. discriminate.
    + intros Hd. split.
      * exists rest. rewrite timeText_short by assumption. rewrite E, Et. reflexivity.
      * apply dateText_fields; rewrite ?Et; cbn; (reflexivity || lia).
Qed.

Lemma accepted_line_is_shown_witness :
  time_ok feb28_2024
  /\ (hasDate feb28_2024 = false ->
      exists rest, skipBlanks " 2024-02-28 23:59:59" = (timeText feb28_2024 ++ rest)%string)
  /\ (hasDate feb28_2024 = true ->
      (exists rest,
          skipBlanks " 2024-02-28 23:59:59"
          = (four (year feb28_2024) ++ "-" ++ two (month feb28_2024) ++ "-"
             ++ two (day feb28_2024) ++ " " ++ timeText feb28_2024 ++ rest)%string)
      /\ dateText feb28_2024
         = (two (day feb28_2024) ++ "-" ++ two (month feb28_2024) ++ "-"
            ++ four (year feb28_2024))%string).
Proof.
  apply (accepted_line_is_shown " 2024-02-28 23:59:59" feb28_2024). reflexivity.
Defined.

(** X3: round trip of the clock face.  For every valid time of day the
    eight characters [drawTimeDigits] composes are accepted by [parseTime]
    and give back the same hour, minute and second, as a clock without
    date. *)
Theorem time_text_parses_back t :
  time_ok t ->
  parseTime (timeText t)
  = Some (mkClockTime 0 0 0 (hour t) (minute t) (second t) false true).
Proof.
  intros Hok. pose proof Hok as (Hh & Hm & Hs).
  assert (Esk : skipBlanks (timeText t) = timeText t).
  { rewrite timeText_short by assumption. unfold short_text, two. cbn [append].
    apply skipBlanks_digit. apply tens_digit. lia. }
  apply parse_complete.
  - rewrite timeText_short by assumption. unfold INT_MAX. cbn. lia.
  - left. rewrite Esk. exists (hour t), (minute t), (second t), "".
    split; [apply timeText_short; assumption | split; [exact Hok | reflexivity]].
Qed.

Lemma time_text_parses_back_witness :
  parseTime (timeText (mkClockTime 2024 2 29 7 5 9 true true))
  = Some (mkClockTime 0 0 0 (hour (mkClockTime 2024 2 29 7 5 9 true true))
            (minute (mkClockTime 2024 2 29 7 5 9 true true))
            (second (mkClockTime 2024 2 29 7 5 9 true true)) false true).
Proof.
  apply (time_text_parses_back (mkClockTime 2024 2 29 7 5 9 true true)).
  unfold time_ok, hms_valid. simpl. lia.
Defined.

(** ** Weekday of the date line *)

Lemma div_step y k : 0 < k -> y / k - (y - 1) / k = if y mod k =? 0 then 1 else 0.
Proof.
  intros Hk. pose proof (Z.div_mod y k ltac:(lia)) as Hd.
  pose proof (Z.mod_pos_bound y k Hk) as Hb.
  destruct (Z.eqb_spec (y mod k) 0) as [E | E].
  - assert ((y - 1) / k = y / k - 1); [| lia].
    symmetry. apply Z.div_unique with (k - 1); [lia | nia].
  - assert ((y - 1) / k = y / k); [| lia].
    symmetry. apply Z.div_unique with (y mod k - 1); [lia | nia].
Qed.

Lemma mod_400_100 y : y mod 400 = 0 -> y mod 100 = 0.
Proof.
  intros E. pose proof (Z.div_mod y 400 ltac:(lia)) as Hd.
  symmetry. apply Z.mod_unique with (4 * (y / 400)); lia.
Qed.

Lemma mod_100_4 y : y mod 100 = 0 -> y mod 4 = 0.
Proof.
  intros E. pose proof (Z.div_mod y 100 ltac:(lia)) as Hd.
  symmetry. apply Z.mod_unique with (25 * (y / 100)); lia.
Qed.

Lemma isLeap_mod y : 0 <= y ->
  isLeap y = ((y mod 4 =? 0) && negb (y mod 100 =? 0)) || (y mod 400 =? 0).
Proof.
  intros Hy. unfold isLeap. rewrite !Z.rem_mod_nonneg by lia. reflexivity.
Qed.

Lemma year_days_step y : 1 <= y ->
  year_days y - year_days (y - 1) = 1 + (if isLeap y then 1 else 0).
Proof.
  intros Hy. unfold year_days. rewrite isLeap_mod by lia.
  pose proof (div_step y 4 ltac:(lia)) as H4.
  pose proof (div_step y 100 ltac:(lia)) as H100.
  pose proof (div_step y 400 ltac:(lia)) as H400.
  destruct (Z.eqb_spec (y mod 400) 0) as [E400 | E400].
  - pose proof (mod_400_100 y E400) as E100. pose proof (mod_100_4 y E100) as E4.
    rewrite E100, E4 in *. cbn in *. lia.
  - destruct (Z.eqb_spec (y mod 100) 0) as [E100 | E100].
    + pose proof (mod_100_4 y E100) as E4. rewrite E4 in *. cbn in *. lia.
    + destruct (Z.eqb_spec (y mod 4) 0) as [E4 | E4]; cbn in *; lia.
Qed.

Lemma year_days_nonneg y : 0 <= y -> 0 <= year_days y.
Proof.
  intros Hy. unfold year_days.
  pose proof (Z.div_pos y 400 Hy ltac:(lia)).
  assert (y / 100 <= y / 4) by (apply Z.div_le_compat_l with (p := y) (q := 4) (r := 100); lia).
  lia.
Qed.

(** [weekdayIndex] for a date from year 1 on, without the truncating
    operators. *)
Lemma weekdayIndex_value y m d : 2 <= y -> 1 <= m <= 12 -> 0 <= d ->
  weekdayIndex y m d
  = (year_days (if m <? 3 then y - 1 else y) + elem weekday_table (Z.to_nat (m - 1)) + d)
    mod 7.
Proof.
  intros Hy Hm Hd. unfold weekdayIndex, year_days.
  set (Y := if m <? 3 then y - 1 else y).
  assert (HY : 1 <= Y) by (unfold Y; destruct (m <? 3); lia).
  rewrite !Z.quot_div_nonneg by lia.
  assert (Ht : 0 <= elem weekday_table (Z.to_nat (m - 1))).
  { unfold elem. generalize (Z.to_nat (m - 1)) as k. intros k.
    do 12 (destruct k as [| k]; [cbn; lia |]). destruct k; cbn; lia. }
  pose proof (year_days_nonneg Y ltac:(lia)) as Hn. unfold year_days in Hn.
  apply Z.rem_mod_nonneg; lia.
Qed.

Lemma mod7_shift a b k : a = b + k * 7 -> a mod 7 = b mod 7.
Proof. intros ->. apply Z_mod_plus_full. Qed.

(** The call made at 23:59:59 on a dated clock moves the date on. *)
Lemma tick_rollover_date t t' :
  hour t = 23 -> minute t = 59 -> second t = 59 ->
  hasDate t = true -> 1970 <= year t ->
  tickOneSecond t = Some t' ->
  exists dim, daysInMonth (year t) (month t) = Some dim
    /\ ((incr (day t) <= dim
         /\ year t' = year t /\ month t' = month t /\ day t' = incr (day t))
        \/ (dim < incr (day t) /\ incr (month t) <= 12
            /\ year t' = year t /\ month t' = incr (month t) /\ day t' = 1)
        \/ (dim < incr (day t) /\ 12 < incr (month t)
            /\ year t' = incr (year t) /\ month t' = 1 /\ day t' = 1)).
Proof.
  destruct t as [y mo d h mi s hd st]. cbn. intros -> -> -> -> Hy.
  unfold tickOneSecond.
  cbv beta iota zeta delta
    [set_year set_month set_day set_hour set_minute set_second set_hasDate set_isSet
     year month day hour minute second hasDate isSet].
  change (incr 59) with 60.
  repeat (progress (cbv beta iota;
                    try change (60 <=? 60) with true;
                    try change (incr 23) with 24;
                    try change (24 <=? 24) with true)).
  replace (1970 <=? y) with true by (symmetry; apply Z.leb_le; exact Hy).
  cbn [andb].
  destruct (daysInMonth y mo) as [dim |]; [| discriminate].
  intros Ht. exists dim. split; [reflexivity |]. revert Ht.
  destruct (Z.ltb_spec dim (incr d)) as [Ed | Ed].
  - destruct (Z.ltb_spec 12 (incr mo)) as [Em | Em];
      intros Ht; injection Ht as <-; cbn; [right; right | right; left]; auto.
  - intros Ht; injection Ht as <-; cbn. left. auto.
Qed.


Ltac eval_month_terms :=
  repeat match goal with
  | |- context [elem weekday_table ?k] =>
      let v := eval vm_compute in (elem weekday_table k) in
      change (elem weekday_table k) with v
  | |- context [if ?b then _ else _] =>
      let v := eval vm_compute in b in progress change b with v
  end;
  cbv iota.

(** The last day of a month and the first day of the next one are one
    weekday apart. *)
Lemma month_end_shift y m dim :
  1 <= y -> 1 <= m <= 11 -> daysInMonth y m = Some dim ->
  (year_days (if m + 1 <? 3 then y - 1 else y)
   + elem weekday_table (Z.to_nat (m + 1 - 1)) + 1) mod 7
  = (year_days (if m <? 3 then y - 1 else y)
     + elem weekday_table (Z.to_nat (m - 1)) + dim + 1) mod 7.
Proof.
  intros Hy Hm Edim.
  pose proof (year_days_step y ltac:(lia)) as Hstep.
  assert (Hc : m = 1 \/ m = 2 \/ m = 3 \/ m = 4 \/ m = 5 \/ m = 6 \/ m = 7 \/ m = 8
               \/ m = 9 \/ m = 10 \/ m = 11) by lia.
  unfold daysInMonth in Edim.
  repeat match type of Hc with _ \/ _ => destruct Hc as [Hc | Hc] end; subst m;
    cbn in Edim; try (destruct (isLeap y)); injection Edim as <-;
    eval_month_terms;
    first [ apply mod7_shift with 0; lia | apply mod7_shift with (-1); lia
          | apply mod7_shift with (-2); lia | apply mod7_shift with (-3); lia
          | apply mod7_shift with (-4); lia | apply mod7_shift with (-5); lia
          | apply mod7_shift with 1; lia | apply mod7_shift with (-6); lia
          | apply mod7_shift with (-7); lia | apply mod7_shift with 2; lia ].
Qed.

(** X4: the weekday shown follows the date.  For a dated clock that holds
    a date of the calendar in a year up to 9999 (where the sum in
    [weekdayIndex] stays within an [int]), [weekdayIndex] is an index into
    the seven weekday names; a call of [tickOneSecond] that stays within
    the day leaves it unchanged, and the call that reaches midnight moves
    it on by exactly one weekday, also across the ends of months, of
    February in leap and common years, and of the year. *)
Theorem weekday_follows_the_date t t' :
  time_ok t -> calendar_valid t -> hasDate t = true -> year t <= 9999 ->
  tickOneSecond t = Some t' ->
  0 <= weekdayIndex (year t) (month t) (day t) <= 6
  /\ (secs_of_day t' <> 0 ->
      weekdayIndex (year t') (month t') (day t')
      = weekdayIndex (year t) (month t) (day t))
  /\ (secs_of_day t' = 0 ->
      weekdayIndex (year t') (month t') (day t')
      = (weekdayIndex (year t) (month t) (day t) + 1) mod 7).
Proof.
  intros Hok (Hy & Hm & dim & Edim & Hd) Hhd Hmax Ht.
  split; [| split].
  - rewrite weekdayIndex_value by lia.
    match goal with |- 0 <= ?a mod 7 <= 6 =>
      pose proof (Z.mod_pos_bound a 7 ltac:(lia)) end. lia.
  - intros Hn.
    destruct (tick_date_only_at_midnight t t' Hok Ht Hn) as (-> & -> & ->). reflexivity.
  - intros Hz. pose proof Hok as (Hh & Hmi & Hs).
    assert (Hroll : hour t = 23 /\ minute t = 59 /\ second t = 59).
    { unfold secs_of_day in Hz.
      destruct (tick_time_cases t t' Hok Ht)
        as [C | [C | [C | C]]]; lia. }
    destruct Hroll as (E23 & E59 & E59').
    destruct (tick_rollover_date t t' E23 E59 E59' Hhd Hy Ht) as (dim' & Edim' & C).
    rewrite Edim in Edim'. injection Edim' as <-.
    destruct (daysInMonth_range (year t) (month t) Hm) as (dim2 & E2 & Hdim).
    rewrite Edim in E2. injection E2 as <-.
    rewrite (incr_small (day t)), (incr_small (month t)), (incr_small (year t)) in C
      by (unfold INT_MIN, INT_MAX; lia).
    rewrite (weekdayIndex_value (year t) (month t) (day t)) by lia.
    rewrite Zplus_mod_idemp_l.
    destruct C as [(Hle & -> & -> & ->) | [(Hgt & Hle & -> & -> & ->) | (Hgt & Hgt' & -> & -> & ->)]].
    + rewrite weekdayIndex_value by lia. f_equal. lia.
    + assert (Eday : day t = dim) by lia.
      rewrite weekdayIndex_value by lia. rewrite Eday.
      apply month_end_shift; [lia | lia | exact Edim].
    + assert (Em : month t = 12) by lia.
      assert (Eday : day t = 31).
      { rewrite Em in Edim. cbn in Edim. injection Edim as <-. lia. }
      rewrite !weekdayIndex_value by lia. rewrite Em, Eday.
      eval_month_terms.
      replace (year t + 1 - 1) with (year t) by lia.
      apply mod7_shift with (-5). lia.
Qed.

Lemma weekday_follows_the_date_witness :
  weekdayIndex 2024 2 28 = 3 /\ weekdayIndex 2024 2 29 = 4
  /\ (secs_of_day (mkClockTime 2024 2 29 0 0 0 true true) = 0 ->
      weekdayIndex 2024 2 29 = (weekdayIndex 2024 2 28 + 1) mod 7).
Proof.
  split; [reflexivity | split; [reflexivity |]].
  refine (proj2 (proj2 (weekday_follows_the_date feb28_2024
            (mkClockTime 2024 2 29 0 0 0 true true) _ _ _ _ _))).
  - unfold time_ok, hms_valid. cbn. lia.
  - unfold calendar_valid. cbn. split; [lia | split; [lia |]].
    exists 29. split; [reflexivity | lia].
  - reflexivity.
  - cbn. lia.
  - reflexivity.
Defined.

(** ** The serial line reader *)

Lemma substring_0_0 s : substring 0 0 s = "".
Proof. destruct s; reflexivity. Qed.

Lemma substring_empty n : substring 0 n "" = "".
Proof. destruct n; reflexivity. Qed.

Lemma string_app_assoc (a b c : string) : ((a ++ b) ++ c = a ++ (b ++ c))%string.
Proof. induction a as [| x a IH]; simpl; [reflexivity | rewrite IH; reflexivity]. Qed.

Lemma string_app_nil_r (a : string) : (a ++ "" = a)%string.
Proof. induction a as [| x a IH]; simpl; [reflexivity | rewrite IH; reflexivity]. Qed.

Lemma string_length_app (a b : string) :
  String.length (a ++ b) = (String.length a + String.length b)%nat.
Proof. induction a as [| x a IH]; simpl; [reflexivity | rewrite IH; reflexivity]. Qed.

(** The read loop from any fill level of the buffer, with room for [k]
    more characters. *)
Lemma readLine_from rx : forall buf k,
  (String.length buf + k = 127)%nat ->
  readLine rx buf
  = ((buf ++ substring 0 k (string_of_list_ascii (before_eol rx)))%string, after_eol rx).
Proof.
  induction rx as [| c rest IH]; intros buf k Hb;
    cbn [readLine before_eol after_eol string_of_list_ascii].
  - rewrite substring_empty, string_app_nil_r. reflexivity.
  - fold (is_eol c). destruct (is_eol c).
    + cbn [string_of_list_ascii]. rewrite substring_empty, string_app_nil_r. reflexivity.
    + unfold STR_IN_SIZE. cbn [string_of_list_ascii].
      destruct (Z.ltb_spec (Z.of_nat (String.length buf)) (128 - 1)) as [Hlt | Hge].
      * destruct k as [| k]; [lia |].
        rewrite (IH _ k) by (rewrite string_length_app; simpl; lia).
        cbn [substring]. rewrite string_app_assoc. reflexivity.
      * assert (k = 0%nat) by lia. subst k.
        rewrite (IH _ 0%nat) by lia.
        rewrite !substring_0_0. reflexivity.
Qed.

Lemma string_of_list_length l :
  String.length (string_of_list_ascii l) = List.length l.
Proof. induction l as [| c r IH]; simpl; [reflexivity | rewrite IH; reflexivity]. Qed.

Lemma substring_prefix_no_eol l : forall n i,
  is_eol (char_at (substring 0 n (string_of_list_ascii (before_eol l))) i) = false.
Proof.
  induction l as [| c r IH]; intros n i; simpl.
  - destruct n; reflexivity.
  - destruct (is_eol c) eqn:E; simpl.
    + destruct n; reflexivity.
    + destruct n as [| n]; [reflexivity |]. simpl.
      destruct i as [| i]; [rewrite char_at_0; exact E | rewrite char_at_S; apply IH].
Qed.

(** X5: the line handed to the parser is the run of bytes in front of the
    first line feed or carriage return (all bytes, when there is none),
    cut to the 127 characters the buffer holds; the bytes behind that
    terminator stay unread for the next iteration.  The line therefore
    never holds a terminator and never exceeds the buffer. *)
Theorem read_line_is_first_line_cut_to_buffer (rx : list ascii) :
  fst (readLine rx "") = substring 0 127 (string_of_list_ascii (before_eol rx))
  /\ snd (readLine rx "") = after_eol rx
  /\ (String.length (fst (readLine rx "")) <= 127)%nat
  /\ (forall i, is_eol (char_at (fst (readLine rx "")) i) = false)
  /\ (List.length (before_eol rx) <= 127 ->
      fst (readLine rx "") = string_of_list_ascii (before_eol rx))%nat.
Proof.
  rewrite (readLine_from rx "" 127) by reflexivity. cbn [fst snd append].
  repeat split.
  - apply substring_length_le.
  - intros i. apply substring_prefix_no_eol.
  - intros Hl. apply substring_all. rewrite string_of_list_length. exact Hl.
Qed.

(** ** Background gradient and erasing *)

(** An [int] survives the trip through [unsigned int] and back. *)
Lemma int16_u16 v : INT_MIN <= v <= INT_MAX -> int16 (u16 v) = v.
Proof.
  unfold INT_MIN, INT_MAX, int16, wrap_signed, u16. intros Hv.
  rewrite Zplus_mod_idemp_l.
  change (2 ^ (16 - 1)) with 32768. change (2 ^ 16) with 65536.
  rewrite Z.mod_small by lia. lia.
Qed.

Lemma u16_neg v : - 65536 <= v < 0 -> u16 v = v + 65536.
Proof.
  intros Hv. unfold u16. replace v with (v + 65536 + (-1) * 2 ^ 16) at 1 by lia.
  rewrite Z_mod_plus_full. apply Z.mod_small. lia.
Qed.

Lemma oceanMidY_value H : 0 <= H <= 32767 -> oceanMidY H = H * 2 / 5.
Proof.
  intros HH. unfold oceanMidY. rewrite u16_id by lia.
  apply int16_id. unfold INT_MIN, INT_MAX.
  pose proof (Z.div_pos (H * 2) 5 ltac:(lia) ltac:(lia)).
  assert (H * 2 / 5 <= H * 2) by (apply Z.div_le_upper_bound; lia).
  assert (H * 2 / 5 < 32767) by (apply Z.div_lt_upper_bound; lia). lia.
Qed.

Lemma oceanMidY_below H : 1 <= H <= 32767 -> 0 <= oceanMidY H < H.
Proof.
  intros HH. rewrite oceanMidY_value by lia. split.
  - apply Z.div_pos; lia.
  - apply Z.div_lt_upper_bound; lia.
Qed.

(** The colour [oceanColorAtY] reports for a row of the panel is the colour
    [drawOceanGradient] painted that row with. *)
Lemma gradient_row W H y : 1 <= H <= 32767 -> 0 <= y < H ->
  In (DrawFastHLine 0 y (int16 W) (oceanColorAtY H y)) (drawOceanGradient W H).
Proof.
  intros HH Hy. pose proof (oceanMidY_below H HH) as Hmid.
  unfold drawOceanGradient, oceanColorAtY.
  rewrite (int16_id H) by (unfold INT_MIN, INT_MAX; lia).
  replace (y <? 0) with false by (symmetry; apply Z.ltb_ge; lia).
  replace (H <=? y) with false by (symmetry; apply Z.leb_gt; lia).
  apply in_or_app.
  destruct (Z.ltb_spec y (oceanMidY H)) as [Hlt | Hge].
  - left. apply in_map_iff. exists (Z.to_nat y). cbv zeta.
    rewrite Z2Nat.id by lia. split; [reflexivity |].
    apply in_seq. lia.
  - right. apply in_map_iff. exists (Z.to_nat (y - oceanMidY H)). cbv zeta.
    rewrite Z2Nat.id by lia.
    replace (oceanMidY H + (y - oceanMidY H)) with y by lia.
    split; [reflexivity |]. apply in_seq. lia.
Qed.

(** X6: erasing repaints the background.  For a rectangle whose left edge
    is not beyond the right edge of the panel, every command
    [fillRectWithOceanBG] sends is a horizontal line that lies on the
    panel, in a row of the panel, and has the colour of the full-width line
    [drawOceanGradient] painted in that row. *)
Theorem erase_repaints_the_background (W H x y w h : Z) (op : TftOp) :
  1 <= W <= 32767 -> 1 <= H <= 32767 ->
  INT_MIN <= x <= W -> INT_MIN <= y <= INT_MAX ->
  w <= INT_MAX -> h <= INT_MAX -> x + w <= INT_MAX -> y + h <= INT_MAX ->
  In op (fillRectWithOceanBG W H x y w h) ->
  exists x' yy w',
    op = DrawFastHLine x' yy w' (oceanColorAtY H yy)
    /\ 0 <= x' /\ 0 <= w' /\ x' + w' <= W /\ 0 <= yy < H
    /\ In (DrawFastHLine 0 yy (int16 W) (oceanColorAtY H yy)) (drawOceanGradient W H).
Proof.
  unfold INT_MIN, INT_MAX. intros HW HH Hx Hy Hw Hh Hxw Hyh.
  unfold fillRectWithOceanBG.
  destruct (Z.leb_spec w 0) as [Hw0 | Hw0]; [intros [] |].
  destruct (Z.leb_spec h 0) as [Hh0 | Hh0]; [intros [] |].
  cbn [orb].
  set (w1 := if x <? 0 then int16 (w + x) else w).
  set (x1 := if x <? 0 then 0 else x).
  set (h1 := if y <? 0 then int16 (h + y) else h).
  set (y1 := if y <? 0 then 0 else y).
  set (w2 := if W <? u16 (x1 + w1) then int16 (u16 (W - x1)) else w1).
  set (h2 := if int16 H <? int16 (y1 + h1) then int16 (u16 (H - y1)) else h1).
  assert (Hx1 : (x < 0 /\ x1 = 0) \/ (0 <= x /\ x1 = x))
    by (unfold x1; destruct (Z.ltb_spec x 0); lia).
  assert (Hy1 : (y < 0 /\ y1 = 0) \/ (0 <= y /\ y1 = y))
    by (unfold y1; destruct (Z.ltb_spec y 0); lia).
  assert (Hw1 : w1 = x + w - x1).
  { unfold w1, x1. destruct (Z.ltb_spec x 0); [| lia].
    rewrite int16_id by (unfold INT_MIN, INT_MAX; lia). lia. }
  assert (Hh1 : h1 = y + h - y1).
  { unfold h1, y1. destruct (Z.ltb_spec y 0); [| lia].
    rewrite int16_id by (unfold INT_MIN, INT_MAX; lia). lia. }
  assert (Hw2 : 0 <= w2 /\ x1 + w2 <= W).
  { unfold w2. destruct (Z.ltb_spec W (u16 (x1 + w1))) as [Hgt | Hle].
    - rewrite int16_u16 by (unfold INT_MIN, INT_MAX; lia). lia.
    - destruct (Z_lt_ge_dec (x1 + w1) 0) as [Hneg | Hpos].
      + exfalso. rewrite u16_neg in Hle by lia. lia.
      + rewrite u16_id in Hle by lia. lia. }
  assert (Hh2 : y1 + h2 <= H).
  { unfold h2. rewrite (int16_id H), (int16_id (y1 + h1)) by (unfold INT_MIN, INT_MAX; lia).
    destruct (Z.ltb_spec H (y1 + h1)) as [Hgt | Hle]; [| lia].
    rewrite int16_u16 by (unfold INT_MIN, INT_MAX; lia). lia. }
  intros Hin. apply in_map_iff in Hin. destruct Hin as (k & <- & Hk).
  apply in_seq in Hk. cbv zeta.
  exists x1, (y1 + Z.of_nat k), w2.
  assert (Hyy : 0 <= y1 + Z.of_nat k < H) by lia.
  split; [reflexivity |]. repeat split; try lia.
  apply gradient_row; lia.
Qed.

Lemma erase_repaints_the_background_witness :
  exists x' yy w',
    DrawFastHLine 0 10 50 (oceanColorAtY 240 10)
    = DrawFastHLine x' yy w' (oceanColorAtY 240 yy)
    /\ 0 <= x' /\ 0 <= w' /\ x' + w' <= 320 /\ 0 <= yy < 240
    /\ In (DrawFastHLine 0 yy (int16 320) (oceanColorAtY 240 yy)) (drawOceanGradient 320 240).
Proof.
  apply (erase_repaints_the_background 320 240 (-10) 10 60 2);
    unfold INT_MIN, INT_MAX; try lia.
  left. reflexivity.
Defined.

(** X7: a rectangle that lies wholly to the left of the panel is not
    skipped.  The test of the right edge against the unsigned panel width
    sees the negative edge as a large number, so every row of the
    rectangle is repainted across the full width of the panel. *)
Theorem erase_left_of_panel_repaints_full_rows (W H x y w h : Z) :
  1 <= W <= 32767 -> 1 <= H <= 32767 ->
  INT_MIN <= x -> 0 < w -> x + w < 0 -> 0 <= y -> 0 < h -> y + h <= H ->
  fillRectWithOceanBG W H x y w h
  = map (fun k => DrawFastHLine 0 (y + Z.of_nat k) W (oceanColorAtY H (y + Z.of_nat k)))
        (seq 0 (Z.to_nat h)).
Proof.
  unfold INT_MIN. intros HW HH Hx Hw Hxw Hy Hh Hyh.
  unfold fillRectWithOceanBG.
  replace (w <=? 0) with false by (symmetry; apply Z.leb_gt; lia).
  replace (h <=? 0) with false by (symmetry; apply Z.leb_gt; lia).
  replace (x <? 0) with true by (symmetry; apply Z.ltb_lt; lia).
  replace (y <? 0) with false by (symmetry; apply Z.ltb_ge; lia).
  cbn [orb]. cbv zeta.
  rewrite (int16_id (w + x)) by (unfold INT_MIN, INT_MAX; lia).
  rewrite (u16_neg (0 + (w + x))) by lia.
  replace (0 + (w + x) + 65536) with (w + x + 65536) by lia.
  replace (W <? w + x + 65536) with true by (symmetry; apply Z.ltb_lt; lia).
  rewrite Z.sub_0_r, (u16_id W), (int16_id W) by (unfold INT_MIN, INT_MAX; lia).
  rewrite (int16_id H), (int16_id (y + h)) by (unfold INT_MIN, INT_MAX; lia).
  replace (H <? y + h) with false by (symmetry; apply Z.ltb_ge; lia).
  reflexivity.
Qed.

Lemma erase_left_of_panel_repaints_full_rows_witness :
  fillRectWithOceanBG 320 240 (-20) 100 10 1
  = [DrawFastHLine 0 100 320 (oceanColorAtY 240 100)].
Proof.
  apply (erase_left_of_panel_repaints_full_rows 320 240 (-20) 100 10 1);
    unfold INT_MIN; lia.
Defined.

(** ** The background, row by row *)

Lemma seq_split a n m : seq a (n + m) = seq a n ++ seq (a + n) m.
Proof.
  revert a. induction n as [| n IH]; intros a; simpl.
  - rewrite Nat.add_0_r. reflexivity.
  - rewrite IH. rewrite <- plus_n_Sm. reflexivity.
Qed.

Lemma map_seq_shift {A} (f : nat -> A) a n :
  map f (seq a n) = map (fun k => f (a + k)%nat) (seq 0 n).
Proof.
  revert a. induction n as [| n IH]; intros a; simpl; [reflexivity |].
  rewrite Nat.add_0_r. f_equal. rewrite (IH (S a)).
  rewrite <- seq_shift, map_map. apply map_ext. intros k.
  f_equal. lia.
Qed.

(** X29: the two loops of [drawOceanGradient] and [oceanColorAtY] agree.
    On a panel of up to 32767 rows the background is painted with exactly
    one full-width line per row, from the top row to the bottom row, and
    the colour of each line is the colour [oceanColorAtY] computes for
    that row, which is what every later erase repaints. *)
Theorem gradient_paints_each_row_once (W H : Z) :
  1 <= H <= 32767 ->
  drawOceanGradient W H
  = map (fun k => DrawFastHLine 0 (Z.of_nat k) (int16 W) (oceanColorAtY H (Z.of_nat k)))
        (seq 0 (Z.to_nat H)).
Proof.
  intros HH. pose proof (oceanMidY_below H HH) as Hmid.
  unfold drawOceanGradient. cbv zeta.
  rewrite (int16_id H) by (unfold INT_MIN, INT_MAX; lia).
  replace (Z.to_nat H) with (Z.to_nat (oceanMidY H) + Z.to_nat (H - oceanMidY H))%nat by lia.
  rewrite seq_split, map_app. f_equal.
  - apply map_ext_in. intros k Hk. apply in_seq in Hk.
    unfold oceanColorAtY. rewrite (int16_id H) by (unfold INT_MIN, INT_MAX; lia).
    replace (Z.of_nat k <? 0) with false by (symmetry; apply Z.ltb_ge; lia).
    replace (H <=? Z.of_nat k) with false by (symmetry; apply Z.leb_gt; lia).
    replace (Z.of_nat k <? oceanMidY H) with true by (symmetry; apply Z.ltb_lt; lia).
    reflexivity.
  - rewrite (map_seq_shift _ (0 + Z.to_nat (oceanMidY H))).
    apply map_ext_in. intros k Hk. apply in_seq in Hk.
    replace (Z.of_nat (0 + Z.to_nat (oceanMidY H) + k)) with (oceanMidY H + Z.of_nat k) by lia.
    unfold oceanColorAtY. rewrite (int16_id H) by (unfold INT_MIN, INT_MAX; lia).
    replace (oceanMidY H + Z.of_nat k <? 0) with false by (symmetry; apply Z.ltb_ge; lia).
    replace (H <=? oceanMidY H + Z.of_nat k) with false by (symmetry; apply Z.leb_gt; lia).
    replace (oceanMidY H + Z.of_nat k <? oceanMidY H) with false
      by (symmetry; apply Z.ltb_ge; lia).
    reflexivity.
Qed.

Lemma gradient_paints_each_row_once_witness :
  drawOceanGradient panel_W panel_H
  = map (fun k => DrawFastHLine 0 (Z.of_nat k) (int16 panel_W)
                    (oceanColorAtY panel_H (Z.of_nat k)))
        (seq 0 (Z.to_nat panel_H)).
Proof. apply (gradient_paints_each_row_once panel_W panel_H). unfold panel_H. lia. Defined.

(** ** Colour blending *)

Lemma land_mask_range x n : 0 <= n -> 0 <= Z.land x (Z.ones n) < 2 ^ n.
Proof. intros Hn. rewrite Z.land_ones by lia. apply Z.mod_pos_bound. lia. Qed.

Lemma red565_range c : 0 <= red565 c <= 31.
Proof.
  pose proof (land_mask_range (Z.shiftr c 11) 5 ltac:(lia)) as Hr. unfold red565.
  change (Z.ones 5) with 31 in Hr. change (2 ^ 5) with 32 in Hr. lia.
Qed.
Lemma green565_range c : 0 <= green565 c <= 63.
Proof.
  pose proof (land_mask_range (Z.shiftr c 5) 6 ltac:(lia)) as Hr. unfold green565.
  change (Z.ones 6) with 63 in Hr. change (2 ^ 6) with 64 in Hr. lia.
Qed.
Lemma blue565_range c : 0 <= blue565 c <= 31.
Proof.
  pose proof (land_mask_range c 5 ltac:(lia)) as Hr. unfold blue565.
  change (Z.ones 5) with 31 in Hr. change (2 ^ 5) with 32 in Hr. lia.
Qed.

Lemma lerp_channel_value a b t :
  0 <= a <= 63 -> 0 <= b <= 63 -> 0 <= t <= 255 ->
  lerp_channel a b t = (a * (255 - t) + b * t) / 255.
Proof.
  intros Ha Hb Ht. unfold lerp_channel.
  assert (0 <= a * (255 - t) <= 63 * 255) by nia.
  assert (0 <= b * t <= 63 * 255) by nia.
  assert (0 <= a * (255 - t) + b * t <= 63 * 255) by nia.
  rewrite (u16_id (a * (255 - t))), (u16_id (b * t)) by lia.
  rewrite (u16_id (a * (255 - t) + b * t)) by lia.
  apply u16_id. split; [apply Z.div_pos; lia | apply Z.div_lt_upper_bound; lia].
Qed.

Lemma lerp_channel_between a b t :
  0 <= a <= 63 -> 0 <= b <= 63 -> 0 <= t <= 255 ->
  Z.min a b <= lerp_channel a b t <= Z.max a b.
Proof.
  intros Ha Hb Ht. rewrite lerp_channel_value by assumption. split.
  - apply Z.div_le_lower_bound; [lia | nia].
  - apply Z.div_le_upper_bound; [lia | nia].
Qed.

Lemma lerp_channel_0 a b : 0 <= a <= 63 -> 0 <= b <= 63 -> lerp_channel a b 0 = a.
Proof.
  intros Ha Hb. rewrite lerp_channel_value by lia.
  replace (a * (255 - 0) + b * 0) with (a * 255) by lia. apply Z.div_mul. lia.
Qed.

Lemma lerp_channel_255 a b : 0 <= a <= 63 -> 0 <= b <= 63 -> lerp_channel a b 255 = b.
Proof.
  intros Ha Hb. rewrite lerp_channel_value by lia.
  replace (a * (255 - 255) + b * 255) with (b * 255) by lia. apply Z.div_mul. lia.
Qed.

(** Taking a colour apart and packing its channels gives the colour. *)
Lemma pack565_channels c : 0 <= c < 65536 ->
  pack565 (red565 c) (green565 c) (blue565 c) = c.
Proof.
  intros Hc.
  pose proof (all_below_spec (Z.to_nat 65536)
                (fun c => pack565 (red565 c) (green565 c) (blue565 c) =? c)
                ltac:(vm_compute; reflexivity) c) as Hall.
  rewrite Z2Nat.id in Hall by lia. apply Z.eqb_eq. apply Hall. exact Hc.
Qed.

(** Packing three channel values and taking the word apart gives the
    values. *)
Lemma channels_pack565 r g b : 0 <= r <= 31 -> 0 <= g <= 63 -> 0 <= b <= 31 ->
  red565 (pack565 r g b) = r /\ green565 (pack565 r g b) = g /\ blue565 (pack565 r g b) = b
  /\ 0 <= pack565 r g b < 65536.
Proof.
  intros Hr Hg Hb.
  pose proof (all_below_spec (Z.to_nat 65536)
                (fun n => let r := n / 2048 in let g := n / 32 mod 64 in let b := n mod 32 in
                          (red565 (pack565 r g b) =? r) && (green565 (pack565 r g b) =? g)
                          && (blue565 (pack565 r g b) =? b))
                ltac:(vm_compute; reflexivity) (r * 2048 + g * 32 + b)) as Hall.
  rewrite Z2Nat.id in Hall by lia. specialize (Hall ltac:(lia)). cbv zeta in Hall.
  assert (E1 : (r * 2048 + g * 32 + b) / 2048 = r).
  { symmetry. apply Z.div_unique with (g * 32 + b); lia. }
  assert (E2 : (r * 2048 + g * 32 + b) / 32 mod 64 = g).
  { assert (E : (r * 2048 + g * 32 + b) / 32 = r * 64 + g).
    { symmetry. apply Z.div_unique with b; lia. }
    rewrite E. symmetry. apply Z.mod_unique with r; lia. }
  assert (E3 : (r * 2048 + g * 32 + b) mod 32 = b).
  { symmetry. apply Z.mod_unique with (r * 64 + g); lia. }
  rewrite E1, E2, E3 in Hall.
  apply andb_prop in Hall. destruct Hall as [Hall H3].
  apply andb_prop in Hall. destruct Hall as [H1 H2].
  apply Z.eqb_eq in H1, H2, H3. repeat split; try assumption.
  - unfold pack565, u16. apply Z.mod_pos_bound. lia.
  - unfold pack565, u16. apply Z.mod_pos_bound. lia.
Qed.

(** X8: [lerp565] blends the three channels separately.  For every pair of
    colours and every weight, each channel of the result lies between the
    same channel of the two colours, so no channel spills into its
    neighbour; weight 0 gives the first colour and weight 255 the second. *)
Theorem lerp565_blends_each_channel (c1 c2 t : Z) :
  0 <= t <= 255 ->
  Z.min (red565 c1) (red565 c2) <= red565 (lerp565 c1 c2 t) <= Z.max (red565 c1) (red565 c2)
  /\ Z.min (green565 c1) (green565 c2) <= green565 (lerp565 c1 c2 t)
     <= Z.max (green565 c1) (green565 c2)
  /\ Z.min (blue565 c1) (blue565 c2) <= blue565 (lerp565 c1 c2 t)
     <= Z.max (blue565 c1) (blue565 c2)
  /\ 0 <= lerp565 c1 c2 t < 65536
  /\ (0 <= c1 < 65536 -> lerp565 c1 c2 0 = c1)
  /\ (0 <= c2 < 65536 -> lerp565 c1 c2 255 = c2).
Proof.
  intros Ht.
  pose proof (red565_range c1) as R1. pose proof (red565_range c2) as R2.
  pose proof (green565_range c1) as G1. pose proof (green565_range c2) as G2.
  pose proof (blue565_range c1) as B1. pose proof (blue565_range c2) as B2.
  assert (E : forall u, lerp565 c1 c2 u
              = pack565 (lerp_channel (red565 c1) (red565 c2) u)
                        (lerp_channel (green565 c1) (green565 c2) u)
                        (lerp_channel (blue565 c1) (blue565 c2) u)) by reflexivity.
  pose proof (lerp_channel_between (red565 c1) (red565 c2) t ltac:(lia) ltac:(lia) Ht) as Lr.
  pose proof (lerp_channel_between (green565 c1) (green565 c2) t ltac:(lia) ltac:(lia) Ht) as Lg.
  pose proof (lerp_channel_between (blue565 c1) (blue565 c2) t ltac:(lia) ltac:(lia) Ht) as Lb.
  destruct (channels_pack565 (lerp_channel (red565 c1) (red565 c2) t)
              (lerp_channel (green565 c1) (green565 c2) t)
              (lerp_channel (blue565 c1) (blue565 c2) t)
              ltac:(lia) ltac:(lia) ltac:(lia)) as (Er & Eg & Eb & Hrange).
  rewrite (E t), Er, Eg, Eb.
  split; [exact Lr | split; [exact Lg | split; [exact Lb | split; [exact Hrange | split]]]].
  - intros Hc. rewrite (E 0), !lerp_channel_0 by lia. apply pack565_channels. exact Hc.
  - intros Hc. rewrite (E 255), !lerp_channel_255 by lia. apply pack565_channels. exact Hc.
Qed.

Lemma lerp565_blends_each_channel_witness :
  Z.min (red565 OCEAN_TOP) (red565 OCEAN_MID) <= red565 (lerp565 OCEAN_TOP OCEAN_MID 128)
    <= Z.max (red565 OCEAN_TOP) (red565 OCEAN_MID)
  /\ Z.min (green565 OCEAN_TOP) (green565 OCEAN_MID)
     <= green565 (lerp565 OCEAN_TOP OCEAN_MID 128)
     <= Z.max (green565 OCEAN_TOP) (green565 OCEAN_MID)
  /\ Z.min (blue565 OCEAN_TOP) (blue565 OCEAN_MID) <= blue565 (lerp565 OCEAN_TOP OCEAN_MID 128)
     <= Z.max (blue565 OCEAN_TOP) (blue565 OCEAN_MID)
  /\ 0 <= lerp565 OCEAN_TOP OCEAN_MID 128 < 65536
  /\ (0 <= OCEAN_TOP < 65536 -> lerp565 OCEAN_TOP OCEAN_MID 0 = OCEAN_TOP)
  /\ (0 <= OCEAN_MID < 65536 -> lerp565 OCEAN_TOP OCEAN_MID 255 = OCEAN_MID).
Proof. apply (lerp565_blends_each_channel OCEAN_TOP OCEAN_MID 128). lia. Defined.

(** ** Environment line: fixed width *)

Lemma c_str_length s : String.length (c_str s) = strlen s.
Proof.
  induction s as [| c r IH]; simpl; [reflexivity |].
  destruct (Ascii.eqb c NUL); simpl; [reflexivity | rewrite IH; reflexivity].
Qed.

Lemma c_str_nul_free s : nul_free (c_str s).
Proof.
  induction s as [| c r IH]; simpl; [exact I |].
  destruct (Ascii.eqb c NUL) eqn:E; simpl; [exact I | split; assumption].
Qed.

Lemma c_str_char_at s : forall i, (i < strlen s)%nat -> char_at (c_str s) i = char_at s i.
Proof.
  induction s as [| c r IH]; intros i Hi; simpl in *; [lia |].
  destruct (Ascii.eqb c NUL); [lia |].
  destruct i as [| i]; [reflexivity |]. rewrite !char_at_S. apply IH. lia.
Qed.

Lemma substring_length s : forall n,
  String.length (substring 0 n s) = Nat.min n (String.length s).
Proof.
  induction s as [| c r IH]; intros n.
  - destruct n; reflexivity.
  - destruct n as [| n]; simpl; [reflexivity | rewrite IH; reflexivity].
Qed.

Lemma substring_char_at s : forall n i, (i < n)%nat ->
  char_at (substring 0 n s) i = char_at s i.
Proof.
  induction s as [| c r IH]; intros n i Hi.
  - destruct n; reflexivity.
  - destruct n as [| n]; [lia |]. simpl.
    destruct i as [| i]; [reflexivity |]. rewrite !char_at_S. apply IH. lia.
Qed.

Lemma repeat_char_length c n : String.length (repeat_char c n) = n.
Proof. induction n as [| n IH]; simpl; [reflexivity | rewrite IH; reflexivity]. Qed.

Lemma repeat_char_at c n : forall i, (i < n)%nat -> char_at (repeat_char c n) i = c.
Proof.
  induction n as [| n IH]; intros i Hi; [lia |]. simpl.
  destruct i as [| i]; [reflexivity |]. rewrite char_at_S. apply IH. lia.
Qed.

Lemma char_at_app_l a b : forall i, (i < String.length a)%nat ->
  char_at (a ++ b) i = char_at a i.
Proof.
  induction a as [| c r IH]; intros i Hi; simpl in *; [lia |].
  destruct i as [| i]; [reflexivity |]. rewrite !char_at_S. apply IH. lia.
Qed.

Lemma char_at_app_r a b : forall i, (String.length a <= i)%nat ->
  char_at (a ++ b) i = char_at b (i - String.length a).
Proof.
  induction a as [| c r IH]; intros i Hi; simpl in *.
  - rewrite Nat.sub_0_r. reflexivity.
  - destruct i as [| i]; [lia |]. rewrite char_at_S. apply IH. lia.
Qed.

(** X9: the environment line always covers the same 26 character cells.
    Whatever text it is given, [drawEnvLine] sets size, colours and cursor
    and prints one text of exactly 26 characters: the first 26 characters
    of the C string, then blanks up to the fixed width. *)
Theorem env_line_always_fills_its_cells (bg : Z) (s : string) :
  exists buf,
    drawEnvLine bg s
    = [SetTextSize ENV_TEXT_SIZE; SetTextColor COL_TEXT bg; SetCursor ENV_X ENV_Y; Print buf]
    /\ String.length buf = ENV_LINE_LEN
    /\ nul_free buf
    /\ (forall i, (i < ENV_LINE_LEN)%nat -> (i < strlen s)%nat -> char_at buf i = char_at s i)
    /\ (forall i, (i < ENV_LINE_LEN)%nat -> (strlen s <= i)%nat -> char_at buf i = " "%char).
Proof.
  unfold drawEnvLine.
  set (text := substring 0 ENV_LINE_LEN (c_str s)).
  assert (Hlen : String.length text = Nat.min ENV_LINE_LEN (strlen s)).
  { unfold text. rewrite substring_length, c_str_length. reflexivity. }
  exists (text ++ repeat_char " " (ENV_LINE_LEN - String.length text))%string.
  split; [reflexivity |]. split; [| split; [| split]].
  - rewrite string_length_app, repeat_char_length. lia.
  - apply nul_free_app.
    + unfold text. apply nul_free_substring, c_str_nul_free.
    + apply nul_free_repeat. reflexivity.
  - intros i Hi Hs. rewrite char_at_app_l by lia.
    unfold text. rewrite substring_char_at by lia. apply c_str_char_at. exact Hs.
  - intros i Hi Hs. rewrite char_at_app_r by lia. apply repeat_char_at. lia.
Qed.

(** ** Environment line: sensor failures *)

Lemma dec_digits_head n : exists d r, dec_digits n = String d r /\ d <> "-"%char.
Proof.
  unfold dec_digits. generalize (N.to_uint (Z.to_N n)) as u. intros u.
  destruct u; simpl; eexists _, _; (split; [reflexivity | discriminate]).
Qed.

Lemma no_dash_pair_fmt_s w s : no_dash_pair s -> no_dash_pair (fmt_s w s).
Proof.
  intros [Hl Hc]. unfold fmt_s.
  destruct (w - String.length s)%nat as [| k]; [split; assumption |].
  split.
  - rewrite string_length_app. simpl. lia.
  - left. simpl. rewrite char_at_0. discriminate.
Qed.

Lemma no_dash_pair_number (neg : bool) (ds tail : string) d r :
  ds = String d r -> d <> "-"%char ->
  no_dash_pair ((if neg then "-" else "") ++ ds ++ "." ++ tail)%string.
Proof.
  intros -> Hd.
  destruct neg; cbn [append]; (split; [cbn [String.length]; rewrite string_length_app; cbn [String.length]; lia |]).
  - right. rewrite char_at_S, char_at_0. exact Hd.
  - left. rewrite char_at_0. exact Hd.
Qed.

(** What [dtostrf] writes for a reading that is not NaN never starts with
    two dashes. *)
Lemma no_dash_pair_dtostrf v w : isnan v = false -> no_dash_pair (dtostrf v w 1).
Proof.
  intros Hv. unfold dtostrf. apply no_dash_pair_fmt_s.
  destruct v as [neg | neg | | neg m e]; try discriminate Hv.
  - destruct neg; (split; [vm_compute; lia |]);
      [right | left]; vm_compute; discriminate.
  - destruct neg; (split; [vm_compute; lia |]);
      [right | left]; vm_compute; discriminate.
  - cbn [Nat.eqb].
    destruct (dec_digits_head (scaled_round m e 1 / 10 ^ Z.of_nat 1)) as (d & r & E & Hd).
    apply (no_dash_pair_number neg _ _ d r E Hd).
Qed.

Lemma nul_free_fmt_s w s : nul_free s -> nul_free (fmt_s w s).
Proof.
  intros Hs. unfold fmt_s. apply nul_free_app; [apply nul_free_repeat; reflexivity | exact Hs].
Qed.

Lemma nul_free_dtostrf v w prec : nul_free (dtostrf v w prec).
Proof.
  unfold dtostrf. apply nul_free_fmt_s.
  assert (Hb : forall (neg : bool) (q : Z),
    nul_free ((if neg then "-" else "") ++ dec_digits (q / 10 ^ Z.of_nat prec)
              ++ (if Nat.eqb prec 0 then "" else "." ++ fmt_d0 prec (q mod 10 ^ Z.of_nat prec)))%string).
  { intros neg q. apply nul_free_app; [destruct neg; simpl; auto |].
    apply nul_free_app; [apply nul_free_dec_digits |].
    destruct (Nat.eqb prec 0); [exact I |].
    apply nul_free_app; [simpl; auto | apply nul_free_fmt_d0]. }
  destruct v as [neg | neg | | neg m e].
  - apply Hb.
  - destruct neg; simpl; auto 10.
  - simpl; auto 10.
  - apply Hb.
Qed.

Lemma nul_free_envText t h : nul_free (envText t h).
Proof.
  unfold envText, snprintf. apply nul_free_substring.
  repeat (apply nul_free_app;
          [first [apply nul_free_fmt_s, nul_free_dtostrf | solve [simpl; auto 10]] |]).
  simpl; auto.
Qed.

(** The line composed for a valid reading differs from the placeholder
    within the compared width. *)
Lemma envText_not_placeholder t h : isnan t = false ->
  substring 0 ENV_LINE_LEN (c_str (envText t h)) <> "TEMP --.- C   HUM -- %".
Proof.
  intros Vt Heq.
  rewrite nul_free_c_str in Heq by apply nul_free_envText.
  destruct (no_dash_pair_fmt_s 4 _ (no_dash_pair_dtostrf t 4 Vt)) as [Hl Hc].
  assert (H5 : char_at (substring 0 ENV_LINE_LEN (envText t h)) 5
               = char_at (fmt_s 4 (dtostrf t 4 1)) 0).
  { unfold ENV_LINE_LEN. rewrite substring_char_at by lia.
    unfold envText, snprintf, ENV_LINE_LEN. rewrite substring_char_at by lia.
    cbn [append]. rewrite !char_at_S. apply char_at_app_l. lia. }
  assert (H6 : char_at (substring 0 ENV_LINE_LEN (envText t h)) 6
               = char_at (fmt_s 4 (dtostrf t 4 1)) 1).
  { unfold ENV_LINE_LEN. rewrite substring_char_at by lia.
    unfold envText, snprintf, ENV_LINE_LEN. rewrite substring_char_at by lia.
    cbn [append]. rewrite !char_at_S. apply char_at_app_l. lia. }
  rewrite Heq in H5, H6.
  destruct Hc as [Hc | Hc]; apply Hc; [rewrite <- H5 | rewrite <- H6]; reflexivity.
Qed.

Lemma updateEnv_failed bg ms h t es :
  ENV_INTERVAL <= u32 (ms - lastEnvRead es) -> isnan h = true \/ isnan t = true ->
  updateEnv bg ms h t es
  = if strncmp_ne envPlaceholder (lastEnvStr es) ENV_LINE_LEN
    then (mkEnvState ms (strncpy envPlaceholder ENV_LINE_LEN) (lastT es) (lastH es),
          drawEnvLine bg envPlaceholder)
    else (mkEnvState ms (lastEnvStr es) (lastT es) (lastH es), []).
Proof.
  intros Hi Hn. unfold updateEnv.
  replace (u32 (ms - lastEnvRead es) <? ENV_INTERVAL) with false
    by (symmetry; apply Z.ltb_ge; exact Hi).
  cbn [lastEnvRead lastEnvStr lastT lastH].
  assert (E : negb (isnan h) && negb (isnan t) = false)
    by (destruct Hn as [-> | ->]; [reflexivity | apply andb_false_r]).
  rewrite E. reflexivity.
Qed.

(** ** Digit masks of the shadow state *)

Section DigitMasks.

Variables W H : Z.
Variable p : SegParams.
Variable lay : Layout.

Lemma drawTimeDigit_masks cur prev masks ops i :
  fst (drawTimeDigit W H p lay cur prev (masks, ops) i) = mask_step cur prev masks i.
Proof.
  unfold drawTimeDigit, mask_step.
  destruct (Nat.eqb i 2 || Nat.eqb i 5); [reflexivity |].
  destruct (Ascii.eqb (char_at cur i) (char_at prev i)); [reflexivity |].
  fold (mask_of_char (char_at cur i)).
  match goal with |- context [if ?b then _ else _] =>
    match b with (_ || _ || _ || _)%bool => destruct b end end; reflexivity.
Qed.

Lemma drawTimeDigits_fold_masks cur prev l : forall masks ops,
  fst (fold_left (drawTimeDigit W H p lay cur prev) l (masks, ops))
  = fold_left (mask_step cur prev) l masks.
Proof.
  induction l as [| i l IH]; intros masks ops; [reflexivity |].
  cbn [fold_left].
  pose proof (drawTimeDigit_masks cur prev masks ops i) as E.
  destruct (drawTimeDigit W H p lay cur prev (masks, ops) i) as [m1 o1].
  cbn [fst] in E. subst m1. apply IH.
Qed.

Lemma mask_steps_match cur prev masks :
  masks_match prev masks ->
  masks_match cur (fold_left (mask_step cur prev) (seq 0 8) masks).
Proof.
  unfold masks_match, digit_positions. intros ->. cbn [map seq fold_left].
  unfold mask_step. cbn [Nat.eqb Nat.ltb Nat.leb orb Nat.sub].
  repeat match goal with
         | |- context [Ascii.eqb (char_at cur ?i) (char_at prev ?i)] =>
             let E := fresh "E" in
             destruct (Ascii.eqb (char_at cur i) (char_at prev i)) eqn:E;
             [apply Ascii.eqb_eq in E; rewrite <- ?E | clear E];
             cbn [array_set]
         end;
    reflexivity.
Qed.

Lemma drawTimeDigits_masks c sh :
  masks_match (prevTimeStr sh) (prevDigitMask sh) ->
  masks_match (timeText c) (prevDigitMask (fst (drawTimeDigits W H p lay c sh))).
Proof.
  intros Hm. unfold drawTimeDigits.
  pose proof (drawTimeDigits_fold_masks (timeText c) (prevTimeStr sh) (seq 0 8)
                (prevDigitMask sh) []) as E.
  destruct (fold_left _ (seq 0 8) (prevDigitMask sh, [])) as [masks ops].
  cbn [fst prevDigitMask] in *. subst masks.
  apply mask_steps_match. exact Hm.
Qed.

End DigitMasks.

(** X12: the digit masks of the shadow state follow the text.  If the six
    masks are those of the digits of the remembered time text, then after
    [drawTimeDigits] they are those of the digits of the text just drawn,
    whichever digits changed.  The initial shadow state and the one
    [forceRedrawAll] starts from both satisfy the condition, with all
    masks zero. *)
Theorem digit_masks_follow_the_text (W H : Z) (p : SegParams) (lay : Layout)
    (c : ClockTime) (sh : Shadow) :
  masks_match (prevTimeStr sh) (prevDigitMask sh) ->
  masks_match (timeText c) (prevDigitMask (fst (drawTimeDigits W H p lay c sh)))
  /\ prevTimeStr (fst (drawTimeDigits W H p lay c sh)) = timeText c
  /\ masks_match (prevTimeStr Shadow_init) (prevDigitMask Shadow_init)
  /\ masks_match "" [0; 0; 0; 0; 0; 0].
Proof.
  intros Hm. split; [| split; [| split]].
  - apply (drawTimeDigits_masks W H p lay c sh Hm).
  - apply (drawTimeDigits_stores W H p lay c sh).
  - reflexivity.
  - reflexivity.
Qed.

Lemma digit_masks_follow_the_text_witness :
  masks_match "12:34:56"
    (prevDigitMask (fst (drawTimeDigits panel_W panel_H panel_params panel_layout
                           (mkClockTime 0 0 0 12 34 56 false true) Shadow_init)))
  /\ prevDigitMask (fst (drawTimeDigits panel_W panel_H panel_params panel_layout
                           (mkClockTime 0 0 0 12 34 56 false true) Shadow_init))
     = [0x06; 0x5B; 0x4F; 0x66; 0x6D; 0x7D].
Proof.
  split.
  - apply (digit_masks_follow_the_text panel_W panel_H panel_params panel_layout
             (mkClockTime 0 0 0 12 34 56 false true) Shadow_init).
    reflexivity.
  - vm_compute. reflexivity.
Defined.

(** ** Pulsing colons *)

(** The literal [3.1415926f]: no binary32 value is nearer to 3.1415926
    than [13176794 * 2^-22]. *)
Example F_PI_is_nearest :
  2 * Z.abs (31415926 * 2 ^ 22 - 13176794 * 10 ^ 7) < 10 ^ 7.
Proof. vm_compute. reflexivity. Qed.

Lemma u8_range x : 0 <= u8 x <= 255.
Proof. unfold u8. pose proof (Z.mod_pos_bound x (2 ^ 8) ltac:(lia)). lia. Qed.

(** X27: the colon pulse only moves the green channel, within its two end
    colours.  Whatever [cosf] returns, [updateColonPulse] draws the four
    colon dots in one colour whose red channel is 0, whose blue channel is
    full and whose green channel lies between those of the dim and the
    bright colon colour.  If [cosf] is exact at 0 and at the argument half
    a second gives, the dots are at their dimmest at the start of a second
    and at their brightest half a second later. *)
Theorem colon_pulse_stays_between_its_colours
    (cosf : float -> float) (p : SegParams) (lay : Layout) (ms last : Z) :
  exists col,
    updateColonPulse cosf p lay ms last
    = [FillCircle (elem (COLON_X lay) 0) (COLON_Y lay) (Z.quot (SEG_THICK p) 2 + 1) col;
       FillCircle (elem (COLON_X lay) 0) (COLON_Y lay + SEG_VLEN p)
                  (Z.quot (SEG_THICK p) 2 + 1) col;
       FillCircle (elem (COLON_X lay) 1) (COLON_Y lay) (Z.quot (SEG_THICK p) 2 + 1) col;
       FillCircle (elem (COLON_X lay) 1) (COLON_Y lay + SEG_VLEN p)
                  (Z.quot (SEG_THICK p) 2 + 1) col]
    /\ red565 col = 0 /\ blue565 col = 31
    /\ green565 COL_GLOW_DIM <= green565 col <= green565 COL_GLOW
    /\ (cosf (S754_zero false) = F_1 -> u32 (ms - last) = 0 -> col = COL_GLOW_DIM)
    /\ (cosf F_PI = SFopp F_1 -> u32 last <= u32 ms -> u32 (ms - last) = 500 ->
        col = COL_GLOW).
Proof.
  exists (lerp565 COL_GLOW_DIM COL_GLOW (pulseWeight cosf ms last)).
  split; [reflexivity |].
  assert (Ht : 0 <= pulseWeight cosf ms last <= 255) by apply u8_range.
  set (t := pulseWeight cosf ms last) in *.
  assert (Epack : lerp565 COL_GLOW_DIM COL_GLOW t
                  = pack565 (lerp_channel 0 0 t) (lerp_channel 18 63 t) (lerp_channel 31 31 t)).
  { unfold lerp565, pack565. cbv zeta.
    replace (Z.land (Z.shiftr COL_GLOW_DIM 11) 31) with 0 by (vm_compute; reflexivity).
    replace (Z.land (Z.shiftr COL_GLOW 11) 31) with 0 by (vm_compute; reflexivity).
    replace (Z.land (Z.shiftr COL_GLOW_DIM 5) 63) with 18 by (vm_compute; reflexivity).
    replace (Z.land (Z.shiftr COL_GLOW 5) 63) with 63 by (vm_compute; reflexivity).
    replace (Z.land COL_GLOW_DIM 31) with 31 by (vm_compute; reflexivity).
    replace (Z.land COL_GLOW 31) with 31 by (vm_compute; reflexivity).
    reflexivity. }
  rewrite Epack.
  replace (green565 COL_GLOW_DIM) with 18 by (vm_compute; reflexivity).
  replace (green565 COL_GLOW) with 63 by (vm_compute; reflexivity).
  pose proof (lerp_channel_between 0 0 t ltac:(lia) ltac:(lia) Ht) as Lr.
  pose proof (lerp_channel_between 18 63 t ltac:(lia) ltac:(lia) Ht) as Lg.
  pose proof (lerp_channel_between 31 31 t ltac:(lia) ltac:(lia) Ht) as Lb.
  destruct (channels_pack565 (lerp_channel 0 0 t) (lerp_channel 18 63 t) (lerp_channel 31 31 t)
              ltac:(lia) ltac:(lia) ltac:(lia)) as (Er & Eg & Eb & _).
  rewrite Er, Eg, Eb.
  split; [lia | split; [lia | split; [lia | split]]].
  - intros Hcos Hz.
    assert (E : pulseWeight cosf ms last = 0).
    { unfold pulseWeight. rewrite Hz.
      replace (if u32 last <=? u32 ms then 0 else 0) with 0 by (destruct (_ <=? _); reflexivity).
      cbv zeta. change (if 999 <? 0 then 999 else 0) with 0.
      assert (Earg : f32_mul (f32_mul F_2 F_PI) (f32_div (f32_of_Z 0) F_1000)
                     = S754_zero false) by (vm_compute; reflexivity).
      rewrite Earg, Hcos. vm_compute. reflexivity. }
    rewrite <- Epack. unfold t. rewrite E. vm_compute. reflexivity.
  - intros Hcos Hle Hz.
    assert (E : pulseWeight cosf ms last = 255).
    { unfold pulseWeight. rewrite Hz.
      replace (u32 last <=? u32 ms) with true by (symmetry; apply Z.leb_le; exact Hle).
      cbv zeta. change (if 999 <? 500 then 999 else 500) with 500.
      assert (Earg : f32_mul (f32_mul F_2 F_PI) (f32_div (f32_of_Z 500) F_1000) = F_PI)
        by (vm_compute; reflexivity).
      rewrite Earg, Hcos. vm_compute. reflexivity. }
    rewrite <- Epack. unfold t. rewrite E. vm_compute. reflexivity.
Qed.

Lemma colon_pulse_stays_between_its_colours_witness :
  updateColonPulse (fun x => match x with S754_zero _ => F_1 | _ => SFopp F_1 end)
    panel_params panel_layout 1000 1000
  = drawColonColor panel_params panel_layout COL_GLOW_DIM
  /\ updateColonPulse (fun x => match x with S754_zero _ => F_1 | _ => SFopp F_1 end)
       panel_params panel_layout 1500 1000
     = drawColonColor panel_params panel_layout COL_GLOW.
Proof.
  split.
  - destruct (colon_pulse_stays_between_its_colours
                (fun x => match x with S754_zero _ => F_1 | _ => SFopp F_1 end)
                panel_params panel_layout 1000 1000) as (col & E & _ & _ & _ & Hdim & _).
    rewrite E, (Hdim eq_refl eq_refl). reflexivity.
  - destruct (colon_pulse_stays_between_its_colours
                (fun x => match x with S754_zero _ => F_1 | _ => SFopp F_1 end)
                panel_params panel_layout 1500 1000) as (col & E & _ & _ & _ & _ & Hglow).
    rewrite E, (Hglow eq_refl ltac:(vm_compute; discriminate) eq_refl). reflexivity.
Defined.

(** ** One pass through [loop] *)

Lemma dateText_same c c' :
  hasDate c' = hasDate c -> year c' = year c -> month c' = month c -> day c' = day c ->
  dateText c' = dateText c.
Proof. intros E1 E2 E3 E4. unfold dateText. rewrite E1, E2, E3, E4. reflexivity. Qed.

Section InStep.

Variables W H : Z.
Variable p : SegParams.
Variable lay : Layout.
Variable textWidth : string -> Z.

(** One second of the catch-up loop keeps the shadow state in step. *)
Lemma secondStep_in_step c sh c' sh' o :
  time_ok c -> masks_match (prevTimeStr sh) (prevDigitMask sh) ->
  strcmp_ne (dateText c) (prevDateStr sh) = false ->
  secondStep W H p lay textWidth c sh = Some (c', sh', o) ->
  time_ok c' /\ shadow_in_step c' sh'.
Proof.
  intros Hok Hm Hd Hs. unfold secondStep in Hs.
  destruct (tickOneSecond c) as [c1 |] eqn:Ht; [| discriminate Hs].
  pose proof (tick_keeps_time_ok c c1 Hok Ht) as Hok1.
  pose proof (drawTimeDigits_stores W H p lay c1 sh) as S1.
  pose proof (drawTimeDigits_masks W H p lay c1 sh Hm) as M1.
  destruct (drawTimeDigits W H p lay c1 sh) as [sh1 o1].
  pose proof (drawSecondsBarFill_stores W H (second c1) sh1) as S2.
  destruct (drawSecondsBarFill W H (second c1) sh1) as [sh2 o2].
  cbn [fst] in *.
  destruct S1 as (T1 & D1 & _), S2 as (F2 & T2 & D2 & M2 & _).
  destruct ((hour c1 =? 0) && (minute c1 =? 0) && (second c1 =? 0)) eqn:Emid.
  - pose proof (drawDateLine_stores W H textWidth c1 sh2) as S3.
    destruct (drawDateLine W H textWidth c1 sh2) as [sh3 o3].
    cbn [fst] in *. destruct S3 as (D3 & T3 & M3 & F3 & B3).
    injection Hs as <- <- _. split; [exact Hok1 |].
    unfold shadow_in_step. rewrite T3, M3, F3, B3, T2, M2.
    repeat split; assumption.
  - injection Hs as <- <- _. split; [exact Hok1 |].
    unfold shadow_in_step. rewrite T2, M2, D2, D1.
    assert (Hn : secs_of_day c1 <> 0).
    { unfold secs_of_day. destruct Hok1 as (Hh & Hmi & Hse). intros Hz.
      assert (E : hour c1 = 0 /\ minute c1 = 0 /\ second c1 = 0) by lia.
      destruct E as (E1 & E2 & E3). rewrite E1, E2, E3 in Emid. discriminate Emid. }
    destruct (tick_date_only_at_midnight c c1 Hok Ht Hn) as (Ey & Emo & Eday).
    rewrite (dateText_same c c1 (tick_keeps_hasDate c c1 Ht) Ey Emo Eday).
    repeat split; assumption.
Qed.

(** A forced full repaint puts the shadow state in step with the clock. *)
Lemma forceRedrawAll_in_step bg c sh :
  shadow_in_step c (fst (forceRedrawAll W H p lay textWidth bg c sh)).
Proof.
  unfold forceRedrawAll.
  set (sh0 := mkShadow "" "" [0; 0; 0; 0; 0; 0] (-1) (barY sh) (barW sh)).
  pose proof (drawTimeDigits_stores W H p lay c sh0) as S1.
  pose proof (drawTimeDigits_masks W H p lay c sh0 eq_refl) as M1.
  destruct (drawTimeDigits W H p lay c sh0) as [sh1 o1].
  pose proof (drawDateLine_stores W H textWidth c sh1) as S2.
  destruct (drawDateLine W H textWidth c sh1) as [sh2 o2].
  unfold drawSecondsBarFrameOnce.
  set (sh3 := mkShadow (prevTimeStr sh2) (prevDateStr sh2) (prevDigitMask sh2)
                       (prevFillW sh2) (int16 (u16 (H - 26))) (int16 (u16 (W - 20)))).
  pose proof (drawSecondsBarFill_stores W H (second c) sh3) as S3.
  destruct (drawSecondsBarFill W H (second c) sh3) as [sh4 o4].
  cbn [fst] in *.
  destruct S1 as (T1 & _), S2 as (D2 & T2 & M2 & _), S3 as (F4 & T4 & D4 & M4 & _).
  subst sh3. cbn [prevTimeStr prevDateStr prevDigitMask] in T4, D4, M4.
  unfold shadow_in_step. rewrite T4, M4, D4, T2, M2.
  repeat split; assumption.
Qed.

(** The catch-up loop returns, and keeps what every second keeps. *)
Lemma catchUp_invariant (Inv : ClockTime -> Shadow -> Prop) :
  (forall c sh, Inv c sh ->
     exists c' sh' o, secondStep W H p lay textWidth c sh = Some (c', sh', o) /\ Inv c' sh') ->
  forall ms n last c sh ops,
    (Z.to_nat (u32 (ms - last)) < n)%nat -> Inv c sh ->
    exists last' c' sh' ops',
      catchUp W H p lay textWidth ms last c sh ops = Some (last', c', sh', ops')
      /\ Inv c' sh' /\ (last' = last \/ 0 <= last' < 2 ^ 32).
Proof.
  intros Hstep ms n. induction n as [| n IH]; intros last c sh ops Hn Hi; [lia |].
  destruct (Z_lt_ge_dec (u32 (ms - last)) 1000) as [Hlt | Hge].
  - rewrite catchUp_done by assumption. exists last, c, sh, ops. auto.
  - rewrite catchUp_step by lia.
    destruct (Hstep c sh Hi) as (c1 & sh1 & o1 & -> & Hi1).
    destruct (IH (u32 (last + 1000)) c1 sh1 (ops ++ o1)) as (l' & c' & sh' & ops' & E & Hi' & Hl').
    + rewrite u32_elapsed_step by lia. pose proof (u32_range (ms - last)). lia.
    + exact Hi1.
    + exists l', c', sh', ops'. split; [exact E | split; [exact Hi' |]].
      right. destruct Hl' as [-> | Hl']; [| exact Hl'].
      pose proof (u32_range (last + 1000)). change (2 ^ 32) with 4294967296. lia.
Qed.

End InStep.

(** The animation block only draws: clock, shadow state, tick reference,
    repaint flag, status and link are left as they are. *)
Lemma animPhase_sketch p lay bg cosf ms msEnv h t ls :
  let st' := sketch (animPhase p lay bg cosf ms msEnv h t ls) in
  ct st' = ct (sketch ls) /\ shadow st' = shadow (sketch ls)
  /\ lastTickMs st' = lastTickMs (sketch ls) /\ repaintAll st' = repaintAll (sketch ls)
  /\ lastStatus st' = lastStatus (sketch ls) /\ bt st' = bt (sketch ls).
Proof.
  unfold animPhase. destruct (30 <=? u32 (ms - subAnimMs ls)); [| cbn; auto 10].
  destruct (updateEnv bg msEnv h t (env ls)) as [es o2]. cbn. auto 10.
Qed.

(** A pass through [loop] returns and keeps the invariant. *)
Lemma loopPass_keeps_invariant
    (W H : Z) (p : SegParams) (lay : Layout) (textWidth : string -> Z) (bg : Z)
    (cosf : float -> float)
    (now ms msEnv : Z) (rx : list ascii) (h t : float) (ls : LoopState) :
  loop_invariant (sketch ls) -> 0 <= now < 2 ^ 32 ->
  exists ls' rest,
    loopPass W H p lay textWidth bg cosf now ms msEnv rx h t ls = Some (ls', rest)
    /\ loop_invariant (sketch ls').
Proof.
  intros (Hr & Hrep & Hl & Hin) Hnow. unfold loopPass.
  pose proof (serialPhase_reachable W now rx (sketch ls) Hr) as Hr1.
  assert (H1 : let st1 := fst (serialPhase W now rx (sketch ls)) in
               0 <= lastTickMs st1 < 2 ^ 32
               /\ (repaintAll st1 = true \/ shadow_in_step (ct st1) (shadow st1))).
  { unfold serialPhase. destruct rx as [| b rx']; [cbn; auto |].
    destruct (readLine (b :: rx') "") as [str_in rest0].
    destruct (0 <? Z.of_nat (String.length str_in)); [| cbn; auto].
    destruct (parseTime str_in) as [parsed |]; cbn; auto. }
  destruct (serialPhase W now rx (sketch ls)) as [st1 rest]. cbn [fst] in *.
  destruct H1 as (Hl1 & Hs1).
  pose proof (animPhase_sketch p lay bg cosf ms msEnv h t
                (mkLoopState st1 (subAnimMs ls) (env ls))) as Ha.
  cbv zeta in Ha. cbn [sketch] in Ha.
  set (ls2 := animPhase p lay bg cosf ms msEnv h t (mkLoopState st1 (subAnimMs ls) (env ls)))
    in *.
  destruct Ha as (Act & Ash & Alast & Arep & _ & _).
  assert (H3 : exists st3, clockPhase W H p lay textWidth ms (sketch ls2) = Some st3
               /\ reachable (ct st3) /\ repaintAll st3 = repaintAll st1
               /\ 0 <= lastTickMs st3 < 2 ^ 32
               /\ (repaintAll st1 = true \/ shadow_in_step (ct st3) (shadow st3))).
  { unfold clockPhase. rewrite Act, Ash, Alast, Arep.
    destruct (isSet (ct st1)) eqn:Hset.
    - destruct (catchUp_invariant W H p lay textWidth
                  (fun c sh => reachable c /\ isSet c = true
                               /\ (repaintAll st1 = true \/ shadow_in_step c sh)))
        with (ms := ms) (n := S (Z.to_nat (u32 (ms - lastTickMs st1))))
             (last := lastTickMs st1) (c := ct st1) (sh := shadow st1) (ops := @nil TftOp)
        as (l' & c' & sh' & ops' & E & (Rc & _ & Sc) & Hl').
      + intros c sh (Rc & Sc & Hc).
        destruct (tick_defined c (reachable_month c Rc)) as (c1 & Hc1).
        pose proof (secondStep_clock W H p lay textWidth c sh) as Hss.
        destruct (secondStep W H p lay textWidth c sh) as [[[c2 sh2] o2] |] eqn:Es;
          [| congruence].
        cbn [fst] in Hss. exists c2, sh2, o2. split; [reflexivity |].
        split; [apply (reach_tick c c2); assumption |].
        split; [destruct (tick_date_cases c c2 Hss) as (_ & -> & _); exact Sc |].
        destruct Hc as [Hc | (Tc & Mc & Dc & Fc)]; [left; exact Hc | right].
        apply (secondStep_in_step W H p lay textWidth c sh c2 sh2 o2);
          [apply reachable_time_ok; exact Rc | rewrite Tc; exact Mc | exact Dc | exact Es].
      + lia.
      + auto.
      + rewrite E. eexists. split; [reflexivity |].
        cbn [ct shadow lastTickMs repaintAll].
        split; [exact Rc | split; [reflexivity | split; [| exact Sc]]].
        destruct Hl' as [-> | Hl']; assumption.
    - exists (sketch ls2). split; [reflexivity |].
      rewrite Act, Ash, Alast, Arep. auto. }
  destruct H3 as (st3 & -> & R3 & Rep3 & L3 & S3).
  eexists _, rest. split; [reflexivity |]. cbn [sketch].
  unfold loop_invariant, repaintPhase.
  destruct (repaintAll st3) eqn:Erep.
  - pose proof (forceRedrawAll_in_step W H p lay textWidth bg (ct st3) (shadow st3)) as F.
    destruct (forceRedrawAll W H p lay textWidth bg (ct st3) (shadow st3)) as [sh ops].
    cbn [fst ct shadow lastTickMs repaintAll] in *. auto.
  - destruct S3 as [S3 | S3]; [congruence |]. auto.
Qed.

(** X13: every pass through [loop] returns and leaves the display in step
    with the clock.  If, before a pass, the clock holds a value the sketch
    can reach, no repaint is pending and the shadow state describes the
    clock (time text, digit masks, date text, bar width), then the same
    holds after the pass, whatever arrives on the link, whatever the
    sensor and [cosf] return and however many seconds have to be caught
    up. *)
Theorem loop_keeps_display_in_step
    (W H : Z) (p : SegParams) (lay : Layout) (textWidth : string -> Z) (bg : Z)
    (cosf : float -> float)
    (now ms msEnv : Z) (rx : list ascii) (h t : float) (ls : LoopState) :
  loop_invariant (sketch ls) -> 0 <= now < 2 ^ 32 ->
  exists ls' rest,
    loopPass W H p lay textWidth bg cosf now ms msEnv rx h t ls = Some (ls', rest)
    /\ loop_invariant (sketch ls').
Proof.
  intros Hinv Hnow.
  destruct (loopPass_keeps_invariant W H p lay textWidth bg cosf now ms msEnv rx h t ls
              Hinv Hnow) as (ls' & rest & E & Hinv').
  exists ls', rest. split; [exact E | exact Hinv'].
Qed.

Lemma loop_keeps_display_in_step_witness :
  exists ls' rest,
    loopPass panel_W panel_H panel_params panel_layout panel_textWidth 0 (fun _ => F_1)
      0 2500 2500 (list_ascii_of_string "12:34:56") hum_50 temp_24_0
      (mkLoopState
         (mkSketch ClockTime_init
            (fst (forceRedrawAll panel_W panel_H panel_params panel_layout panel_textWidth 0
                    ClockTime_init Shadow_init))
            0 false "Waiting for time" [] "")
         0 EnvState_init)
    = Some (ls', rest)
    /\ loop_invariant (sketch ls').
Proof.
  apply loop_keeps_display_in_step.
  - split; [apply reach_startup |]. split; [reflexivity |].
    split; [cbn; lia |].
    apply forceRedrawAll_in_step.
  - lia.
Defined.

(** ** From start-up on *)

Lemma loopRun_keeps_invariant W H p lay textWidth bg cosf inputs : forall pending ls,
  Forall (fun i => 0 <= pass_now i < 2 ^ 32) inputs ->
  loop_invariant (sketch ls) ->
  exists ls' pending',
    loopRun W H p lay textWidth bg cosf inputs pending ls = Some (ls', pending')
    /\ loop_invariant (sketch ls').
Proof.
  induction inputs as [| i more IH]; intros pending ls Hin Hinv.
  - exists ls, pending. split; [reflexivity | exact Hinv].
  - cbn [loopRun].
    destruct (loopPass_keeps_invariant W H p lay textWidth bg cosf (pass_now i) (pass_ms i)
                (pass_msEnv i) (pending ++ arrived i) (sensor_h i) (sensor_t i) ls Hinv
                (Forall_inv Hin)) as (ls1 & rest & -> & Hinv1).
    apply IH; [exact (Forall_inv_tail Hin) | exact Hinv1].
Qed.

(** X28: from start-up on, the display is in step with the clock.  On any
    panel, the state [setup] leaves has the shadow state describing the
    clock, and after any number of passes through [loop], whatever arrives
    on the link and whatever the sensor and [cosf] return, every pass has
    returned and the shadow state (time text, digit masks, date text,
    width of the seconds bar) still describes the clock, with no repaint
    pending. *)
Theorem display_in_step_from_setup
    (W H : Z) (textWidth : string -> Z) (cosf : float -> float) (now : Z)
    (inputs : list PassInput) :
  0 <= now < 2 ^ 32 ->
  Forall (fun i => 0 <= pass_now i < 2 ^ 32) inputs ->
  let s := setup W H textWidth now in
  loop_invariant (sketch (state s))
  /\ exists ls' pending,
       loopRun W H (seg s) (layout s) textWidth (env_bg s) cosf inputs [] (state s)
       = Some (ls', pending)
       /\ loop_invariant (sketch ls').
Proof.
  intros Hnow Hin. cbv zeta.
  assert (Hinv : loop_invariant (sketch (state (setup W H textWidth now)))).
  { unfold setup.
    pose proof (forceRedrawAll_in_step W H (autoSizeToFit W SegParams_init)
                  (setupLayout W (autoSizeToFit W SegParams_init)) textWidth
                  (oceanColorAtY H ENV_Y) (ct Sketch_init) (shadow Sketch_init)) as F.
    destruct (forceRedrawAll W H (autoSizeToFit W SegParams_init)
                (setupLayout W (autoSizeToFit W SegParams_init)) textWidth
                (oceanColorAtY H ENV_Y) (ct Sketch_init) (shadow Sketch_init)) as [sh o3].
    cbn [fst state sketch] in *.
    split; [apply reach_startup | split; [reflexivity | split; [exact Hnow | exact F]]]. }
  split; [exact Hinv |].
  apply loopRun_keeps_invariant; assumption.
Qed.

Lemma display_in_step_from_setup_witness :
  let s := setup panel_W panel_H panel_textWidth 0 in
  loop_invariant (sketch (state s))
  /\ exists ls' pending,
       loopRun panel_W panel_H (seg s) (layout s) panel_textWidth (env_bg s) (fun _ => F_1)
         [mkPassInput 1000 1000 1000 (list_ascii_of_string "23:59:58" ++ [LF]) hum_50 temp_24_0;
          mkPassInput 3500 3500 3500 [] hum_50 temp_24_0]
         [] (state s)
       = Some (ls', pending)
       /\ loop_invariant (sketch ls').
Proof.
  apply (display_in_step_from_setup panel_W panel_H panel_textWidth (fun _ => F_1) 0).
  - lia.
  - repeat constructor; cbn; lia.
Defined.

(** The run of the example: the line is accepted in the first pass; the
    second pass, 2500 ms later, catches up two seconds and ends on
    00:00:00. *)
Example run_after_setup :
  option_map (fun r => ct (sketch (fst r)))
    (loopRun panel_W panel_H panel_params panel_layout panel_textWidth
       (oceanColorAtY panel_H ENV_Y) (fun _ => F_1)
       [mkPassInput 1000 1000 1000 (list_ascii_of_string "23:59:58" ++ [LF]) hum_50 temp_24_0;
        mkPassInput 3500 3500 3500 [] hum_50 temp_24_0]
       [] (state (setup panel_W panel_H panel_textWidth 0)))
  = Some (mkClockTime 0 0 0 0 0 0 false true).
Proof. vm_compute. reflexivity. Qed.

(** ** Layout of the digit row *)

(** From 200 pixels on, the shrinking loop always ends with a row that
    fits between the margins. *)
Lemma autoSize_fits W : 200 <= W <= 32767 ->
  shrunk (autoSizeToFit W SegParams_init)
  /\ totalRowWidth (autoSizeToFit W SegParams_init) <= W - 2 * MARGIN.
Proof.
  intros HW. unfold autoSizeToFit.
  destruct (autoSizeLoop_outcome W 200 SegParams_init shrunk_init) as (R1 & R2 & _).
  revert R1 R2. generalize (autoSizeLoop 200 W SegParams_init) as r. intros r R1 R2.
  assert (E31 : slack SegParams_init = 31) by reflexivity.
  rewrite E31 in R2.
  assert (Hsl : 0 <= slack r).
  { clear R2. destruct r. unfold_mins. lia. }
  split; [assumption |].
  pose proof (shrunk_row_width _ R1) as Hw.
  destruct R2 as [R2 | [R2 | R2]]; [| | lia].
  - unfold rowFits in R2. apply Z.leb_le in R2. unfold MARGIN in *.
    rewrite !u16_id in R2 by lia. lia.
  - destruct r as [th len hgap vlen cw sp]. unfold_mins.
    destruct R1 as (_ & _ & _ & _ & _ & Hg). destruct R2 as (-> & -> & -> & -> & ->).
    subst hgap. unfold MARGIN. cbn. lia.
Qed.

(** The geometry and the positions [setup] works with on such a panel:
    [x0] is where the row starts. *)
Lemma setup_row W : 200 <= W <= 32767 ->
  exists th len vlen cw sp x0,
    autoSizeToFit W SegParams_init = mkSegParams th len 7 vlen cw sp
    /\ 4 <= th <= 5 /\ 16 <= len <= 28 /\ 16 <= vlen <= 28 /\ 4 <= cw <= 8 /\ 0 <= sp <= 2
    /\ 6 <= x0 /\ 2 * x0 <= W - (6 * (len + 2 * 7) + 2 * cw + 7 * sp)
    /\ setupLayout W (mkSegParams th len 7 vlen cw sp)
       = mkLayout 56
           [x0; x0 + (len + 2 * 7 + sp); x0 + (len + 2 * 7 + sp) + (len + 2 * 7 + sp) + (cw + sp);
            x0 + (len + 2 * 7 + sp) + (len + 2 * 7 + sp) + (cw + sp) + (len + 2 * 7 + sp);
            x0 + (len + 2 * 7 + sp) + (len + 2 * 7 + sp) + (cw + sp) + (len + 2 * 7 + sp)
            + (len + 2 * 7 + sp) + (cw + sp);
            x0 + (len + 2 * 7 + sp) + (len + 2 * 7 + sp) + (cw + sp) + (len + 2 * 7 + sp)
            + (len + 2 * 7 + sp) + (cw + sp) + (len + 2 * 7 + sp)]
           [x0 + (len + 2 * 7 + sp) + (len + 2 * 7 + sp) + Z.quot cw 2;
            x0 + (len + 2 * 7 + sp) + (len + 2 * 7 + sp) + (cw + sp) + (len + 2 * 7 + sp)
            + (len + 2 * 7 + sp) + Z.quot cw 2]
           (56 + Z.quot vlen 2 - 2).
Proof.
  intros HW. destruct (autoSize_fits W HW) as (Hs & Hfit).
  revert Hs Hfit. generalize (autoSizeToFit W SegParams_init) as p. intros p Hs Hfit.
  destruct p as [th len hgap vlen cw sp]. unfold_mins.
  destruct Hs as (Hsp & Hcw & Hlen & Hvlen & Hth & ->).
  unfold totalRowWidth, MARGIN in Hfit. cbn [SEG_LEN SEG_HGAP COLON_W E_SP] in Hfit.
  rewrite (int16_id (len + 2 * 7)) in Hfit by (unfold INT_MIN, INT_MAX; lia).
  rewrite (int16_id (6 * (len + 2 * 7) + 2 * cw + 7 * sp)) in Hfit
    by (unfold INT_MIN, INT_MAX; lia).
  assert (Hhalf : 6 <= (W - (6 * (len + 2 * 7) + 2 * cw + 7 * sp)) / 2
                  /\ 2 * ((W - (6 * (len + 2 * 7) + 2 * cw + 7 * sp)) / 2)
                     <= W - (6 * (len + 2 * 7) + 2 * cw + 7 * sp)).
  { split; [apply Z.div_le_lower_bound; lia |].
    pose proof (Z.mul_div_le (W - (6 * (len + 2 * 7) + 2 * cw + 7 * sp)) 2 ltac:(lia)). lia. }
  exists th, len, vlen, cw, sp, ((W - (6 * (len + 2 * 7) + 2 * cw + 7 * sp)) / 2).
  split; [reflexivity |]. repeat (split; [lia |]).
  unfold setupLayout. cbn [SEG_LEN SEG_HGAP COLON_W E_SP SEG_THICK SEG_VLEN].
  rewrite (int16_id (len + 2 * 7)) by (unfold INT_MIN, INT_MAX; lia).
  rewrite (int16_id (6 * (len + 2 * 7) + 2 * cw + 7 * sp)) by (unfold INT_MIN, INT_MAX; lia).
  rewrite (u16_id (W - (6 * (len + 2 * 7) + 2 * cw + 7 * sp))) by lia.
  replace (0 <? W - (6 * (len + 2 * 7) + 2 * cw + 7 * sp)) with true
    by (symmetry; apply Z.ltb_lt; lia).
  rewrite (int16_id ((W - (6 * (len + 2 * 7) + 2 * cw + 7 * sp)) / 2))
    by (unfold INT_MIN, INT_MAX; lia).
  rewrite Z.max_r by lia. reflexivity.
Qed.

(** X14: on a panel at least 200 pixels wide the digits are laid out on
    the panel.  With the geometry [autoSizeToFit] leaves and the positions
    [setupLayout] computes from it, the row fits between the margins, the
    six digit cells follow each other from left to right without
    overlapping, and the box that [hardRefreshDigit] erases for each digit
    starts at least a margin from the left edge and ends on the panel. *)
Theorem digit_boxes_lie_on_the_panel (W : Z) :
  200 <= W <= 32767 ->
  let p := autoSizeToFit W SegParams_init in
  let lay := setupLayout W p in
  totalRowWidth p <= W - 2 * MARGIN
  /\ (forall di, (di < 6)%nat ->
        let '(x, y, w, h) := digitBounds p lay di in
        MARGIN <= x /\ x + w <= W /\ 0 < w /\ y = DIGIT_Y lay /\ 0 < h)
  /\ (forall di, (di < 5)%nat ->
        elem (DIG_X lay) di + (SEG_LEN p + 2 * SEG_HGAP p) + E_SP p
        <= elem (DIG_X lay) (S di))
  /\ elem (DIG_X lay) 1 + (SEG_LEN p + 2 * SEG_HGAP p) <= elem (COLON_X lay) 0
  /\ elem (COLON_X lay) 0 <= elem (DIG_X lay) 2
  /\ elem (DIG_X lay) 3 + (SEG_LEN p + 2 * SEG_HGAP p) <= elem (COLON_X lay) 1
  /\ elem (COLON_X lay) 1 <= elem (DIG_X lay) 4.
Proof.
  intros HW. cbv zeta.
  destruct (autoSize_fits W HW) as (_ & Hfit).
  destruct (setup_row W HW)
    as (th & len & vlen & cw & sp & x0 & Ep & Hth & Hlen & Hvlen & Hcw & Hsp & Hx0 & Hx0' & El).
  rewrite Ep in *. rewrite El. clear Ep El.
  unfold digitBounds, MARGIN in *.
  cbn [SEG_LEN SEG_HGAP COLON_W E_SP SEG_THICK SEG_VLEN DIG_X COLON_X DIGIT_Y].
  assert (Hq : 0 <= Z.quot cw 2 <= cw).
  { rewrite Z.quot_div_nonneg by lia. split; [apply Z.div_pos; lia |].
    apply Z.div_le_upper_bound; lia. }
  split; [exact Hfit |]. split; [| split].
  - intros di Hdi.
    do 6 (destruct di as [| di]; [cbn [elem nth]; lia |]). lia.
  - intros di Hdi.
    do 5 (destruct di as [| di]; [cbn [elem nth]; lia |]). lia.
  - cbn [elem nth]. lia.
Qed.

Lemma digit_boxes_lie_on_the_panel_witness :
  let p := autoSizeToFit panel_W SegParams_init in
  let lay := setupLayout panel_W p in
  totalRowWidth p <= panel_W - 2 * MARGIN
  /\ (forall di, (di < 6)%nat ->
        let '(x, y, w, h) := digitBounds p lay di in
        MARGIN <= x /\ x + w <= panel_W /\ 0 < w /\ y = DIGIT_Y lay /\ 0 < h)
  /\ (forall di, (di < 5)%nat ->
        elem (DIG_X lay) di + (SEG_LEN p + 2 * SEG_HGAP p) + E_SP p
        <= elem (DIG_X lay) (S di))
  /\ elem (DIG_X lay) 1 + (SEG_LEN p + 2 * SEG_HGAP p) <= elem (COLON_X lay) 0
  /\ elem (COLON_X lay) 0 <= elem (DIG_X lay) 2
  /\ elem (DIG_X lay) 3 + (SEG_LEN p + 2 * SEG_HGAP p) <= elem (COLON_X lay) 1
  /\ elem (COLON_X lay) 1 <= elem (DIG_X lay) 4.
Proof. apply (digit_boxes_lie_on_the_panel panel_W). unfold panel_W. lia. Defined.

(** ** Many ticks, and the clock values the sketch can reach *)

Lemma tick_keeps_month t t' :
  (hasDate t = true -> 1 <= month t <= 12) -> tickOneSecond t = Some t' ->
  hasDate t' = true -> 1 <= month t' <= 12.
Proof.
  intros Hm Ht Hd.
  destruct (tick_date_cases t t' Ht) as (Ehd & _ & C).
  rewrite Ehd in Hd. specialize (Hm Hd).
  destruct C as [(_ & -> & _) | (_ & _ & dim & _ & C)]; [assumption |].
  rewrite (incr_small (month t)) in C by (unfold INT_MIN, INT_MAX; lia).
  destruct C as [(_ & _ & -> & _) | [(_ & ? & _ & -> & _) | (_ & _ & _ & -> & _)]]; lia.
Qed.

Lemma tick_times_succ n t :
  tick_times (N.succ n) t
  = match tick_times n t with Some x => tickOneSecond x | None => None end.
Proof. unfold tick_times. rewrite N.iter_succ. reflexivity. Qed.

(** X15: [n] calls of [tickOneSecond] are [n] seconds.  From a valid time
    of day (and, on a dated clock, a month of the calendar) any number of
    calls in a row is defined, keeps the time of day valid and advances
    the seconds since midnight by exactly [n] modulo 86400; the flags are
    kept, and a clock without a date keeps its date fields. *)
Theorem n_ticks_are_n_seconds (n : N) (t : ClockTime) :
  time_ok t -> (hasDate t = true -> 1 <= month t <= 12) ->
  exists t',
    tick_times n t = Some t'
    /\ time_ok t'
    /\ secs_of_day t' = (secs_of_day t + Z.of_N n) mod 86400
    /\ hasDate t' = hasDate t /\ isSet t' = isSet t
    /\ (hasDate t = false -> year t' = year t /\ month t' = month t /\ day t' = day t).
Proof.
  intros Hok Hm.
  assert (Gen : exists t',
    tick_times n t = Some t'
    /\ time_ok t'
    /\ secs_of_day t' = (secs_of_day t + Z.of_N n) mod 86400
    /\ hasDate t' = hasDate t /\ isSet t' = isSet t
    /\ (hasDate t = false -> year t' = year t /\ month t' = month t /\ day t' = day t)
    /\ (hasDate t' = true -> 1 <= month t' <= 12)).
  { induction n as [| n IH] using N.peano_ind.
    - exists t. split; [reflexivity |]. split; [exact Hok |].
      split.
      { rewrite Z.add_0_r. symmetry. apply Z.mod_small.
        destruct Hok as (Hh & Hmi & Hs). unfold secs_of_day. lia. }
      repeat split; auto; apply Hm; assumption.
    - destruct IH as (t1 & E1 & Ok1 & S1 & D1 & I1 & U1 & M1).
      destruct (tick_defined t1 M1) as (t2 & E2).
      exists t2. rewrite tick_times_succ, E1.
      split; [exact E2 |].
      split; [apply (tick_keeps_time_ok t1 t2 Ok1 E2) |].
      destruct (tick_date_cases t1 t2 E2) as (Ehd & Eset & C).
      split; [| split; [congruence | split; [congruence | split]]].
      + pose proof (tick_secs_of_day t1 t2 Ok1 E2) as S2.
        rewrite S2, S1, N2Z.inj_succ. rewrite Zplus_mod_idemp_l. f_equal. lia.
      + intros Hnd. destruct (U1 Hnd) as (<- & <- & <-).
        destruct C as [C | (Hd & _)]; [exact C | congruence].
      + apply (tick_keeps_month t1 t2 M1 E2). }
  destruct Gen as (t' & A & B & C & D & E & F & _).
  exists t'. auto 10.
Qed.

Lemma n_ticks_are_n_seconds_witness :
  exists t',
    tick_times 86400 (mkClockTime 0 0 0 12 34 56 false true) = Some t'
    /\ time_ok t'
    /\ secs_of_day t' = (secs_of_day (mkClockTime 0 0 0 12 34 56 false true) + Z.of_N 86400)
                        mod 86400
    /\ hasDate t' = false /\ isSet t' = true
    /\ (false = false -> year t' = 0 /\ month t' = 0 /\ day t' = 0).
Proof.
  apply (n_ticks_are_n_seconds 86400 (mkClockTime 0 0 0 12 34 56 false true)).
  - unfold time_ok, hms_valid. simpl. lia.
  - discriminate.
Defined.

(** ** What is drawn for the clock values the sketch can reach *)

Lemma mask_of_digit d : 0 <= d <= 9 -> mask_of_char (digit_char d) <> 0.
Proof. intros Hd. each_digit Hd; vm_compute; discriminate. Qed.

(** X16: the clock the sketch can reach is always drawn in full.  Every
    value the shared clock takes (at start-up, after a sync, after any
    number of ticks) is shown as the eight characters HH:MM:SS, each of
    the six digit positions holds a digit with some segment lit, and the
    width of the seconds bar lies within the bar. *)
Theorem reachable_clock_is_drawn_in_full (t : ClockTime) (bar_w : Z) :
  reachable t -> 0 <= bar_w <= INT_MAX ->
  timeText t = short_text (hour t) (minute t) (second t) ""
  /\ String.length (timeText t) = 8%nat
  /\ (forall i, In i digit_positions -> mask_of_char (char_at (timeText t) i) <> 0)
  /\ 0 <= fillWidth bar_w (second t) <= bar_w.
Proof.
  intros Hr Hb. pose proof (reachable_time_ok t Hr) as Hok.
  pose proof Hok as (Hh & Hm & Hs).
  rewrite (timeText_short t Hok).
  split; [reflexivity | split; [reflexivity | split]].
  - intros i Hi. unfold digit_positions in Hi. unfold short_text, two.
    pose proof (tens_digit (hour t) ltac:(lia)). pose proof (tens_digit (minute t) ltac:(lia)).
    pose proof (tens_digit (second t) ltac:(lia)).
    pose proof (Z.mod_pos_bound (hour t) 10 ltac:(lia)).
    pose proof (Z.mod_pos_bound (minute t) 10 ltac:(lia)).
    pose proof (Z.mod_pos_bound (second t) 10 ltac:(lia)).
    repeat (destruct Hi as [<- | Hi]; [cbn [append char_at String.get]; apply mask_of_digit; lia |]).
    destruct Hi.
  - rewrite fillWidth_value by lia. unfold INT_MAX in Hb. split.
    + apply Z.div_pos; nia.
    + apply Z.div_le_upper_bound; [lia | nia].
Qed.

Lemma reachable_clock_is_drawn_in_full_witness :
  timeText feb28_2024 = short_text 23 59 59 ""
  /\ String.length (timeText feb28_2024) = 8%nat
  /\ (forall i, In i digit_positions -> mask_of_char (char_at (timeText feb28_2024) i) <> 0)
  /\ 0 <= fillWidth 300 59 <= 300.
Proof.
  apply (reachable_clock_is_drawn_in_full feb28_2024 300).
  - apply (reach_sync ClockTime_init "2024-02-28 23:59:59" feb28_2024).
    + apply reach_startup.
    + reflexivity.
  - unfold INT_MAX. lia.
Defined.

(** ** The weekday line *)

Lemma weekdayIndex_range y m d : 2 <= y -> 1 <= m <= 12 -> 0 <= d ->
  0 <= weekdayIndex y m d <= 6.
Proof.
  intros Hy Hm Hd. rewrite weekdayIndex_value by lia.
  match goal with |- 0 <= ?a mod 7 <= 6 =>
    pose proof (Z.mod_pos_bound a 7 ltac:(lia)) end. lia.
Qed.

Lemma fmt_d_day d : 1 <= d <= 31 -> (String.length (fmt_d d) <= 2)%nat.
Proof.
  intros Hd. apply Nat.leb_le.
  apply (all_below_spec 32 (fun z => Nat.leb (String.length (fmt_d z)) 2));
    [vm_compute; reflexivity | lia].
Qed.

Lemma weekday_name_length k :
  (String.length (nth k WEEKDAY_NAME "") <= 9)%nat.
Proof. do 7 (destruct k as [| k]; [simpl; lia |]). destruct k; simpl; lia. Qed.

Lemma month_name_length k :
  (String.length (nth k MONTH_NAME "") <= 9)%nat.
Proof. do 12 (destruct k as [| k]; [simpl; lia |]). destruct k; simpl; lia. Qed.

Lemma weekday_name_given wd : 0 <= wd <= 6 ->
  Ascii.eqb (char_at (nth (Z.to_nat wd) WEEKDAY_NAME "") 0) NUL = false.
Proof.
  intros Hwd.
  assert (Hw : wd = 0 \/ wd = 1 \/ wd = 2 \/ wd = 3 \/ wd = 4 \/ wd = 5 \/ wd = 6) by lia.
  repeat match type of Hw with _ \/ _ => destruct Hw as [Hw | Hw] end; subst wd; reflexivity.
Qed.

(** X17: the weekday line of a dated clock.  For a date of the calendar in
    a four-digit year the second line of the date block is the name of the
    weekday [weekdayIndex] gives, a blank, a comma and a blank, the name of
    the month, a blank and the day without leading zero; it always fits
    its buffer.  For a clock without a date the first line is 00-00-0000
    and the second line is empty. *)
Theorem weekday_line_names_day_and_month (c : ClockTime) :
  (calendar_valid c -> hasDate c = true -> year c <= 9999 ->
   0 <= weekdayIndex (year c) (month c) (day c) <= 6
   /\ weekdayText c
      = (nth (Z.to_nat (weekdayIndex (year c) (month c) (day c))) WEEKDAY_NAME "" ++ " , "
         ++ nth (Z.to_nat (month c - 1)) MONTH_NAME "" ++ " " ++ fmt_d (day c))%string
   /\ (String.length (weekdayText c) <= 24)%nat)
  /\ (hasDate c = false -> dateText c = "00-00-0000" /\ weekdayText c = "").
Proof.
  split.
  - intros (Hy & Hm & dim & Edim & Hd) Hhd Hmax.
    destruct (daysInMonth_range (year c) (month c) Hm) as (dim2 & E2 & Hdim).
    rewrite Edim in E2. injection E2 as <-.
    pose proof (weekdayIndex_range (year c) (month c) (day c) ltac:(lia) Hm ltac:(lia)) as Hwd.
    split; [exact Hwd |].
    unfold weekdayText. rewrite Hhd.
    replace (1970 <=? year c) with true by (symmetry; apply Z.leb_le; lia).
    replace (1 <=? month c) with true by (symmetry; apply Z.leb_le; lia).
    replace (month c <=? 12) with true by (symmetry; apply Z.leb_le; lia).
    replace (1 <=? day c) with true by (symmetry; apply Z.leb_le; lia).
    cbn [andb]. cbv zeta.
    rewrite (weekday_name_given _ Hwd).
    pose proof (fmt_d_day (day c) ltac:(lia)) as Hlen.
    pose proof (weekday_name_length (Z.to_nat (weekdayIndex (year c) (month c) (day c)))) as Hwn.
    pose proof (month_name_length (Z.to_nat (month c - 1))) as Hmn.
    assert (Hfit : (String.length
                      (nth (Z.to_nat (weekdayIndex (year c) (month c) (day c))) WEEKDAY_NAME ""
                       ++ " , " ++ nth (Z.to_nat (month c - 1)) MONTH_NAME "" ++ " "
                       ++ fmt_d (day c)) <= 24)%nat).
    { rewrite !string_length_app. cbn [String.length]. lia. }
    unfold snprintf. rewrite substring_all by lia.
    split; [reflexivity | exact Hfit].
  - intros Hnd. unfold dateText, weekdayText. rewrite Hnd. split; reflexivity.
Qed.

Lemma weekday_line_names_day_and_month_witness :
  weekdayText (mkClockTime 2024 2 29 0 0 0 true true) = "Thursday , February 29"
  /\ dateText (mkClockTime 0 0 0 12 34 56 false true) = "00-00-0000".
Proof.
  split.
  - refine (eq_trans
              (proj1 (proj2 (proj1 (weekday_line_names_day_and_month
                                      (mkClockTime 2024 2 29 0 0 0 true true)) _ _ _))) _).
    + unfold calendar_valid. cbn. split; [lia | split; [lia |]].
      exists 29. split; [reflexivity | lia].
    + reflexivity.
    + cbn. lia.
    + reflexivity.
  - apply (proj2 (weekday_line_names_day_and_month (mkClockTime 0 0 0 12 34 56 false true))).
    reflexivity.
Defined.

(** ** Line endings, stability of the geometry, sensor cadence *)

Lemma before_eol_app line tail :
  Forall (fun c => is_eol c = false) line ->
  before_eol (line ++ CR :: tail) = line /\ after_eol (line ++ CR :: tail) = tail.
Proof.
  induction 1 as [| c l Hc Hl IH]; simpl.
  - split; reflexivity.
  - rewrite Hc. destruct IH as (-> & ->). split; reflexivity.
Qed.

Lemma serialPhase_rest W now rx st :
  snd (serialPhase W now rx st) = snd (readLine rx "").
Proof.
  unfold serialPhase. destruct rx as [| b rx']; [reflexivity |].
  destruct (readLine (b :: rx') "") as [str_in rest].
  destruct (0 <? Z.of_nat (String.length str_in)); [| reflexivity].
  destruct (parseTime str_in); reflexivity.
Qed.

(** X18: a line that ends in carriage return and line feed is one line.
    The pass that reads it hands the text in front of the carriage return
    to the parser and leaves the line feed unread; the next pass reads
    that line feed as an empty line and changes nothing: no notice, no
    redraw, no change of the clock. *)
Theorem crlf_ending_is_one_line (W now now' : Z) (line more : list ascii) (st st' : Sketch) :
  Forall (fun c => is_eol c = false) line ->
  fst (readLine (line ++ CR :: LF :: more) "") = substring 0 127 (string_of_list_ascii line)
  /\ snd (serialPhase W now (line ++ CR :: LF :: more) st) = LF :: more
  /\ serialPhase W now' (LF :: more) st' = (st', more).
Proof.
  intros Hl. destruct (before_eol_app line (LF :: more) Hl) as (Eb & Ea).
  rewrite serialPhase_rest.
  rewrite (readLine_from (line ++ CR :: LF :: more) "" 127) by reflexivity.
  cbn [fst snd append]. rewrite Eb, Ea. repeat split.
Qed.

Lemma crlf_ending_is_one_line_witness :
  fst (readLine (list_ascii_of_string "12:34:56" ++ CR :: LF :: []) "")
  = substring 0 127 (string_of_list_ascii (list_ascii_of_string "12:34:56"))
  /\ snd (serialPhase panel_W 0 (list_ascii_of_string "12:34:56" ++ CR :: LF :: [])
            Sketch_init) = LF :: []
  /\ serialPhase panel_W 6 (LF :: []) synced_sketch = (synced_sketch, []).
Proof.
  apply (crlf_ending_is_one_line panel_W 0 6 (list_ascii_of_string "12:34:56") []
           Sketch_init synced_sketch).
  repeat constructor.
Defined.

(** X19: the geometry [autoSizeToFit] leaves is a fixed point.  Whatever
    the panel width, the 200 passes are enough for the loop to come to
    rest from the initial geometry: running it again on its own result
    changes nothing. *)
Theorem autoSize_result_is_stable (W : Z) :
  autoSizeToFit W (autoSizeToFit W SegParams_init) = autoSizeToFit W SegParams_init
  /\ autoSizeStep W (autoSizeToFit W SegParams_init) = None.
Proof.
  unfold autoSizeToFit.
  destruct (autoSizeLoop_outcome W 200 SegParams_init shrunk_init) as (R1 & R2 & _).
  revert R1 R2. generalize (autoSizeLoop 200 W SegParams_init) as r. intros r R1 R2.
  assert (E31 : slack SegParams_init = 31) by reflexivity.
  rewrite E31 in R2.
  assert (Hstop : autoSizeStep W r = None).
  { unfold autoSizeStep. destruct (rowFits W r) eqn:Ef; [reflexivity |].
    destruct r as [th len hgap vlen cw sp]. unfold_mins.
    destruct R2 as [R2 | [(-> & -> & -> & -> & ->) | R2]]; [discriminate | reflexivity | lia]. }
  split; [| exact Hstop].
  change (autoSizeLoop 200 W r)
    with (match autoSizeStep W r with None => r | Some p' => autoSizeLoop 199 W p' end).
  rewrite Hstop. reflexivity.
Qed.

(** X20: the sensor is read at most once in two seconds.  Every call of
    [updateEnv] that finds a reading due records its time, whatever the
    reading and whether or not it is drawn; a call less than 2000 ms
    after it returns at once, leaving the state and the panel alone. *)
Theorem env_reading_is_rate_limited (bg ms ms' : Z) (h t h' t' : float) (es : EnvState) :
  ENV_INTERVAL <= u32 (ms - lastEnvRead es) ->
  u32 (ms' - ms) < ENV_INTERVAL ->
  lastEnvRead (fst (updateEnv bg ms h t es)) = ms
  /\ updateEnv bg ms' h' t' (fst (updateEnv bg ms h t es))
     = (fst (updateEnv bg ms h t es), []).
Proof.
  intros Hdue Hsoon.
  assert (E : lastEnvRead (fst (updateEnv bg ms h t es)) = ms).
  { unfold updateEnv.
    replace (u32 (ms - lastEnvRead es) <? ENV_INTERVAL) with false
      by (symmetry; apply Z.ltb_ge; exact Hdue).
    repeat match goal with
           | |- context [if ?b then _ else _] => destruct b
           end; reflexivity. }
  split; [exact E |].
  generalize dependent (fst (updateEnv bg ms h t es)). intros es1 E.
  unfold updateEnv. rewrite E.
  replace (u32 (ms' - ms) <? ENV_INTERVAL) with true by (symmetry; apply Z.ltb_lt; exact Hsoon).
  reflexivity.
Qed.

Lemma env_reading_is_rate_limited_witness :
  lastEnvRead (fst (updateEnv 0 4000 hum_50 temp_24_3 env_after_first_reading)) = 4000
  /\ updateEnv 0 5999 hum_50 temp_24_0
       (fst (updateEnv 0 4000 hum_50 temp_24_3 env_after_first_reading))
     = (fst (updateEnv 0 4000 hum_50 temp_24_3 env_after_first_reading), []).
Proof.
  apply (env_reading_is_rate_limited 0 4000 5999 hum_50 temp_24_3 hum_50 temp_24_0
           env_after_first_reading).
  - vm_compute. discriminate.
  - vm_compute. reflexivity.
Defined.

(** ** The set flag *)

Section SetFlag.

Variables W H : Z.
Variable p : SegParams.
Variable lay : Layout.
Variable textWidth : string -> Z.

(** What every second of the catch-up loop keeps, the loop keeps. *)
Lemma catchUp_keeps (P : ClockTime -> Prop) :
  (forall c c', P c -> tickOneSecond c = Some c' -> P c') ->
  forall ms n last c sh ops r,
    (Z.to_nat (u32 (ms - last)) < n)%nat -> P c ->
    catchUp W H p lay textWidth ms last c sh ops = Some r ->
    P (snd (fst (fst r))).
Proof.
  intros Hstep ms n. induction n as [| n IH]; intros last c sh ops r Hn Hp; [lia |].
  destruct (Z_lt_ge_dec (u32 (ms - last)) 1000) as [Hlt | Hge].
  - rewrite catchUp_done by assumption. intros E. injection E as <-. exact Hp.
  - rewrite catchUp_step by lia.
    pose proof (secondStep_clock W H p lay textWidth c sh) as Hs.
    destruct (secondStep W H p lay textWidth c sh) as [[[c1 sh1] o1] |]; [| discriminate].
    cbn [fst] in Hs. apply IH.
    + rewrite u32_elapsed_step by lia. pose proof (u32_range (ms - last)). lia.
    + apply (Hstep c c1 Hp Hs).
Qed.

End SetFlag.

(** X21: the clock runs only once it has been set, and stays set.  In a
    pass through [loop] a clock that is set is still set afterwards; a
    clock that is still unset after the pass has not moved: clock value
    and tick reference are those from before the pass and, if no repaint
    was pending, so is the shadow state. *)
Theorem clock_runs_only_once_set
    (W H : Z) (p : SegParams) (lay : Layout) (textWidth : string -> Z) (bg : Z)
    (cosf : float -> float)
    (now ms msEnv : Z) (rx : list ascii) (h t : float) (ls ls' : LoopState)
    (rest : list ascii) :
  loopPass W H p lay textWidth bg cosf now ms msEnv rx h t ls = Some (ls', rest) ->
  (isSet (ct (sketch ls)) = true -> isSet (ct (sketch ls')) = true)
  /\ (isSet (ct (sketch ls')) = false ->
      ct (sketch ls') = ct (sketch ls)
      /\ lastTickMs (sketch ls') = lastTickMs (sketch ls)
      /\ (repaintAll (sketch ls) = false ->
          shadow (sketch ls') = shadow (sketch ls) /\ repaintAll (sketch ls') = false)).
Proof.
  unfold loopPass.
  assert (H1 : let st1 := fst (serialPhase W now rx (sketch ls)) in
               (isSet (ct st1) = true
                /\ (isSet (ct (sketch ls)) = true \/ repaintAll st1 = true))
               \/ (ct st1 = ct (sketch ls) /\ lastTickMs st1 = lastTickMs (sketch ls)
                   /\ shadow st1 = shadow (sketch ls)
                   /\ repaintAll st1 = repaintAll (sketch ls))).
  { unfold serialPhase. destruct rx as [| b rx']; [cbn; auto |].
    destruct (readLine (b :: rx') "") as [str_in rest0].
    destruct (0 <? Z.of_nat (String.length str_in)); [| cbn; auto].
    destruct (parseTime str_in) as [parsed |]; cbn; auto 10. }
  destruct (serialPhase W now rx (sketch ls)) as [st1 rest1]. cbn [fst] in H1.
  pose proof (animPhase_sketch p lay bg cosf ms msEnv h t
                (mkLoopState st1 (subAnimMs ls) (env ls))) as Ha.
  cbv zeta in Ha. cbn [sketch] in Ha.
  set (ls2 := animPhase p lay bg cosf ms msEnv h t (mkLoopState st1 (subAnimMs ls) (env ls)))
    in *.
  destruct Ha as (Act & Ash & Alast & Arep & _ & _).
  unfold clockPhase. rewrite Act, Ash, Alast, Arep.
  destruct (isSet (ct st1)) eqn:Hset1.
  - destruct (catchUp W H p lay textWidth ms (lastTickMs st1) (ct st1) (shadow st1) [])
      as [[[[l' c'] sh'] ops] |] eqn:Ec; [| discriminate].
    pose proof (catchUp_keeps W H p lay textWidth (fun c => isSet c = true)
                  (fun c c' Hc Ht => eq_trans (proj1 (proj2 (tick_date_cases c c' Ht))) Hc)
                  ms _ _ _ _ _ _ (Nat.lt_succ_diag_r _) Hset1 Ec) as Hset'.
    cbn [fst snd] in Hset'.
    intros E. injection E as <- <-. cbn [sketch].
    assert (Ect : ct (repaintPhase W H p lay textWidth bg
                        (mkSketch c' sh' l' (repaintAll st1) (lastStatus (sketch ls2))
                                  (tft (sketch ls2) ++ ops) (bt (sketch ls2)))) = c').
    { unfold repaintPhase. cbn [repaintAll ct shadow].
      destruct (repaintAll st1); [| reflexivity].
      destruct (forceRedrawAll W H p lay textWidth bg c' sh'); reflexivity. }
    rewrite Ect. split; [intros _; exact Hset' | intros Hc; congruence].
  - intros E. injection E as <- <-. cbn [sketch].
    destruct H1 as [(Hc & _) | (E1 & E2 & E3 & E4)]; [congruence |].
    unfold repaintPhase. rewrite Arep, Act, Ash.
    split.
    + intros Hs. destruct (repaintAll st1);
        [destruct (forceRedrawAll W H p lay textWidth bg (ct st1) (shadow st1)) |];
        cbn [ct] in *; congruence.
    + intros _. rewrite E4.
      destruct (repaintAll (sketch ls)) eqn:Er.
      * destruct (forceRedrawAll W H p lay textWidth bg (ct st1) (shadow st1)) as [sh ops].
        cbn [ct lastTickMs shadow repaintAll].
        repeat split; try congruence; discriminate.
      * repeat split; congruence.
Qed.

Lemma clock_runs_only_once_set_witness :
  exists ls' rest,
    loopPass panel_W panel_H panel_params panel_layout panel_textWidth 0 (fun _ => F_1)
      0 0 0 (list_ascii_of_string "12:34:56" ++ [LF]) hum_50 temp_24_0
      (mkLoopState Sketch_init 0 EnvState_init) = Some (ls', rest)
    /\ ct (sketch ls') = mkClockTime 0 0 0 12 34 56 false true
    /\ (isSet (ct Sketch_init) = true -> isSet (ct (sketch ls')) = true)
    /\ (isSet (ct (sketch ls')) = false ->
        ct (sketch ls') = ct Sketch_init
        /\ lastTickMs (sketch ls') = lastTickMs Sketch_init
        /\ (repaintAll Sketch_init = false ->
            shadow (sketch ls') = shadow Sketch_init /\ repaintAll (sketch ls') = false)).
Proof.
  eexists _, _. split; [vm_compute; reflexivity |]. split; [reflexivity |].
  refine (clock_runs_only_once_set panel_W panel_H panel_params panel_layout panel_textWidth
            0 (fun _ => F_1) 0 0 0 (list_ascii_of_string "12:34:56" ++ [LF]) hum_50 temp_24_0
            (mkLoopState Sketch_init 0 EnvState_init) _ [] _).
  vm_compute. reflexivity.
Defined.

(** ** Segments and their box *)

Lemma in_when {A} (b : bool) (l : list A) (x : A) : In x (when b l) -> In x l.
Proof. destruct b; [auto | intros []]. Qed.

(** Every lit segment lies in the rectangle of [digitBounds] put at the
    corner the segments are drawn from. *)
Lemma segments_in_box (W H : Z) (p : SegParams) (x y mask : Z) (op : TftOp) :
  0 <= SEG_THICK p -> 0 <= SEG_HGAP p -> 0 <= SEG_LEN p -> 0 <= SEG_VLEN p ->
  In op (drawDigitSegments W H p x y mask false) ->
  exists sx sy sw sh r,
    op = FillRoundRect sx sy sw sh r COL_GLOW
    /\ 0 <= sw /\ 0 <= sh
    /\ x <= sx /\ sx + sw <= x + (SEG_LEN p + 2 * SEG_HGAP p + SEG_THICK p)
    /\ y <= sy /\ sy + sh <= y + (2 * SEG_VLEN p + 3 * SEG_THICK p).
Proof.
  intros Ht Hg Hl Hv. unfold drawDigitSegments. cbv zeta.
  assert (Hq : 0 <= Z.quot (SEG_THICK p) 2 <= SEG_THICK p).
  { rewrite Z.quot_div_nonneg by lia. split; [apply Z.div_pos; lia |].
    apply Z.div_le_upper_bound; lia. }
  assert (Hq3 : 0 <= Z.quot (3 * SEG_THICK p) 2 <= 3 * SEG_THICK p).
  { rewrite Z.quot_div_nonneg by lia. split; [apply Z.div_pos; lia |].
    apply Z.div_le_upper_bound; lia. }
  intros Hin.
  repeat (apply in_app_or in Hin; destruct Hin as [Hin | Hin]);
    apply in_when in Hin; destruct Hin as [<- | []];
    unfold drawHSeg, drawVSeg; eexists _, _, _, _, _;
    (split; [reflexivity | lia]).
Qed.



(** ** Painting stays where it belongs *)

(** Erasing a rectangle whose corner is on the panel paints inside it. *)
Lemma erase_in_box W H x y w h op :
  1 <= W <= 32767 -> 1 <= H <= 32767 ->
  0 <= x <= W -> 0 <= y -> x + w <= INT_MAX -> y + h <= INT_MAX ->
  In op (fillRectWithOceanBG W H x y w h) -> op_in_box x y w h op.
Proof.
  unfold INT_MAX. intros HW HH Hx Hy Hxw Hyh. unfold fillRectWithOceanBG.
  destruct (Z.leb_spec w 0) as [Hw0 | Hw0]; [intros [] |].
  destruct (Z.leb_spec h 0) as [Hh0 | Hh0]; [intros [] |].
  cbn [orb].
  replace (x <? 0) with false by (symmetry; apply Z.ltb_ge; lia).
  replace (y <? 0) with false by (symmetry; apply Z.ltb_ge; lia).
  cbv zeta.
  rewrite (u16_id (x + w)) by lia.
  rewrite (int16_id H), (int16_id (y + h)) by (unfold INT_MIN, INT_MAX; lia).
  rewrite (int16_u16 (W - x)) by (unfold INT_MIN, INT_MAX; lia).
  intros Hin. apply in_map_iff in Hin. destruct Hin as (k & <- & Hk).
  apply in_seq in Hk. cbn [op_in_box].
  assert (Hh2 : Z.of_nat k < h).
  { destruct (Z.ltb_spec H (y + h)) as [Hgt | Hle]; [| lia].
    destruct (Z_le_gt_dec y H) as [Hin | Hout].
    - rewrite int16_u16 in Hk by (unfold INT_MIN, INT_MAX; lia). lia.
    - rewrite int16_u16 in Hk by (unfold INT_MIN, INT_MAX; lia). lia. }
  destruct (Z.ltb_spec W (x + w)); lia.
Qed.

Section DigitBoxes.

Variables W H : Z.
Variable p : SegParams.
Variable lay : Layout.

Hypothesis panel_W_range : 1 <= W <= 32767.
Hypothesis panel_H_range : 1 <= H <= 32767.
Hypothesis geometry : shrunk p.
Hypothesis digits_on_panel : forall di, (di < 6)%nat ->
  0 <= elem (DIG_X lay) di
  /\ elem (DIG_X lay) di + (SEG_LEN p + 2 * SEG_HGAP p + SEG_THICK p) <= W.
Hypothesis digits_row : 0 <= DIGIT_Y lay <= 32000.

Lemma hardRefreshDigit_in_box di newMask masks op :
  (di < 6)%nat ->
  In op (snd (hardRefreshDigit W H p lay di newMask masks)) ->
  op_in_box (elem (DIG_X lay) di) (DIGIT_Y lay)
            (SEG_LEN p + 2 * SEG_HGAP p + SEG_THICK p)
            (2 * SEG_VLEN p + 3 * SEG_THICK p) op.
Proof.
  intros Hdi. unfold hardRefreshDigit, digitBounds. cbn [snd].
  pose proof (digits_on_panel di Hdi) as Hx.
  pose proof geometry as (Hsp & Hcw & Hlen & Hvlen & Hth & Hg).
  unfold MIN_SP, MIN_COLON, MIN_LEN, MIN_VLEN, MIN_THICK in *.
  cbn [E_SP COLON_W SEG_LEN SEG_VLEN SEG_THICK SEG_HGAP SegParams_init] in *.
  intros Hin. apply in_app_or in Hin. destruct Hin as [Hin | Hin].
  - apply (erase_in_box W H); try assumption; unfold INT_MAX; lia.
  - apply in_when in Hin.
    destruct (segments_in_box W H p _ _ _ op
                ltac:(lia) ltac:(lia) ltac:(lia) ltac:(lia) Hin)
      as (sx & sy & sw & sh & r & -> & B).
    cbn [op_in_box]. lia.
Qed.

(** One pass through the loop of [drawTimeDigits]: the commands it adds
    belong to the digit of that position, and only if its character
    changed. *)
Lemma drawTimeDigit_ops cur prev masks ops i op :
  (i < 8)%nat ->
  In op (snd (drawTimeDigit W H p lay cur prev (masks, ops) i)) ->
  In op ops
  \/ (In i digit_positions /\ char_at cur i <> char_at prev i
      /\ op_in_box (elem (DIG_X lay) (digit_index i)) (DIGIT_Y lay)
                   (SEG_LEN p + 2 * SEG_HGAP p + SEG_THICK p)
                   (2 * SEG_VLEN p + 3 * SEG_THICK p) op).
Proof.
  intros Hi. unfold drawTimeDigit.
  destruct (Nat.eqb i 2 || Nat.eqb i 5) eqn:Ecolon; [cbn [snd]; auto |].
  destruct (Ascii.eqb (char_at cur i) (char_at prev i)) eqn:Esame; [cbn [snd]; auto |].
  apply Ascii.eqb_neq in Esame.
  assert (Hpos : In i digit_positions /\ (digit_index i < 6)%nat).
  { unfold digit_positions, digit_index.
    do 8 (destruct i as [| i];
          [cbn in Ecolon |- *; first [discriminate Ecolon | split; [tauto | lia]] |]).
    lia. }
  destruct Hpos as (Hpos & Hdi). fold (digit_index i).
  replace (Nat.eqb (digit_index i) 0 || Nat.eqb (digit_index i) 1
           || HARD_REFRESH_MINUTES && (Nat.eqb (digit_index i) 2 || Nat.eqb (digit_index i) 3)
           || HARD_REFRESH_SECONDS && (Nat.eqb (digit_index i) 4 || Nat.eqb (digit_index i) 5))
    with true.
  2:{ symmetry. revert Hdi. generalize (digit_index i) as di. intros di Hdi.
      do 6 (destruct di as [| di]; [reflexivity |]). lia. }
  pose proof (hardRefreshDigit_in_box (digit_index i)
                (if isDigitN (char_at cur i)
                 then elem DIGIT_MASK (Z.to_nat (char_val (char_at cur i) - char_val "0"))
                 else 0) masks) as Hbox.
  destruct (hardRefreshDigit W H p lay (digit_index i) _ masks) as [masks' ops'].
  cbn [snd] in *. intros Hin. apply in_app_or in Hin.
  destruct Hin as [Hin | Hin]; [left; exact Hin | right].
  split; [exact Hpos | split; [exact Esame | apply Hbox; assumption]].
Qed.

Lemma drawTimeDigits_fold_ops cur prev l : forall masks ops op,
  (forall i, In i l -> (i < 8)%nat) ->
  In op (snd (fold_left (drawTimeDigit W H p lay cur prev) l (masks, ops))) ->
  In op ops
  \/ exists i, In i digit_positions /\ char_at cur i <> char_at prev i
      /\ op_in_box (elem (DIG_X lay) (digit_index i)) (DIGIT_Y lay)
                   (SEG_LEN p + 2 * SEG_HGAP p + SEG_THICK p)
                   (2 * SEG_VLEN p + 3 * SEG_THICK p) op.
Proof.
  induction l as [| i l IH]; intros masks ops op Hl Hin; [left; exact Hin |].
  cbn [fold_left] in Hin.
  pose proof (drawTimeDigit_ops cur prev masks ops i) as Hstep.
  destruct (drawTimeDigit W H p lay cur prev (masks, ops) i) as [m1 o1].
  cbn [snd] in Hstep.
  destruct (IH m1 o1 op (fun j Hj => Hl j (or_intror Hj)) Hin) as [Hold | Hnew];
    [| right; exact Hnew].
  destruct (Hstep op (Hl i (or_introl eq_refl)) Hold) as [Hops | Hbox];
    [left; exact Hops | right; exists i; exact Hbox].
Qed.

End DigitBoxes.

(** X23: repainting is confined to the boxes of the digits that changed.
    On a panel at least 200 pixels wide, with the geometry and the layout
    [setup] computes, every command [drawTimeDigits] sends belongs to a
    digit whose character differs between the remembered text and the
    text to show, and paints inside the box of that digit, which lies on
    the panel. *)
Theorem only_changed_digits_are_repainted
    (W H : Z) (c : ClockTime) (sh : Shadow) (op : TftOp) :
  200 <= W <= 32767 -> 1 <= H <= 32767 ->
  let p := autoSizeToFit W SegParams_init in
  let lay := setupLayout W p in
  In op (snd (drawTimeDigits W H p lay c sh)) ->
  exists i,
    In i digit_positions
    /\ char_at (timeText c) i <> char_at (prevTimeStr sh) i
    /\ (let '(x, y, w, h) := digitBounds p lay (digit_index i) in
        op_in_box x y w h op /\ 0 <= x /\ x + w <= W).
Proof.
  intros HW HH. cbv zeta.
  destruct (autoSize_fits W HW) as (Hs & _).
  destruct (setup_row W HW)
    as (th & len & vlen & cw & sp & x0 & Ep & Hth & Hlen & Hvlen & Hcw & Hsp & Hx0 & Hx0' & El).
  rewrite Ep in *. revert El.
  generalize (setupLayout W (mkSegParams th len 7 vlen cw sp)) as lay. intros lay El.
  assert (Hdig : forall di, (di < 6)%nat ->
            6 <= elem (DIG_X lay) di
            /\ elem (DIG_X lay) di + (len + 2 * 7 + th) <= W).
  { intros di Hdi. rewrite El. cbn [DIG_X].
    do 6 (destruct di as [| di]; [cbn [elem nth]; lia |]). lia. }
  assert (Hy : DIGIT_Y lay = 56) by (rewrite El; reflexivity).
  unfold drawTimeDigits.
  pose proof (drawTimeDigits_fold_ops W H (mkSegParams th len 7 vlen cw sp) lay
                ltac:(lia) HH Hs
                (fun di Hdi => ltac:(cbn [SEG_LEN SEG_HGAP SEG_THICK]; destruct (Hdig di Hdi); lia))
                ltac:(lia)
                (timeText c) (prevTimeStr sh) (seq 0 8) (prevDigitMask sh) [] op) as Hfold.
  destruct (fold_left _ (seq 0 8) (prevDigitMask sh, [])) as [masks ops].
  cbn [snd] in *. intros Hin.
  destruct Hfold as [[] | (i & Hpos & Hne & Hbox)].
  - intros j Hj. apply in_seq in Hj. lia.
  - exact Hin.
  - exists i. split; [exact Hpos | split; [exact Hne |]].
    unfold digitBounds. cbn [SEG_LEN SEG_HGAP SEG_THICK SEG_VLEN] in *.
    assert (Hdi : (digit_index i < 6)%nat).
    { unfold digit_positions in Hpos. cbn in Hpos.
      repeat (destruct Hpos as [<- | Hpos]; [cbn; lia |]). destruct Hpos. }
    destruct (Hdig _ Hdi). split; [exact Hbox | lia].
Qed.

Lemma only_changed_digits_are_repainted_witness :
  exists i,
    In i digit_positions
    /\ char_at (timeText (mkClockTime 0 0 0 12 34 57 false true)) i <> char_at "12:34:56" i
    /\ (let '(x, y, w, h) := digitBounds panel_params panel_layout (digit_index i) in
        op_in_box x y w h (DrawFastHLine 259 56 47 (oceanColorAtY panel_H 56))
        /\ 0 <= x /\ x + w <= panel_W).
Proof.
  apply (only_changed_digits_are_repainted panel_W panel_H
           (mkClockTime 0 0 0 12 34 57 false true)
           (mkShadow "12:34:56" "" [0x06; 0x5B; 0x4F; 0x66; 0x6D; 0x7D] 0 214 300)
           (DrawFastHLine 259 56 47 (oceanColorAtY panel_H 56))).
  - unfold panel_W. lia.
  - unfold panel_H. lia.
  - vm_compute. left. reflexivity.
Defined.

(** X24: the seconds bar is painted inside its frame.  With a bar that
    lies on the panel and a remembered width that is negative (nothing
    drawn yet) or within the bar, every command [drawSecondsBarFill] sends
    for a second from 0 to 59, whether it extends the bar or takes it
    back, paints inside the rectangle of the bar. *)
Theorem seconds_bar_stays_in_its_frame (W H sec : Z) (sh : Shadow) (op : TftOp) :
  1 <= W <= 32767 -> 1 <= H <= 32767 -> 0 <= sec <= 59 ->
  0 <= barW sh -> barX + barW sh <= W -> 0 <= barY sh <= 32000 ->
  prevFillW sh <= barW sh ->
  In op (snd (drawSecondsBarFill W H sec sh)) ->
  op_in_box barX (barY sh) (barW sh) barH op.
Proof.
  intros HW HH Hsec Hbw Hbar Hby Hprev. unfold drawSecondsBarFill.
  assert (Hf : 0 <= fillWidth (barW sh) sec <= barW sh).
  { rewrite fillWidth_value by (unfold INT_MAX, barX in *; lia). split.
    - apply Z.div_pos; nia.
    - apply Z.div_le_upper_bound; [lia | nia]. }
  unfold barX, barH in *.
  destruct (Z.eqb_spec (fillWidth (barW sh) sec) (prevFillW sh)) as [E | E]; [intros [] |].
  destruct (Z.ltb_spec (prevFillW sh) 0) as [Hneg | Hpos].
  - cbn [snd]. intros [<- | []]. cbn [op_in_box]. lia.
  - destruct (Z.ltb_spec (prevFillW sh) (fillWidth (barW sh) sec)) as [Hgrow | Hshrink].
    + cbn [snd]. intros [<- | []]. cbn [op_in_box]. lia.
    + cbn [snd]. intros Hin.
      apply (erase_in_box W H) in Hin; try (unfold INT_MAX; lia).
      destruct op; cbn [op_in_box] in *; try tauto; lia.
Qed.

Lemma seconds_bar_stays_in_its_frame_witness :
  op_in_box barX 214 300 barH (FillRect (barX + 147) 214 5 barH COL_BAR).
Proof.
  apply (seconds_bar_stays_in_its_frame panel_W panel_H 30
           (mkShadow "12:34:29" "" [0; 0; 0; 0; 0; 0] 147 214 300)
           (FillRect (barX + 147) 214 5 barH COL_BAR));
    try (unfold panel_W, panel_H, barX; cbn; lia).
  vm_compute. left. reflexivity.
Defined.

(** ** Neighbouring digits *)

(** X25: the box erased for a digit reaches into the cell of the digit to
    its right.  With the geometry and layout of [setup] on a panel at
    least 200 pixels wide, the box of the tens digit of hours, minutes and
    seconds ends [SEG_THICK - E_SP] columns (at least 3) to the right of
    the left edge of the units digit, where the left vertical segments of
    that digit are drawn. *)
Theorem refresh_box_reaches_into_next_cell (W : Z) (di : nat) :
  200 <= W <= 32767 -> di = 0%nat \/ di = 2%nat \/ di = 4%nat ->
  let p := autoSizeToFit W SegParams_init in
  let lay := setupLayout W p in
  let '(x, y, w, h) := digitBounds p lay di in
  x + w = elem (DIG_X lay) (S di) + (SEG_THICK p - E_SP p)
  /\ 3 <= SEG_THICK p - E_SP p <= SEG_THICK p
  /\ drawVSeg p (elem (DIG_X lay) (S di)) y (SEG_VLEN p) COL_GLOW
     = FillRoundRect (elem (DIG_X lay) (S di)) y (SEG_THICK p) (SEG_VLEN p)
                     (Z.quot (SEG_THICK p) 2) COL_GLOW.
Proof.
  intros HW Hdi. cbv zeta.
  destruct (autoSize_fits W HW) as (Hs & _).
  destruct (autoSizeLoop_outcome W 200 SegParams_init shrunk_init) as (_ & R2 & _).
  fold (autoSizeToFit W SegParams_init) in R2.
  destruct (setup_row W HW)
    as (th & len & vlen & cw & sp & x0 & Ep & Hth & Hlen & Hvlen & Hcw & Hsp & Hx0 & Hx0' & El).
  rewrite Ep in *. rewrite El. clear El.
  unfold digitBounds. cbn [SEG_LEN SEG_HGAP COLON_W E_SP SEG_THICK SEG_VLEN DIG_X DIGIT_Y].
  assert (Hgap : 3 <= th - sp).
  { destruct (Z.eq_dec th 5) as [-> | Hne]; [lia |].
    assert (Hsl : slack (mkSegParams th len 7 vlen cw sp) < 31).
    { unfold_mins. lia. }
    pose proof (autoSizeStep_shrinks W) as Hstep.
    (* a thickness below 5 is reached only after the gap has reached 0 *)
    assert (Hinv : forall n q, shrunk q -> (SEG_THICK q < 5 -> E_SP q = 0) ->
                     SEG_THICK (autoSizeLoop n W q) < 5 -> E_SP (autoSizeLoop n W q) = 0).
    { induction n as [| n IH]; intros q Hq Hq0; [exact Hq0 |].
      cbn [autoSizeLoop]. destruct (autoSizeStep W q) as [q' |] eqn:Eq; [| exact Hq0].
      destruct (Hstep q q' Hq Eq) as (_ & Hpr & Hq' & _).
      apply IH; [exact Hq' |].
      destruct q as [a b c d e f]. unfold shrinks_by_priority in Hpr. unfold_mins.
      destruct Hpr as [(? & ->) | [(? & ? & ->) | [(? & ? & ? & ->)
                      | [(? & ? & ? & ? & ->) | (? & ? & ? & ? & ? & ->)]]]];
        cbn; intros; lia. }
    specialize (Hinv 200%nat SegParams_init shrunk_init ltac:(cbn; lia)).
    fold (autoSizeToFit W SegParams_init) in Hinv. rewrite Ep in Hinv. cbn in Hinv.
    specialize (Hinv ltac:(lia)). lia. }
  destruct Hdi as [-> | [-> | ->]]; cbn [elem nth]; (split; [lia | split; [lia | reflexivity]]).
Qed.

Lemma refresh_box_reaches_into_next_cell_witness :
  let p := autoSizeToFit panel_W SegParams_init in
  let lay := setupLayout panel_W p in
  let '(x, y, w, h) := digitBounds p lay 4 in
  x + w = elem (DIG_X lay) 5 + (SEG_THICK p - E_SP p)
  /\ 3 <= SEG_THICK p - E_SP p <= SEG_THICK p
  /\ drawVSeg p (elem (DIG_X lay) 5) y (SEG_VLEN p) COL_GLOW
     = FillRoundRect (elem (DIG_X lay) 5) y (SEG_THICK p) (SEG_VLEN p)
                     (Z.quot (SEG_THICK p) 2) COL_GLOW.
Proof.
  apply (refresh_box_reaches_into_next_cell panel_W 4).
  - unfold panel_W. lia.
  - right. right. reflexivity.
Defined.

Lemma digit_char_inj a b : 0 <= a <= 9 -> 0 <= b <= 9 -> digit_char a = digit_char b -> a = b.
Proof.
  intros Ha Hb. each_digit Ha; each_digit Hb; intros E; first [reflexivity | discriminate E].
Qed.

Lemma two_chars n : 0 <= n <= 99 ->
  0 <= n / 10 <= 9 /\ 0 <= n mod 10 <= 9 /\ n = 10 * (n / 10) + n mod 10.
Proof.
  intros Hn. pose proof (Z.mod_pos_bound n 10 ltac:(lia)).
  pose proof (Z.div_mod n 10 ltac:(lia)). pose proof (tens_digit n Hn). lia.
Qed.

(** After a tick of a valid time of day the last digit of the text differs,
    and the digits that differ form a run at the right end. *)
Lemma tick_digits_suffix (t t' : ClockTime) :
  time_ok t -> tickOneSecond t = Some t' ->
  char_at (timeText t') 7 <> char_at (timeText t) 7
  /\ forall i j, In i digit_positions -> In j digit_positions -> (i < j)%nat ->
       char_at (timeText t') i <> char_at (timeText t) i ->
       char_at (timeText t') j <> char_at (timeText t) j.
Proof.
  intros Hok Ht.
  pose proof (tick_keeps_time_ok t t' Hok Ht) as Hok'.
  rewrite (timeText_short t Hok), (timeText_short t' Hok').
  pose proof Hok as (Hh & Hm & Hs). pose proof Hok' as (Hh' & Hm' & Hs').
  destruct (two_chars (hour t) ltac:(lia)) as (A1 & A2 & A3).
  destruct (two_chars (minute t) ltac:(lia)) as (B1 & B2 & B3).
  destruct (two_chars (second t) ltac:(lia)) as (C1 & C2 & C3).
  destruct (two_chars (hour t') ltac:(lia)) as (A1' & A2' & A3').
  destruct (two_chars (minute t') ltac:(lia)) as (B1' & B2' & B3').
  destruct (two_chars (second t') ltac:(lia)) as (C1' & C2' & C3').
  unfold short_text, two.
  assert (Rule : forall a b, 0 <= a <= 9 -> 0 <= b <= 9 ->
                   (digit_char a <> digit_char b <-> a <> b)).
  { intros a b Ha Hb. split; [congruence |].
    intros Hne E. apply Hne. apply (digit_char_inj a b Ha Hb E). }
  split.
  - destruct (tick_time_cases t t' Hok Ht)
      as [(Q & E1 & E2 & E3) | [(Q1 & Q2 & E1 & E2 & E3)
          | [(Q1 & Q2 & Q3 & E1 & E2 & E3) | (Q1 & Q2 & Q3 & E1 & E2 & E3)]]];
      rewrite E1, E2, E3 in *;
      cbn [append char_at String.get];
      rewrite ?Rule by lia; lia.
  - intros i j Hi Hj Hij.
    unfold digit_positions in Hi, Hj.
    cbn [In] in Hi, Hj.
    destruct (tick_time_cases t t' Hok Ht)
      as [(Q & E1 & E2 & E3) | [(Q1 & Q2 & E1 & E2 & E3)
          | [(Q1 & Q2 & Q3 & E1 & E2 & E3) | (Q1 & Q2 & Q3 & E1 & E2 & E3)]]];
      rewrite E1, E2, E3 in *;
      repeat (destruct Hi as [<- | Hi]; [| ]); try destruct Hi;
      repeat (destruct Hj as [<- | Hj]; [| ]); try destruct Hj;
      try lia;
      cbn [append char_at String.get];
      rewrite ?Rule by lia; lia.
Qed.

(** X26: a tick changes a run of digits at the right end.  After one call
    of [tickOneSecond] on a valid time of day the last digit of the
    displayed time always differs from the digit shown before, and if any
    digit differs, then so does every digit to its right. *)
Theorem tick_changes_a_suffix_of_the_digits (t t' : ClockTime) :
  time_ok t -> tickOneSecond t = Some t' ->
  char_at (timeText t') 7 <> char_at (timeText t) 7
  /\ forall i j, In i digit_positions -> In j digit_positions -> (i < j)%nat ->
       char_at (timeText t') i <> char_at (timeText t) i ->
       char_at (timeText t') j <> char_at (timeText t) j.
Proof. exact (tick_digits_suffix t t'). Qed.

Lemma tick_changes_a_suffix_of_the_digits_witness :
  char_at (timeText (mkClockTime 0 0 0 12 34 57 false true)) 7
  <> char_at (timeText (mkClockTime 0 0 0 12 34 56 false true)) 7
  /\ forall i j, In i digit_positions -> In j digit_positions -> (i < j)%nat ->
       char_at (timeText (mkClockTime 0 0 0 12 34 57 false true)) i
       <> char_at (timeText (mkClockTime 0 0 0 12 34 56 false true)) i ->
       char_at (timeText (mkClockTime 0 0 0 12 34 57 false true)) j
       <> char_at (timeText (mkClockTime 0 0 0 12 34 56 false true)) j.
Proof.
  apply (tick_changes_a_suffix_of_the_digits
           (mkClockTime 0 0 0 12 34 56 false true) (mkClockTime 0 0 0 12 34 57 false true)).
  - unfold time_ok, hms_valid. cbn. lia.
  - reflexivity.
Defined.

(** ** The date block and the frame of the seconds bar *)

Lemma no_frame_app (a b : list TftOp) :
  existsb is_frame (a ++ b) = existsb is_frame a || existsb is_frame b.
Proof. apply existsb_app. Qed.

Lemma no_frame_when (b : bool) (l : list TftOp) :
  existsb is_frame l = false -> existsb is_frame (when b l) = false.
Proof. destruct b; [auto | reflexivity]. Qed.

Lemma no_frame_erase W H x y w h : existsb is_frame (fillRectWithOceanBG W H x y w h) = false.
Proof.
  unfold fillRectWithOceanBG. destruct ((w <=? 0) || (h <=? 0)); [reflexivity |].
  cbv zeta. generalize (seq 0 (Z.to_nat
    (if int16 H <? int16 ((if y <? 0 then 0 else y) + (if y <? 0 then int16 (h + y) else h))
     then int16 (u16 (H - (if y <? 0 then 0 else y)))
     else if y <? 0 then int16 (h + y) else h))) as l.
  induction l as [| k l IH]; [reflexivity | exact IH].
Qed.

Lemma no_frame_segments W H p x y mask erase :
  existsb is_frame (drawDigitSegments W H p x y mask erase) = false.
Proof.
  unfold drawDigitSegments. cbv zeta. destruct erase.
  - unfold eraseHSegBG, eraseVSegBG.
    repeat rewrite no_frame_app.
    repeat rewrite no_frame_when by apply no_frame_erase. reflexivity.
  - repeat rewrite no_frame_app.
    repeat rewrite no_frame_when by reflexivity. reflexivity.
Qed.

Lemma no_frame_drawTimeDigit W H p lay cur prev masks ops i :
  existsb is_frame ops = false ->
  existsb is_frame (snd (drawTimeDigit W H p lay cur prev (masks, ops) i)) = false.
Proof.
  intros Hops. unfold drawTimeDigit.
  destruct (Nat.eqb i 2 || Nat.eqb i 5); [exact Hops |].
  destruct (Ascii.eqb (char_at cur i) (char_at prev i)); [exact Hops |].
  match goal with |- context [if ?b then _ else _] =>
    match b with (_ || _ || _ || _)%bool => destruct b end end.
  - unfold hardRefreshDigit, digitBounds. cbn [snd].
    rewrite !no_frame_app, Hops, no_frame_erase.
    rewrite no_frame_when by apply no_frame_segments. reflexivity.
  - cbn [snd]. rewrite !no_frame_app, Hops.
    rewrite !no_frame_when by apply no_frame_segments. reflexivity.
Qed.

Lemma no_frame_drawTimeDigits W H p lay c sh :
  existsb is_frame (snd (drawTimeDigits W H p lay c sh)) = false.
Proof.
  unfold drawTimeDigits.
  assert (Hfold : forall l masks ops, existsb is_frame ops = false ->
            existsb is_frame
              (snd (fold_left (drawTimeDigit W H p lay (timeText c) (prevTimeStr sh)) l
                      (masks, ops))) = false).
  { induction l as [| i l IH]; intros masks ops Hops; [exact Hops |].
    cbn [fold_left].
    pose proof (no_frame_drawTimeDigit W H p lay (timeText c) (prevTimeStr sh) masks ops i
                  Hops) as Hstep.
    destruct (drawTimeDigit W H p lay (timeText c) (prevTimeStr sh) (masks, ops) i)
      as [m1 o1].
    apply IH. exact Hstep. }
  specialize (Hfold (seq 0 8) (prevDigitMask sh) [] eq_refl).
  destruct (fold_left _ (seq 0 8) (prevDigitMask sh, [])) as [masks ops]. exact Hfold.
Qed.

Lemma no_frame_drawSecondsBarFill W H sec sh :
  existsb is_frame (snd (drawSecondsBarFill W H sec sh)) = false.
Proof.
  unfold drawSecondsBarFill.
  destruct (_ =? _); [reflexivity |].
  destruct (_ <? 0); [reflexivity |].
  destruct (_ <? _); [reflexivity | apply no_frame_erase].
Qed.

Lemma no_frame_drawDateLine W H textWidth c sh :
  existsb is_frame (snd (drawDateLine W H textWidth c sh)) = false.
Proof.
  unfold drawDateLine. destruct (strcmp_ne _ _); [| reflexivity].
  cbn [snd]. rewrite !no_frame_app, no_frame_erase. reflexivity.
Qed.

(** The rectangle the date block erases, on a panel it fits on. *)
Lemma date_block_rows W H :
  1 <= W <= 32767 -> 70 <= H <= 32767 ->
  fillRectWithOceanBG W H 0 (int16 (u16 (H - 70))) (int16 W) 45
  = map (fun k => DrawFastHLine 0 (H - 70 + Z.of_nat k) W
                    (oceanColorAtY H (H - 70 + Z.of_nat k)))
        (seq 0 45).
Proof.
  intros HW HH. unfold fillRectWithOceanBG.
  rewrite (int16_u16 (H - 70)) by (unfold INT_MIN, INT_MAX; lia).
  rewrite (int16_id W) by (unfold INT_MIN, INT_MAX; lia).
  replace (W <=? 0) with false by (symmetry; apply Z.leb_gt; lia).
  cbn [orb Z.leb Z.compare].
  replace (H - 70 <? 0) with false by (symmetry; apply Z.ltb_ge; lia).
  cbn [Z.ltb Z.compare]. cbv zeta.
  rewrite (u16_id (0 + W)) by lia.
  replace (W <? 0 + W) with false by (symmetry; apply Z.ltb_ge; lia).
  rewrite (int16_id H), (int16_id (H - 70 + 45)) by (unfold INT_MIN, INT_MAX; lia).
  replace (H <? H - 70 + 45) with false by (symmetry; apply Z.ltb_ge; lia).
  reflexivity.
Qed.

(** X30: the redraw of the date at midnight wipes the top of the frame of
    the seconds bar, and nothing puts it back.  On a panel at least 70
    rows high the frame is drawn with its top edge in row [H - 27].  In
    the second of the catch-up loop that reaches 00:00:00 with a date text
    that differs from the one on the panel, the date block is erased with
    full-width lines down to row [H - 26], which repaints rows [H - 27]
    and [H - 26], and none of the commands of that second draws the
    frame. *)
Theorem midnight_redraw_wipes_top_of_bar_frame
    (W H : Z) (p : SegParams) (lay : Layout) (textWidth : string -> Z)
    (c c' : ClockTime) (sh sh' : Shadow) (ops : list TftOp) :
  1 <= W <= 32767 -> 70 <= H <= 32767 ->
  secondStep W H p lay textWidth c sh = Some (c', sh', ops) ->
  hour c' = 0 -> minute c' = 0 -> second c' = 0 ->
  strcmp_ne (dateText c') (prevDateStr sh) = true ->
  snd (drawSecondsBarFrameOnce W H sh)
  = [DrawRoundRect (barX - 1) (H - 27) (W - 20 + 2) (barH + 2) 4 COL_GLOW2]
  /\ In (DrawFastHLine 0 (H - 27) W (oceanColorAtY H (H - 27))) ops
  /\ In (DrawFastHLine 0 (H - 26) W (oceanColorAtY H (H - 26))) ops
  /\ existsb is_frame ops = false.
Proof.
  intros HW HH Hs Eh Em Es Hdate. split.
  { unfold drawSecondsBarFrameOnce. cbn [snd].
    rewrite (int16_u16 (H - 26)), (int16_u16 (W - 20)) by (unfold INT_MIN, INT_MAX; lia).
    do 2 f_equal. lia. }
  unfold secondStep in Hs.
  destruct (tickOneSecond c) as [c1 |]; [| discriminate Hs].
  pose proof (drawTimeDigits_stores W H p lay c1 sh) as S1.
  pose proof (no_frame_drawTimeDigits W H p lay c1 sh) as N1.
  destruct (drawTimeDigits W H p lay c1 sh) as [sh1 o1].
  pose proof (drawSecondsBarFill_stores W H (second c1) sh1) as S2.
  pose proof (no_frame_drawSecondsBarFill W H (second c1) sh1) as N2.
  destruct (drawSecondsBarFill W H (second c1) sh1) as [sh2 o2].
  cbn [fst snd] in *.
  destruct S1 as (_ & D1 & _), S2 as (_ & _ & D2 & _).
  destruct ((hour c1 =? 0) && (minute c1 =? 0) && (second c1 =? 0)) eqn:Emid.
  - pose proof (no_frame_drawDateLine W H textWidth c1 sh2) as N3.
    destruct (drawDateLine W H textWidth c1 sh2) as [sh3 o3] eqn:Edl. cbn [snd] in *.
    injection Hs as Ec _ <-. subst c1.
    assert (E3 : o3
                 = [SetTextSize 2; SetTextColor COL_TEXT COL_BG]
                   ++ fillRectWithOceanBG W H 0 (int16 (u16 (H - 70))) (int16 W) 45
                   ++ [SetCursor (int16 (u16 (W - textWidth (dateText c')) / 2))
                                 (int16 (u16 (H - 70)));
                       Print (dateText c');
                       SetCursor (int16 (u16 (W - textWidth (weekdayText c')) / 2))
                                 (int16 (u16 (H - 50)));
                       Print (weekdayText c')]).
    { unfold drawDateLine in Edl. rewrite D2, D1, Hdate in Edl.
      injection Edl as _ <-. reflexivity. }
    rewrite !no_frame_app, N1, N2, N3.
    assert (Hrow : forall k, (k < 45)%nat ->
              In (DrawFastHLine 0 (H - 70 + Z.of_nat k) W
                    (oceanColorAtY H (H - 70 + Z.of_nat k))) (o1 ++ o2 ++ o3)).
    { intros k Hk. apply in_or_app. right. apply in_or_app. right.
      rewrite E3. apply in_or_app. right. apply in_or_app. left.
      rewrite (date_block_rows W H HW HH).
      apply in_map_iff. exists k. split; [reflexivity | apply in_seq; lia]. }
    split; [| split; [| reflexivity]].
    + replace (H - 27) with (H - 70 + Z.of_nat 43) by lia. apply Hrow. lia.
    + replace (H - 26) with (H - 70 + Z.of_nat 44) by lia. apply Hrow. lia.
  - exfalso. injection Hs as Ec _ _. subst c1.
    rewrite Eh, Em, Es in Emid. discriminate Emid.
Qed.

Lemma midnight_redraw_wipes_top_of_bar_frame_witness :
  snd (drawSecondsBarFrameOnce panel_W panel_H Shadow_init)
  = [DrawRoundRect (barX - 1) (panel_H - 27) (panel_W - 20 + 2) (barH + 2) 4 COL_GLOW2]
  /\ In (DrawFastHLine 0 (panel_H - 27) panel_W (oceanColorAtY panel_H (panel_H - 27)))
        (snd (match secondStep panel_W panel_H panel_params panel_layout panel_textWidth
                      feb28_2024 Shadow_init with
              | Some r => r
              | None => (feb28_2024, Shadow_init, [])
              end))
  /\ In (DrawFastHLine 0 (panel_H - 26) panel_W (oceanColorAtY panel_H (panel_H - 26)))
        (snd (match secondStep panel_W panel_H panel_params panel_layout panel_textWidth
                      feb28_2024 Shadow_init with
              | Some r => r
              | None => (feb28_2024, Shadow_init, [])
              end))
  /\ existsb is_frame
       (snd (match secondStep panel_W panel_H panel_params panel_layout panel_textWidth
                     feb28_2024 Shadow_init with
             | Some r => r
             | None => (feb28_2024, Shadow_init, [])
             end)) = false.
Proof.
  apply (midnight_redraw_wipes_top_of_bar_frame panel_W panel_H panel_params panel_layout
           panel_textWidth feb28_2024 (mkClockTime 2024 2 29 0 0 0 true true) Shadow_init
           (snd (fst (match secondStep panel_W panel_H panel_params panel_layout
                              panel_textWidth feb28_2024 Shadow_init with
                      | Some r => r
                      | None => (feb28_2024, Shadow_init, [])
                      end))));
    try reflexivity; try (unfold panel_W, panel_H; lia).
Defined.

(** ** The catch-up loop, second by second *)

Section SecondBySecond.

Variables W H : Z.
Variable p : SegParams.
Variable lay : Layout.
Variable textWidth : string -> Z.

Lemma no_segments_of_no_mask x y : drawDigitSegments W H p x y 0 false = [].
Proof. reflexivity. Qed.

(** One pass of the loop of [drawTimeDigits] adds commands behind those
    collected so far; at a digit whose character differs it adds the
    repaint of that digit. *)
Lemma drawTimeDigit_adds cur prev masks ops i :
  exists m' o',
    drawTimeDigit W H p lay cur prev (masks, ops) i = (m', ops ++ o')
    /\ (In i digit_positions -> char_at cur i <> char_at prev i ->
        o' = digit_repaint W H p lay cur i).
Proof.
  unfold drawTimeDigit.
  destruct (Nat.eqb i 2 || Nat.eqb i 5) eqn:Ecolon.
  { exists masks, []. rewrite app_nil_r. split; [reflexivity |].
    intros Hi _. apply orb_true_iff in Ecolon.
    destruct Ecolon as [E | E]; apply Nat.eqb_eq in E; subst i;
      cbn in Hi; repeat (destruct Hi as [Hi | Hi]; [discriminate Hi |]); destruct Hi. }
  destruct (Ascii.eqb (char_at cur i) (char_at prev i)) eqn:Esame.
  { exists masks, []. rewrite app_nil_r. split; [reflexivity |].
    intros _ Hne. apply Ascii.eqb_eq in Esame. contradiction. }
  fold (mask_of_char (char_at cur i)). fold (digit_index i).
  match goal with |- context [if ?b then _ else _] =>
    match b with (_ || _ || _ || _)%bool => destruct b eqn:Ehard end end.
  - unfold hardRefreshDigit, digit_repaint.
    destruct (digitBounds p lay (digit_index i)) as [[[x y] w] h].
    eexists _, _. split; [reflexivity |]. intros _ _. f_equal.
    destruct (mask_of_char (char_at cur i) =? 0) eqn:Ez; [| reflexivity].
    apply Z.eqb_eq in Ez. rewrite Ez. reflexivity.
  - eexists _, _. split; [reflexivity |]. intros Hi _. exfalso.
    cbn in Hi.
    repeat (destruct Hi as [Hi | Hi]; [subst i; discriminate Ehard |]). destruct Hi.
Qed.

Lemma drawTimeDigits_fold_adds cur prev l : forall masks ops,
  exists m' o',
    fold_left (drawTimeDigit W H p lay cur prev) l (masks, ops) = (m', ops ++ o')
    /\ forall i, In i l -> In i digit_positions -> char_at cur i <> char_at prev i ->
         incl (digit_repaint W H p lay cur i) o'.
Proof.
  induction l as [| j l IH]; intros masks ops.
  - exists masks, []. rewrite app_nil_r. split; [reflexivity | intros i []].
  - cbn [fold_left].
    destruct (drawTimeDigit_adds cur prev masks ops j) as (m1 & o1 & -> & H1).
    destruct (IH m1 (ops ++ o1)) as (m2 & o2 & -> & H2).
    exists m2, (o1 ++ o2). rewrite app_assoc. split; [reflexivity |].
    intros i [<- | Hi] Hp Hne.
    + rewrite (H1 Hp Hne). apply incl_appl, incl_refl.
    + apply incl_appr. apply H2; assumption.
Qed.

(** [drawTimeDigits] repaints every digit that differs from the text of
    the shadow state. *)
Lemma drawTimeDigits_repaints c sh i :
  In i digit_positions -> char_at (timeText c) i <> char_at (prevTimeStr sh) i ->
  incl (digit_repaint W H p lay (timeText c) i) (snd (drawTimeDigits W H p lay c sh)).
Proof.
  intros Hp Hne. unfold drawTimeDigits.
  destruct (drawTimeDigits_fold_adds (timeText c) (prevTimeStr sh) (seq 0 8)
              (prevDigitMask sh) []) as (m' & o' & -> & Hin).
  cbn [snd app]. apply Hin; [| exact Hp | exact Hne].
  cbn in Hp. cbn. intuition.
Qed.

Lemma drawTimeDigits_keeps_bar c sh :
  let sh' := fst (drawTimeDigits W H p lay c sh) in
  prevFillW sh' = prevFillW sh /\ barW sh' = barW sh /\ barY sh' = barY sh.
Proof.
  unfold drawTimeDigits.
  destruct (fold_left _ (seq 0 8) (prevDigitMask sh, [])) as [masks ops].
  cbn. auto.
Qed.

(** What [drawSecondsBarFill] sends, by the remembered width. *)
Lemma drawSecondsBarFill_moves sec sh :
  let fw := fillWidth (barW sh) sec in
  let r := drawSecondsBarFill W H sec sh in
  prevFillW (fst r) = fw /\ barW (fst r) = barW sh /\ barY (fst r) = barY sh
  /\ prevTimeStr (fst r) = prevTimeStr sh
  /\ (prevFillW sh < 0 -> fw <> prevFillW sh ->
      snd r = [FillRect barX (barY sh) fw barH COL_BAR])
  /\ (0 <= prevFillW sh < fw ->
      snd r = [FillRect (barX + prevFillW sh) (barY sh) (fw - prevFillW sh) barH COL_BAR])
  /\ (0 <= prevFillW sh -> fw < prevFillW sh ->
      snd r = fillRectWithOceanBG W H (barX + fw) (barY sh) (prevFillW sh - fw) barH).
Proof.
  cbv zeta. unfold drawSecondsBarFill.
  destruct (Z.eqb_spec (fillWidth (barW sh) sec) (prevFillW sh)) as [E | E].
  - cbn [fst snd]. repeat split; auto; intros; lia.
  - destruct (Z.ltb_spec (prevFillW sh) 0) as [E0 | E0].
    + cbn [fst snd prevFillW barW barY prevTimeStr]. repeat split; auto; intros; lia.
    + destruct (Z.ltb_spec (prevFillW sh) (fillWidth (barW sh) sec)) as [E1 | E1];
        cbn [fst snd prevFillW barW barY prevTimeStr]; repeat split; auto; intros; lia.
Qed.

Lemma drawDateLine_keeps_bar c sh :
  let sh' := fst (drawDateLine W H textWidth c sh) in
  prevTimeStr sh' = prevTimeStr sh /\ prevFillW sh' = prevFillW sh
  /\ barW sh' = barW sh /\ barY sh' = barY sh.
Proof.
  unfold drawDateLine. destruct (strcmp_ne (dateText c) (prevDateStr sh)); cbn; auto.
Qed.

(** One second of the loop advances the clock by one second and puts it
    on the panel. *)
Lemma secondStep_shown c sh c' sh' o :
  time_ok c -> secondStep W H p lay textWidth c sh = Some (c', sh', o) ->
  second_shown W H p lay c sh c' sh' o.
Proof.
  intros Hok Hs. unfold secondStep in Hs.
  destruct (tickOneSecond c) as [c1 |] eqn:Ht; [| discriminate Hs].
  pose proof (tick_keeps_time_ok c c1 Hok Ht) as Hok1.
  pose proof (tick_secs_of_day c c1 Hok Ht) as Hsec.
  pose proof (tick_date_only_at_midnight c c1 Hok Ht) as Hdate.
  pose proof (drawTimeDigits_stores W H p lay c1 sh) as S1.
  pose proof (drawTimeDigits_keeps_bar c1 sh) as B1.
  pose proof (fun i => drawTimeDigits_repaints c1 sh i) as R1.
  destruct (drawTimeDigits W H p lay c1 sh) as [sh1 o1].
  pose proof (drawSecondsBarFill_moves (second c1) sh1) as M2.
  destruct (drawSecondsBarFill W H (second c1) sh1) as [sh2 o2].
  cbv zeta in S1, B1, M2. cbn [fst snd] in *.
  destruct S1 as (T1 & _), B1 as (F1 & W1 & Y1).
  rewrite F1, W1, Y1 in M2. destruct M2 as (F2 & W2 & Y2 & T2 & Mfirst & Mgrow & Mback).
  assert (Hrest : exists sh3 o3,
            Some (c1, sh3, o1 ++ o2 ++ o3) = Some (c', sh', o)
            /\ prevTimeStr sh3 = prevTimeStr sh2 /\ prevFillW sh3 = prevFillW sh2
            /\ barW sh3 = barW sh2 /\ barY sh3 = barY sh2).
  { destruct ((hour c1 =? 0) && (minute c1 =? 0) && (second c1 =? 0)).
    - pose proof (drawDateLine_keeps_bar c1 sh2) as D3.
      destruct (drawDateLine W H textWidth c1 sh2) as [sh3 o3].
      exists sh3, o3. split; [exact Hs | exact D3].
    - exists sh2, []. split; [exact Hs | auto]. }
  destruct Hrest as (sh3 & o3 & E & T3 & F3 & W3 & Y3).
  injection E as <- <- <-.
  unfold second_shown. cbv zeta.
  split; [exact Ht | split; [exact Hok1 | split; [exact Hsec | split; [exact Hdate |]]]].
  split; [congruence | split; [congruence | split; [congruence | split; [congruence |]]]].
  split.
  { intros i Hp Hne. apply incl_appl. apply R1; assumption. }
  split.
  { intros Hprev. apply incl_appl. apply R1; [cbn; tauto |].
    rewrite Hprev. apply (tick_digits_suffix c c1 Hok Ht). }
  split; [| split].
  - intros Hneg Hne. apply in_or_app. right. apply in_or_app. left.
    rewrite (Mfirst Hneg Hne). left. reflexivity.
  - intros Hgrow. apply in_or_app. right. apply in_or_app. left.
    rewrite (Mgrow Hgrow). left. reflexivity.
  - intros Hpos Hback. apply incl_appr, incl_appl. rewrite (Mback Hpos Hback). apply incl_refl.
Qed.

(** [a + b] seconds are [a] seconds followed by [b] seconds. *)
Lemma seconds_run_add a b : forall c sh,
  seconds_run W H p lay textWidth (a + b) c sh
  = match seconds_run W H p lay textWidth a c sh with
    | Some (ca, sha, oa) =>
        match seconds_run W H p lay textWidth b ca sha with
        | Some (cb, shb, ob) => Some (cb, shb, oa ++ ob)
        | None => None
        end
    | None => None
    end.
Proof.
  induction a as [| a IH]; intros c sh.
  - cbn [Nat.add seconds_run].
    destruct (seconds_run W H p lay textWidth b c sh) as [[[cb shb] ob] |]; reflexivity.
  - cbn [Nat.add seconds_run].
    destruct (secondStep W H p lay textWidth c sh) as [[[c1 sh1] o1] |]; [| reflexivity].
    rewrite IH.
    destruct (seconds_run W H p lay textWidth a c1 sh1) as [[[ca sha] oa] |]; [| reflexivity].
    destruct (seconds_run W H p lay textWidth b ca sha) as [[[cb shb] ob] |]; [| reflexivity].
    rewrite app_assoc. reflexivity.
Qed.

(** Any number of seconds can be run from a set clock the sketch can
    reach; the clock they leave is again such a clock, that many seconds
    of the day later. *)
Lemma seconds_run_defined k : forall c sh,
  reachable c -> isSet c = true ->
  exists ck shk ok,
    seconds_run W H p lay textWidth k c sh = Some (ck, shk, ok)
    /\ reachable ck /\ isSet ck = true
    /\ secs_of_day ck = (secs_of_day c + Z.of_nat k) mod 86400.
Proof.
  induction k as [| k IH]; intros c sh Hr Hset.
  - exists c, sh, []. split; [reflexivity |]. split; [exact Hr | split; [exact Hset |]].
    pose proof (reachable_time_ok c Hr) as (Hh & Hm & Hs). unfold secs_of_day.
    rewrite Z.add_0_r, Z.mod_small by lia. reflexivity.
  - cbn [seconds_run].
    pose proof (secondStep_clock W H p lay textWidth c sh) as Hs.
    destruct (secondStep W H p lay textWidth c sh) as [[[c1 sh1] o1] |].
    + cbn [fst] in Hs.
      destruct (tick_date_cases c c1 Hs) as (_ & Eset & _).
      destruct (IH c1 sh1) as (ck & shk & ok & -> & Rk & Sk & Dk).
      * apply (reach_tick c c1); assumption.
      * congruence.
      * exists ck, shk, (o1 ++ ok). split; [reflexivity |].
        split; [exact Rk | split; [exact Sk |]].
        rewrite Dk, (tick_secs_of_day c c1 (reachable_time_ok c Hr) Hs).
        rewrite Zplus_mod_idemp_l. f_equal. lia.
    + exfalso. destruct (tick_defined c (reachable_month c Hr)) as (c1 & Hc1). congruence.
Qed.

(** Each of [n] seconds run in a row is one second shown, in order. *)
Lemma seconds_run_each n c sh c' sh' ops :
  reachable c -> isSet c = true ->
  seconds_run W H p lay textWidth n c sh = Some (c', sh', ops) ->
  forall k, (k < n)%nat ->
    exists ck shk ok ck1 shk1 o later,
      seconds_run W H p lay textWidth k c sh = Some (ck, shk, ok)
      /\ seconds_run W H p lay textWidth (S k) c sh = Some (ck1, shk1, ok ++ o)
      /\ ops = ok ++ o ++ later
      /\ secs_of_day ck = (secs_of_day c + Z.of_nat k) mod 86400
      /\ second_shown W H p lay ck shk ck1 shk1 o.
Proof.
  intros Hr Hset Hrun k Hk.
  destruct (seconds_run_defined k c sh Hr Hset) as (ck & shk & ok & Ek & Rk & Sk & Dk).
  replace n with (k + (1 + (n - S k)))%nat in Hrun by lia.
  rewrite seconds_run_add, Ek, seconds_run_add in Hrun.
  assert (E1 : seconds_run W H p lay textWidth (S k) c sh
               = match seconds_run W H p lay textWidth 1 ck shk with
                 | Some (cb, shb, ob) => Some (cb, shb, ok ++ ob)
                 | None => None
                 end).
  { replace (S k) with (k + 1)%nat by lia. rewrite seconds_run_add, Ek. reflexivity. }
  cbn [seconds_run] in Hrun, E1.
  destruct (secondStep W H p lay textWidth ck shk) as [[[ck1 shk1] o] |] eqn:Es;
    [| discriminate Hrun].
  rewrite app_nil_r in Hrun, E1.
  destruct (seconds_run W H p lay textWidth (n - S k) ck1 shk1) as [[[cz shz] later] |];
    [| discriminate Hrun].
  injection Hrun as _ _ <-.
  exists ck, shk, ok, ck1, shk1, o, later.
  split; [exact Ek | split; [exact E1 | split; [reflexivity | split; [exact Dk |]]]].
  apply (secondStep_shown ck shk ck1 shk1 o (reachable_time_ok ck Rk) Es).
Qed.

End SecondBySecond.

(** C5: when the clock is set and [n >= 1] whole seconds have elapsed
    since [lastTickMs] (as the unsigned 32-bit test of the loop measures
    them), the catch-up loop handles exactly the [n] seconds one after the
    other.  The clock ends [n] seconds of the day later, as
    [tickOneSecond] applied [n] times.  Each of the [n] seconds starts
    from the clock and shadow state the seconds before it left, advances
    the clock by one call of [tickOneSecond], which is exactly one second
    of the day, and sends its own commands, in order, which repaint the
    digits that differ from the shadow text (the last digit at least, once
    the shadow text is the text of the clock) and move the end of the
    seconds bar to the width of the new second.  [lastTickMs] has advanced
    by [n * 1000] (modulo 2^32, the range of [unsigned long]), leaving
    less than a second of elapsed time. *)
Theorem catch_up_advances_every_elapsed_second
    (W H : Z) (p : SegParams) (lay : Layout) (textWidth : string -> Z)
    (ms : Z) (st : Sketch) (n : nat) :
  isSet (ct st) = true ->
  reachable (ct st) ->
  0 <= lastTickMs st < 2 ^ 32 ->
  Z.of_nat n = elapsed_seconds ms (lastTickMs st) ->
  (1 <= n)%nat ->
  exists c' sh' ops,
    seconds_run W H p lay textWidth n (ct st) (shadow st) = Some (c', sh', ops)
    /\ tick_times (N.of_nat n) (ct st) = Some c'
    /\ clockPhase W H p lay textWidth ms st
       = Some (mkSketch c' sh' (u32 (lastTickMs st + Z.of_nat n * 1000))
                        (repaintAll st) (lastStatus st) (tft st ++ ops) (bt st))
    /\ secs_of_day c' = (secs_of_day (ct st) + Z.of_nat n) mod 86400
    /\ (forall k, (k < n)%nat ->
          exists ck shk ok ck1 shk1 o later,
            seconds_run W H p lay textWidth k (ct st) (shadow st) = Some (ck, shk, ok)
            /\ seconds_run W H p lay textWidth (S k) (ct st) (shadow st)
               = Some (ck1, shk1, ok ++ o)
            /\ ops = ok ++ o ++ later
            /\ secs_of_day ck = (secs_of_day (ct st) + Z.of_nat k) mod 86400
            /\ second_shown W H p lay ck shk ck1 shk1 o)
    /\ u32 (ms - u32 (lastTickMs st + Z.of_nat n * 1000))
       = u32 (ms - lastTickMs st) - Z.of_nat n * 1000
    /\ u32 (ms - u32 (lastTickMs st + Z.of_nat n * 1000)) < 1000
    /\ (lastTickMs st + Z.of_nat n * 1000 < 2 ^ 32 ->
        u32 (lastTickMs st + Z.of_nat n * 1000) = lastTickMs st + Z.of_nat n * 1000).
Proof.
  intros Hset Hr Hl Hn _.
  destruct (catchUp_runs W H p lay textWidth ms n (lastTickMs st) (ct st) (shadow st) []
              Hl Hn Hset Hr) as (c' & sh' & ops & R & C & _ & _).
  exists c', sh', ops.
  split; [exact R | split; [apply (seconds_run_ticks W H p lay textWidth n _ _ _ _ _ R) |]].
  split.
  { unfold clockPhase. rewrite Hset, C. reflexivity. }
  split.
  { destruct (seconds_run_defined W H p lay textWidth n (ct st) (shadow st) Hr Hset)
      as (cn & shn & on & En & _ & _ & Dn).
    rewrite R in En. injection En as <- _ _. exact Dn. }
  split.
  { apply (seconds_run_each W H p lay textWidth n (ct st) (shadow st) c' sh' ops Hr Hset R). }
  assert (E : u32 (ms - u32 (lastTickMs st + Z.of_nat n * 1000))
              = u32 (ms - lastTickMs st) - Z.of_nat n * 1000).
  { unfold elapsed_seconds in Hn. pose proof (u32_range (ms - lastTickMs st)) as Hu.
    pose proof (Z.div_mod (u32 (ms - lastTickMs st)) 1000 ltac:(lia)) as Hdm.
    pose proof (Z.mod_pos_bound (u32 (ms - lastTickMs st)) 1000 ltac:(lia)) as Hmb.
    unfold u32 in *. rewrite Zminus_mod_idemp_r.
    replace (ms - (lastTickMs st + Z.of_nat n * 1000))
      with ((ms - lastTickMs st) - Z.of_nat n * 1000) by lia.
    rewrite <- Zminus_mod_idemp_l. apply Z.mod_small.
    change (2 ^ 32) with 4294967296 in *. lia. }
  split; [exact E | split].
  - rewrite E. unfold elapsed_seconds in Hn.
    pose proof (Z.div_mod (u32 (ms - lastTickMs st)) 1000 ltac:(lia)) as Hdm.
    pose proof (Z.mod_pos_bound (u32 (ms - lastTickMs st)) 1000 ltac:(lia)) as Hmb.
    lia.
  - intros Hlt. apply u32_id. change (2 ^ 32) with 4294967296 in *. lia.
Qed.

Lemma catch_up_advances_every_elapsed_second_witness :
  exists c' sh' ops,
    seconds_run panel_W panel_H panel_params panel_layout panel_textWidth 2
      (ct synced_sketch) (shadow synced_sketch) = Some (c', sh', ops)
    /\ tick_times (N.of_nat 2) (ct synced_sketch) = Some c'
    /\ clockPhase panel_W panel_H panel_params panel_layout panel_textWidth 2500
         synced_sketch
       = Some (mkSketch c' sh' (u32 (lastTickMs synced_sketch + Z.of_nat 2 * 1000))
                        (repaintAll synced_sketch) (lastStatus synced_sketch)
                        (tft synced_sketch ++ ops) (bt synced_sketch))
    /\ secs_of_day c' = (secs_of_day (ct synced_sketch) + Z.of_nat 2) mod 86400
    /\ (forall k, (k < 2)%nat ->
          exists ck shk ok ck1 shk1 o later,
            seconds_run panel_W panel_H panel_params panel_layout panel_textWidth k
              (ct synced_sketch) (shadow synced_sketch) = Some (ck, shk, ok)
            /\ seconds_run panel_W panel_H panel_params panel_layout panel_textWidth (S k)
                 (ct synced_sketch) (shadow synced_sketch)
               = Some (ck1, shk1, ok ++ o)
            /\ ops = ok ++ o ++ later
            /\ secs_of_day ck = (secs_of_day (ct synced_sketch) + Z.of_nat k) mod 86400
            /\ second_shown panel_W panel_H panel_params panel_layout ck shk ck1 shk1 o)
    /\ u32 (2500 - u32 (lastTickMs synced_sketch + Z.of_nat 2 * 1000))
       = u32 (2500 - lastTickMs synced_sketch) - Z.of_nat 2 * 1000
    /\ u32 (2500 - u32 (lastTickMs synced_sketch + Z.of_nat 2 * 1000)) < 1000
    /\ (lastTickMs synced_sketch + Z.of_nat 2 * 1000 < 2 ^ 32 ->
        u32 (lastTickMs synced_sketch + Z.of_nat 2 * 1000)
        = lastTickMs synced_sketch + Z.of_nat 2 * 1000).
Proof.
  apply (catch_up_advances_every_elapsed_second
           panel_W panel_H panel_params panel_layout panel_textWidth 2500 synced_sketch 2).
  - reflexivity.
  - apply (reach_sync ClockTime_init "2024-02-28 23:59:59" feb28_2024).
    + apply reach_startup.
    + reflexivity.
  - simpl. lia.
  - reflexivity.
  - lia.
Defined.

(** ** The text on the environment line *)

Lemma off_env_line_nil : off_env_line [].
Proof. intros st. reflexivity. Qed.

Lemma off_env_line_app a b : off_env_line a -> off_env_line b -> off_env_line (a ++ b).
Proof. intros Ha Hb st. rewrite fold_left_app, Hb, Ha. reflexivity. Qed.

Lemma no_text_unchanged ops : forall st,
  existsb is_text ops = false -> fold_left textStep ops st = st.
Proof.
  induction ops as [| op ops IH]; intros st Hn; [reflexivity |].
  cbn [existsb] in Hn. apply orb_false_iff in Hn. destruct Hn as [Hop Hn].
  cbn [fold_left]. rewrite <- (IH st Hn) at 2. f_equal.
  destruct op; try reflexivity; discriminate Hop.
Qed.

Lemma no_text_off_env_line ops : existsb is_text ops = false -> off_env_line ops.
Proof. intros Hn st. rewrite no_text_unchanged by exact Hn. reflexivity. Qed.

Lemma no_text_app (a b : list TftOp) :
  existsb is_text (a ++ b) = existsb is_text a || existsb is_text b.
Proof. apply existsb_app. Qed.

Lemma no_text_when (b : bool) (l : list TftOp) :
  existsb is_text l = false -> existsb is_text (when b l) = false.
Proof. destruct b; [auto | reflexivity]. Qed.

Lemma no_text_erase W H x y w h : existsb is_text (fillRectWithOceanBG W H x y w h) = false.
Proof.
  unfold fillRectWithOceanBG. destruct ((w <=? 0) || (h <=? 0)); [reflexivity |].
  cbv zeta. generalize (seq 0 (Z.to_nat
    (if int16 H <? int16 ((if y <? 0 then 0 else y) + (if y <? 0 then int16 (h + y) else h))
     then int16 (u16 (H - (if y <? 0 then 0 else y)))
     else if y <? 0 then int16 (h + y) else h))) as l.
  induction l as [| k l IH]; [reflexivity | exact IH].
Qed.

Lemma no_text_segments W H p x y mask erase :
  existsb is_text (drawDigitSegments W H p x y mask erase) = false.
Proof.
  unfold drawDigitSegments. cbv zeta. destruct erase.
  - unfold eraseHSegBG, eraseVSegBG.
    repeat rewrite no_text_app.
    repeat rewrite no_text_when by apply no_text_erase. reflexivity.
  - repeat rewrite no_text_app.
    repeat rewrite no_text_when by reflexivity. reflexivity.
Qed.

Lemma no_text_drawTimeDigit W H p lay cur prev masks ops i :
  existsb is_text ops = false ->
  existsb is_text (snd (drawTimeDigit W H p lay cur prev (masks, ops) i)) = false.
Proof.
  intros Hops. unfold drawTimeDigit.
  destruct (Nat.eqb i 2 || Nat.eqb i 5); [exact Hops |].
  destruct (Ascii.eqb (char_at cur i) (char_at prev i)); [exact Hops |].
  match goal with |- context [if ?b then _ else _] =>
    match b with (_ || _ || _ || _)%bool => destruct b end end.
  - unfold hardRefreshDigit, digitBounds. cbn [snd].
    rewrite !no_text_app, Hops, no_text_erase.
    rewrite no_text_when by apply no_text_segments. reflexivity.
  - cbn [snd]. rewrite !no_text_app, Hops.
    rewrite !no_text_when by apply no_text_segments. reflexivity.
Qed.

Lemma no_text_drawTimeDigits W H p lay c sh :
  existsb is_text (snd (drawTimeDigits W H p lay c sh)) = false.
Proof.
  unfold drawTimeDigits.
  assert (Hfold : forall l masks ops, existsb is_text ops = false ->
            existsb is_text
              (snd (fold_left (drawTimeDigit W H p lay (timeText c) (prevTimeStr sh)) l
                      (masks, ops))) = false).
  { induction l as [| i l IH]; intros masks ops Hops; [exact Hops |].
    cbn [fold_left].
    pose proof (no_text_drawTimeDigit W H p lay (timeText c) (prevTimeStr sh) masks ops i
                  Hops) as Hstep.
    destruct (drawTimeDigit W H p lay (timeText c) (prevTimeStr sh) (masks, ops) i)
      as [m1 o1].
    apply IH. exact Hstep. }
  specialize (Hfold (seq 0 8) (prevDigitMask sh) [] eq_refl).
  destruct (fold_left _ (seq 0 8) (prevDigitMask sh, [])) as [masks ops]. exact Hfold.
Qed.

Lemma no_text_drawSecondsBarFill W H sec sh :
  existsb is_text (snd (drawSecondsBarFill W H sec sh)) = false.
Proof.
  unfold drawSecondsBarFill.
  destruct (_ =? _); [reflexivity |].
  destruct (_ <? 0); [reflexivity |].
  destruct (_ <? _); [reflexivity | apply no_text_erase].
Qed.

Lemma no_text_updateColonPulse cosf p lay ms last :
  existsb is_text (updateColonPulse cosf p lay ms last) = false.
Proof. reflexivity. Qed.

(** The title strip prints in row 4. *)
Lemma off_env_line_drawTitleStrip W status : off_env_line (drawTitleStrip W status).
Proof.
  intros [cur shown]. unfold drawTitleStrip. cbn [fold_left textStep fst snd].
  destruct status; reflexivity.
Qed.

(** On a panel more than 96 rows high the two lines of the date block are
    printed below the environment line. *)
Lemma off_env_line_drawDateLine W H textWidth c sh :
  97 <= H <= 32767 -> off_env_line (snd (drawDateLine W H textWidth c sh)).
Proof.
  intros HH. unfold drawDateLine.
  destruct (strcmp_ne (dateText c) (prevDateStr sh)); cbn [snd];
    [| apply no_text_off_env_line; reflexivity].
  apply off_env_line_app; [apply no_text_off_env_line; reflexivity |].
  apply off_env_line_app; [apply no_text_off_env_line, no_text_erase |].
  rewrite (int16_u16 (H - 70)), (int16_u16 (H - 50)) by (unfold INT_MIN, INT_MAX; lia).
  intros [cur shown]. cbn [fold_left textStep fst snd].
  assert (E1 : forall x, (x =? ENV_X) && (H - 70 =? ENV_Y) = false).
  { intros x. replace (H - 70 =? ENV_Y) with false
      by (symmetry; apply Z.eqb_neq; unfold ENV_Y; lia). apply andb_false_r. }
  assert (E2 : forall x, (x =? ENV_X) && (H - 50 =? ENV_Y) = false).
  { intros x. replace (H - 50 =? ENV_Y) with false
      by (symmetry; apply Z.eqb_neq; unfold ENV_Y; lia). apply andb_false_r. }
  destruct (dateText c); destruct (weekdayText c); cbn [fst snd];
    rewrite ?E1, ?E2; reflexivity.
Qed.

(** The cells are never empty, so printing them moves the line. *)
Lemma envCells_length s : String.length (envCells s) = ENV_LINE_LEN.
Proof.
  unfold envCells. cbv zeta.
  rewrite string_length_app, repeat_char_length, substring_length. lia.
Qed.

Lemma drawEnvLine_cells bg s :
  drawEnvLine bg s
  = [SetTextSize ENV_TEXT_SIZE; SetTextColor COL_TEXT bg; SetCursor ENV_X ENV_Y;
     Print (envCells s)].
Proof. reflexivity. Qed.

(** After [drawEnvLine] the line shows the cells of its text. *)
Lemma drawEnvLine_shows bg s st :
  snd (fold_left textStep (drawEnvLine bg s) st) = envCells s.
Proof.
  rewrite drawEnvLine_cells. cbn [fold_left textStep fst snd].
  pose proof (envCells_length s) as Hl.
  destruct (envCells s) as [| c r]; [discriminate Hl | reflexivity].
Qed.

Lemma envLineText_app pre ops :
  off_env_line ops -> envLineText (pre ++ ops) = envLineText pre.
Proof. intros Hq. unfold envLineText. rewrite fold_left_app. apply Hq. Qed.

Lemma envLineText_drawEnvLine pre bg s :
  envLineText (pre ++ drawEnvLine bg s) = envCells s.
Proof. unfold envLineText. rewrite fold_left_app. apply drawEnvLine_shows. Qed.

(** Texts that [strncmp] does not tell apart fill the same cells. *)
Lemma envCells_strncmp a b :
  strncmp_ne a b ENV_LINE_LEN = false -> envCells a = envCells b.
Proof.
  unfold strncmp_ne. intros E. apply negb_false_iff, String.eqb_eq in E.
  unfold envCells. rewrite E. reflexivity.
Qed.

Lemma envCells_strncpy s : envCells (strncpy s ENV_LINE_LEN) = envCells s.
Proof.
  unfold envCells, strncpy.
  rewrite (nul_free_c_str (substring 0 ENV_LINE_LEN (c_str s)))
    by (apply nul_free_substring, c_str_nul_free).
  rewrite (substring_all (substring 0 ENV_LINE_LEN (c_str s)))
    by apply substring_length_le.
  reflexivity.
Qed.

(** The cells of a valid reading differ from those of the placeholder. *)
Lemma envCells_not_placeholder t h : isnan t = false ->
  envCells (envText t h) <> envCells envPlaceholder.
Proof.
  intros Vt Heq.
  destruct (no_dash_pair_fmt_s 4 _ (no_dash_pair_dtostrf t 4 Vt)) as [Hl Hc].
  assert (Hlen : (9 <= String.length (substring 0 ENV_LINE_LEN (c_str (envText t h))))%nat).
  { rewrite nul_free_c_str by apply nul_free_envText.
    rewrite substring_length. unfold envText, snprintf.
    rewrite substring_length. cbn [append String.length].
    rewrite string_length_app.
    assert (Hf : (4 <= String.length (fmt_s 4 (dtostrf t 4 1)))%nat).
    { unfold fmt_s. rewrite string_length_app, repeat_char_length. lia. }
    unfold ENV_LINE_LEN. lia. }
  assert (Hat : forall i, (i < 2)%nat ->
            char_at (envCells (envText t h)) (5 + i)
            = char_at (fmt_s 4 (dtostrf t 4 1)) i).
  { intros i Hi. unfold envCells. cbv zeta. rewrite char_at_app_l by lia.
    rewrite nul_free_c_str by apply nul_free_envText.
    unfold ENV_LINE_LEN. rewrite substring_char_at by lia.
    unfold envText, snprintf, ENV_LINE_LEN. rewrite substring_char_at by lia.
    cbn [append Nat.add]. rewrite !char_at_S. apply char_at_app_l. lia. }
  pose proof (Hat 0%nat ltac:(lia)) as H5. pose proof (Hat 1%nat ltac:(lia)) as H6.
  rewrite Heq in H5, H6.
  destruct Hc as [Hc | Hc]; apply Hc; [rewrite <- H5 | rewrite <- H6]; reflexivity.
Qed.

Lemma tftOps_app a b : tftOps (a ++ b) = tftOps a ++ tftOps b.
Proof. unfold tftOps. apply flat_map_app. Qed.

Lemma tftOps_map_Tft l : tftOps (map Tft l) = l.
Proof.
  induction l as [| op l IH]; [reflexivity |]. cbn. unfold tftOps in IH. rewrite IH. reflexivity.
Qed.

Lemma placeholder_cells : envCells "TEMP --.- C   HUM -- %" = envCells envPlaceholder.
Proof. reflexivity. Qed.

(** A forced repaint ends with the placeholder printed on the line. *)
Lemma forceRedrawAll_ends W H p lay textWidth bg c sh :
  exists front,
    snd (forceRedrawAll W H p lay textWidth bg c sh)
    = front ++ drawEnvLine bg "TEMP --.- C   HUM -- %".
Proof.
  unfold forceRedrawAll.
  destruct (drawTimeDigits _ _ _ _ _ _) as [sh1 o1].
  destruct (drawDateLine _ _ _ _ _) as [sh2 o2].
  destruct (drawSecondsBarFrameOnce _ _ _) as [sh3 o3].
  destruct (drawSecondsBarFill _ _ _ _) as [sh4 o4].
  exists (o1 ++ o2 ++ o3 ++ o4). cbn [snd]. rewrite <- !app_assoc. reflexivity.
Qed.

(** What [updateEnv] does to the line: afterwards it shows the
    placeholder or the text remembered in [lastEnvStr], if it did
    before. *)
Lemma updateEnv_tracks bg ms h t es pre :
  env_line_tracked pre es ->
  env_line_tracked (pre ++ snd (updateEnv bg ms h t es)) (fst (updateEnv bg ms h t es)).
Proof.
  intros Ht. unfold updateEnv.
  destruct (u32 (ms - lastEnvRead es) <? ENV_INTERVAL);
    [cbn [fst snd]; rewrite app_nil_r; exact Ht |].
  cbn [lastEnvRead lastEnvStr lastT lastH].
  destruct (negb (isnan h) && negb (isnan t)).
  - match goal with |- context [if ?b then _ else _] => destruct b end; cbn [fst snd].
    + right. rewrite envLineText_drawEnvLine. cbn [lastEnvStr].
      symmetry. apply envCells_strncpy.
    + rewrite app_nil_r. exact Ht.
  - destruct (strncmp_ne envPlaceholder (lastEnvStr es) ENV_LINE_LEN); cbn [fst snd].
    + left. apply envLineText_drawEnvLine.
    + rewrite app_nil_r. exact Ht.
Qed.

Lemma parseTime_empty : parseTime "" = None.
Proof. reflexivity. Qed.

Section EnvLineInPass.

Variables W H : Z.
Variable p : SegParams.
Variable lay : Layout.
Variable textWidth : string -> Z.
Variable bg : Z.
Variable cosf : float -> float.
Hypothesis panel_rows : 97 <= H <= 32767.

Lemma off_env_line_secondStep c sh c' sh' o :
  secondStep W H p lay textWidth c sh = Some (c', sh', o) -> off_env_line o.
Proof.
  unfold secondStep. destruct (tickOneSecond c) as [c1 |]; [| discriminate].
  pose proof (no_text_drawTimeDigits W H p lay c1 sh) as N1.
  destruct (drawTimeDigits W H p lay c1 sh) as [sh1 o1].
  pose proof (no_text_drawSecondsBarFill W H (second c1) sh1) as N2.
  destruct (drawSecondsBarFill W H (second c1) sh1) as [sh2 o2].
  cbn [snd] in *.
  destruct ((hour c1 =? 0) && (minute c1 =? 0) && (second c1 =? 0)).
  - pose proof (off_env_line_drawDateLine W H textWidth c1 sh2 panel_rows) as N3.
    destruct (drawDateLine W H textWidth c1 sh2) as [sh3 o3]. cbn [snd] in N3.
    intros E. injection E as _ _ <-.
    apply off_env_line_app; [apply no_text_off_env_line; exact N1 |].
    apply off_env_line_app; [apply no_text_off_env_line; exact N2 | exact N3].
  - intros E. injection E as _ _ <-.
    apply off_env_line_app; [apply no_text_off_env_line; exact N1 |].
    apply off_env_line_app; [apply no_text_off_env_line; exact N2 | apply off_env_line_nil].
Qed.

(** The catch-up loop adds commands behind those collected so far, none
    of which prints on the environment line. *)
Lemma catchUp_trace ms n : forall last c sh ops r,
  (Z.to_nat (u32 (ms - last)) < n)%nat ->
  catchUp W H p lay textWidth ms last c sh ops = Some r ->
  exists o, snd r = ops ++ o /\ off_env_line o.
Proof.
  induction n as [| n IH]; intros last c sh ops r Hn Hc; [lia |].
  destruct (Z_lt_ge_dec (u32 (ms - last)) 1000) as [Hlt | Hge].
  - rewrite catchUp_done in Hc by assumption. injection Hc as <-.
    exists []. rewrite app_nil_r. split; [reflexivity | apply off_env_line_nil].
  - rewrite catchUp_step in Hc by lia.
    destruct (secondStep W H p lay textWidth c sh) as [[[c1 sh1] o1] |] eqn:Es;
      [| discriminate Hc].
    destruct (IH (u32 (last + 1000)) c1 sh1 (ops ++ o1) r) as (o & Eo & Ho).
    + rewrite u32_elapsed_step by lia. pose proof (u32_range (ms - last)). lia.
    + exact Hc.
    + exists (o1 ++ o). rewrite Eo, app_assoc. split; [reflexivity |].
      apply off_env_line_app; [apply (off_env_line_secondStep c sh c1 sh1 o1 Es) | exact Ho].
Qed.

Lemma clockPhase_trace ms st st3 :
  clockPhase W H p lay textWidth ms st = Some st3 ->
  exists o, tft st3 = tft st ++ o /\ off_env_line o /\ repaintAll st3 = repaintAll st.
Proof.
  unfold clockPhase. destruct (isSet (ct st)).
  - destruct (catchUp W H p lay textWidth ms (lastTickMs st) (ct st) (shadow st) [])
      as [[[[last' c'] sh'] ops] |] eqn:Ec; [| discriminate].
    intros E. injection E as <-.
    destruct (catchUp_trace ms (S (Z.to_nat (u32 (ms - lastTickMs st))))
                (lastTickMs st) (ct st) (shadow st) [] _ (Nat.lt_succ_diag_r _) Ec)
      as (o & Eo & Ho).
    cbn [snd app] in Eo. subst ops. exists o. cbn. auto.
  - intros E. injection E as <-. exists []. rewrite app_nil_r.
    split; [reflexivity | split; [apply off_env_line_nil | reflexivity]].
Qed.

Lemma serialPhase_trace now rx st :
  exists o,
    tft (fst (serialPhase W now rx st)) = tft st ++ o /\ off_env_line o
    /\ (forall parsed, parseTime (fst (readLine rx "")) = Some parsed ->
        repaintAll (fst (serialPhase W now rx st)) = true)
    /\ (parseTime (fst (readLine rx "")) = None ->
        repaintAll (fst (serialPhase W now rx st)) = repaintAll st).
Proof.
  unfold serialPhase. destruct rx as [| b rx'].
  { exists []. cbn [fst]. rewrite app_nil_r.
    split; [reflexivity | split; [apply off_env_line_nil | split; [| reflexivity]]].
    intros parsed Hp. cbn in Hp. discriminate Hp. }
  destruct (readLine (b :: rx') "") as [str_in rest0]. cbn [fst].
  destruct (0 <? Z.of_nat (String.length str_in)) eqn:Elen.
  - destruct (parseTime str_in) as [parsed |]; cbn [fst tft repaintAll].
    + eexists. split; [reflexivity |]. split; [apply off_env_line_drawTitleStrip |].
      split; [reflexivity | discriminate].
    + eexists. split; [reflexivity |]. split; [apply off_env_line_drawTitleStrip |].
      split; [discriminate | reflexivity].
  - exists []. cbn [fst]. rewrite app_nil_r.
    split; [reflexivity | split; [apply off_env_line_nil | split; [| reflexivity]]].
    intros parsed Hp. destruct str_in; [discriminate Hp |].
    cbn [String.length] in Elen. apply Z.ltb_ge in Elen. lia.
Qed.

(** The parts of one pass through [loop], as they follow one another on
    the panel: the title strip and the colons, the environment line if
    the animation block runs, the seconds caught up, and the forced
    repaint if a line was accepted. *)
Lemma loopPass_anatomy now ms msEnv rx h t ls ls' rest :
  loopPass W H p lay textWidth bg cosf now ms msEnv rx h t ls = Some (ls', rest) ->
  exists o1 oe o3 o4,
    tft (sketch ls') = tft (sketch ls) ++ o1 ++ oe ++ o3 ++ o4
    /\ off_env_line o1 /\ off_env_line o3
    /\ ((30 <= u32 (ms - subAnimMs ls)
         /\ updateEnv bg msEnv h t (env ls) = (env ls', oe))
        \/ (u32 (ms - subAnimMs ls) < 30 /\ env ls' = env ls /\ oe = []))
    /\ ((repaintAll (fst (serialPhase W now rx (sketch ls))) = true
         /\ exists front, o4 = front ++ drawEnvLine bg "TEMP --.- C   HUM -- %")
        \/ (repaintAll (fst (serialPhase W now rx (sketch ls))) = false /\ o4 = []))
    /\ repaintAll (sketch ls') = false.
Proof.
  unfold loopPass.
  destruct (serialPhase_trace now rx (sketch ls)) as (os & Es & Hos & _).
  destruct (serialPhase W now rx (sketch ls)) as [st1 rest1]. cbn [fst] in *.
  set (ls1 := mkLoopState st1 (subAnimMs ls) (env ls)).
  assert (Ha : exists oc oe,
            tft (sketch (animPhase p lay bg cosf ms msEnv h t ls1)) = tft st1 ++ oc ++ oe
            /\ off_env_line oc
            /\ repaintAll (sketch (animPhase p lay bg cosf ms msEnv h t ls1)) = repaintAll st1
            /\ ((30 <= u32 (ms - subAnimMs ls)
                 /\ updateEnv bg msEnv h t (env ls)
                    = (env (animPhase p lay bg cosf ms msEnv h t ls1), oe))
                \/ (u32 (ms - subAnimMs ls) < 30
                    /\ env (animPhase p lay bg cosf ms msEnv h t ls1) = env ls /\ oe = []))).
  { unfold animPhase. cbn [subAnimMs sketch env ls1].
    destruct (Z.leb_spec 30 (u32 (ms - subAnimMs ls))) as [Hdue | Hnot].
    - destruct (updateEnv bg msEnv h t (env ls)) as [es oe] eqn:Eu.
      exists (updateColonPulse cosf p lay ms (lastTickMs st1)), oe.
      cbn [sketch tft repaintAll env].
      split; [reflexivity |].
      split; [apply no_text_off_env_line, no_text_updateColonPulse |].
      split; [reflexivity | left; auto].
    - exists [], []. cbn [sketch env]. rewrite app_nil_r.
      split; [reflexivity | split; [apply off_env_line_nil | split; [reflexivity |]]].
      right. auto. }
  destruct Ha as (oc & oe & Ea & Hoc & Rap & Henv).
  set (ls2 := animPhase p lay bg cosf ms msEnv h t ls1) in *.
  destruct (clockPhase W H p lay textWidth ms (sketch ls2)) as [st3 |] eqn:Ec;
    [| discriminate].
  destruct (clockPhase_trace ms (sketch ls2) st3 Ec) as (o3 & E3 & Ho3 & R3).
  intros E. injection E as <- <-. cbn [sketch env].
  unfold repaintPhase. rewrite R3, Rap.
  destruct (repaintAll st1) eqn:Erep.
  - destruct (forceRedrawAll_ends W H p lay textWidth bg (ct st3) (shadow st3))
      as (front & Ef).
    destruct (forceRedrawAll W H p lay textWidth bg (ct st3) (shadow st3)) as [sh4 o4].
    cbn [snd] in Ef. cbn [tft repaintAll].
    exists (os ++ oc), oe, o3, o4.
    rewrite E3, Ea, Es, <- !app_assoc.
    split; [reflexivity |].
    split; [apply off_env_line_app; assumption |].
    split; [exact Ho3 | split; [exact Henv | split; [| reflexivity]]].
    left. split; [reflexivity | exists front; exact Ef].
  - exists (os ++ oc), oe, o3, []. rewrite E3, Ea, Es, <- !app_assoc, app_nil_r.
    split; [reflexivity |].
    split; [apply off_env_line_app; assumption |].
    split; [exact Ho3 | split; [exact Henv | split; [| congruence]]].
    right. auto.
Qed.

(** A pass keeps the environment line tracked. *)
Lemma loopPass_tracks pre now ms msEnv rx h t ls ls' rest :
  env_line_tracked (pre ++ tft (sketch ls)) (env ls) ->
  loopPass W H p lay textWidth bg cosf now ms msEnv rx h t ls = Some (ls', rest) ->
  env_line_tracked (pre ++ tft (sketch ls')) (env ls').
Proof.
  intros Ht Hp.
  destruct (loopPass_anatomy now ms msEnv rx h t ls ls' rest Hp)
    as (o1 & oe & o3 & o4 & Et & H1 & H3 & Henv & Hrep & _).
  rewrite Et.
  destruct Hrep as [(_ & front & ->) | (_ & ->)].
  - left. rewrite !app_assoc. rewrite envLineText_drawEnvLine. apply placeholder_cells.
  - rewrite app_nil_r.
    replace (pre ++ tft (sketch ls) ++ o1 ++ oe ++ o3)
      with (((pre ++ tft (sketch ls) ++ o1) ++ oe) ++ o3) by (rewrite <- !app_assoc; reflexivity).
    assert (Ht1 : env_line_tracked (pre ++ tft (sketch ls) ++ o1) (env ls)).
    { unfold env_line_tracked in *. rewrite !app_assoc, envLineText_app by exact H1.
      exact Ht. }
    assert (Ht2 : env_line_tracked ((pre ++ tft (sketch ls) ++ o1) ++ oe) (env ls')).
    { destruct Henv as [(_ & Eu) | (_ & -> & ->)].
      - pose proof (updateEnv_tracks bg msEnv h t (env ls) _ Ht1) as U.
        rewrite Eu in U. exact U.
      - rewrite app_nil_r. exact Ht1. }
    unfold env_line_tracked in *. rewrite envLineText_app by exact H3. exact Ht2.
Qed.

Lemma loopRun_tracks pre inputs : forall pending ls ls' pending',
  env_line_tracked (pre ++ tft (sketch ls)) (env ls) ->
  loopRun W H p lay textWidth bg cosf inputs pending ls = Some (ls', pending') ->
  env_line_tracked (pre ++ tft (sketch ls')) (env ls').
Proof.
  induction inputs as [| i more IH]; intros pending ls ls' pending' Ht Hr.
  - injection Hr as <- _. exact Ht.
  - cbn [loopRun] in Hr.
    destruct (loopPass W H p lay textWidth bg cosf (pass_now i) (pass_ms i) (pass_msEnv i)
                (pending ++ arrived i) (sensor_h i) (sensor_t i) ls) as [[ls1 rest] |] eqn:Ep;
      [| discriminate Hr].
    apply (IH rest ls1 ls' pending'); [| exact Hr].
    apply (loopPass_tracks pre _ _ _ _ _ _ ls ls1 rest Ht Ep).
Qed.

End EnvLineInPass.

(** [setup] leaves the placeholder on the line. *)
Lemma setup_tracks W H textWidth now0 :
  env_line_tracked
    (tftOps (painted (setup W H textWidth now0))
     ++ tft (sketch (state (setup W H textWidth now0))))
    (env (state (setup W H textWidth now0))).
Proof.
  unfold setup.
  destruct (forceRedrawAll_ends W H (autoSizeToFit W SegParams_init)
              (setupLayout W (autoSizeToFit W SegParams_init)) textWidth
              (oceanColorAtY H ENV_Y) (ct Sketch_init) (shadow Sketch_init)) as (front & Ef).
  destruct (forceRedrawAll W H (autoSizeToFit W SegParams_init)
              (setupLayout W (autoSizeToFit W SegParams_init)) textWidth
              (oceanColorAtY H ENV_Y) (ct Sketch_init) (shadow Sketch_init)) as [sh o3].
  cbn [snd] in Ef. cbn [painted state sketch tft env]. rewrite app_nil_r.
  left. rewrite tftOps_app, tftOps_map_Tft, Ef, !app_assoc.
  rewrite envLineText_drawEnvLine. apply placeholder_cells.
Qed.

(** A valid reading that is due is printed when [lastEnvStr] holds the
    placeholder. *)
Lemma updateEnv_over_placeholder bg ms h t es :
  ENV_INTERVAL <= u32 (ms - lastEnvRead es) -> env_valid h t ->
  strncmp_ne envPlaceholder (lastEnvStr es) ENV_LINE_LEN = false ->
  updateEnv bg ms h t es
  = (mkEnvState ms (strncpy (envText t h) ENV_LINE_LEN) t h, drawEnvLine bg (envText t h)).
Proof.
  intros Hi (Vh & Vt) Hp. unfold updateEnv.
  replace (u32 (ms - lastEnvRead es) <? ENV_INTERVAL) with false
    by (symmetry; apply Z.ltb_ge; exact Hi).
  cbn [lastEnvRead lastEnvStr lastT lastH].
  rewrite Vh, Vt. cbn [negb andb].
  assert (E : strncmp_ne (envText t h) (lastEnvStr es) ENV_LINE_LEN = true).
  { unfold strncmp_ne in *. apply negb_false_iff, String.eqb_eq in Hp.
    rewrite <- Hp. apply negb_true_iff. apply String.eqb_neq.
    exact (envText_not_placeholder t h Vt). }
  rewrite E, orb_true_r. reflexivity.
Qed.

(** X10: a failing sensor leaves the placeholder on the environment line.
    Take any state the sketch reaches from [setup] by passes through
    [loop], on a panel more than 96 rows high, and a further pass in which
    the animation block runs, a reading is due and the sensor returns NaN
    for either value.  After that pass the text last printed at the
    position of the environment line is the placeholder, padded to the 26
    cells, whether [updateEnv] printed it in this pass or found it in
    [lastEnvStr]; [lastEnvStr] holds the placeholder and the values
    rendered last are kept.  From there a further failed reading sends
    nothing, and a valid one is printed, whatever its values, and is then
    the text on the line. *)
Theorem failed_reading_leaves_placeholder_on_the_line
    (W H : Z) (textWidth : string -> Z) (cosf : float -> float) (now0 : Z) (s : Started)
    (inputs : list PassInput) (pending : list ascii) (ls : LoopState)
    (now ms msEnv : Z) (rx : list ascii) (h t : float) (ls' : LoopState)
    (rest : list ascii) :
  97 <= H <= 32767 ->
  s = setup W H textWidth now0 ->
  loopRun W H (seg s) (layout s) textWidth (env_bg s) cosf inputs [] (state s)
  = Some (ls, pending) ->
  loopPass W H (seg s) (layout s) textWidth (env_bg s) cosf now ms msEnv rx h t ls
  = Some (ls', rest) ->
  30 <= u32 (ms - subAnimMs ls) ->
  ENV_INTERVAL <= u32 (msEnv - lastEnvRead (env ls)) ->
  isnan h = true \/ isnan t = true ->
  envLineText (tftOps (painted s) ++ tft (sketch ls')) = envCells envPlaceholder
  /\ strncmp_ne envPlaceholder (lastEnvStr (env ls')) ENV_LINE_LEN = false
  /\ lastT (env ls') = lastT (env ls) /\ lastH (env ls') = lastH (env ls)
  /\ lastEnvRead (env ls') = msEnv
  /\ (forall ms' h' t',
        ENV_INTERVAL <= u32 (ms' - msEnv) -> isnan h' = true \/ isnan t' = true ->
        snd (updateEnv (env_bg s) ms' h' t' (env ls')) = [])
  /\ (forall ms' h' t',
        ENV_INTERVAL <= u32 (ms' - msEnv) -> env_valid h' t' ->
        updateEnv (env_bg s) ms' h' t' (env ls')
        = (mkEnvState ms' (strncpy (envText t' h') ENV_LINE_LEN) t' h',
           drawEnvLine (env_bg s) (envText t' h'))
        /\ envLineText ((tftOps (painted s) ++ tft (sketch ls'))
                        ++ drawEnvLine (env_bg s) (envText t' h'))
           = envCells (envText t' h')).
Proof.
  intros HH Hs Hrun Hpass Hanim Hdue Hnan.
  assert (Tls : env_line_tracked (tftOps (painted s) ++ tft (sketch ls)) (env ls)).
  { apply (loopRun_tracks W H (seg s) (layout s) textWidth (env_bg s) cosf HH
             (tftOps (painted s)) inputs [] (state s) ls pending); [| exact Hrun].
    rewrite Hs. apply setup_tracks. }
  pose proof (loopPass_tracks W H (seg s) (layout s) textWidth (env_bg s) cosf HH
                (tftOps (painted s)) now ms msEnv rx h t ls ls' rest Tls Hpass) as Tls'.
  destruct (loopPass_anatomy W H (seg s) (layout s) textWidth (env_bg s) cosf HH
              now ms msEnv rx h t ls ls' rest Hpass)
    as (o1 & oe & o3 & o4 & _ & _ & _ & Henv & _ & _).
  destruct Henv as [(_ & Eu) | (Hnot & _)]; [| lia].
  rewrite (updateEnv_failed (env_bg s) msEnv h t (env ls) Hdue Hnan) in Eu.
  assert (Hstate : strncmp_ne envPlaceholder (lastEnvStr (env ls')) ENV_LINE_LEN = false
                   /\ lastT (env ls') = lastT (env ls) /\ lastH (env ls') = lastH (env ls)
                   /\ lastEnvRead (env ls') = msEnv).
  { destruct (strncmp_ne envPlaceholder (lastEnvStr (env ls)) ENV_LINE_LEN) eqn:Ecmp;
      injection Eu as Ee _; rewrite <- Ee; cbn [lastEnvStr lastT lastH lastEnvRead].
    - repeat split; reflexivity.
    - repeat split; [exact Ecmp | reflexivity ..]. }
  destruct Hstate as (Hstr & HT & HHu & Hread).
  split.
  { destruct Tls' as [E | E]; [exact E |].
    rewrite E. symmetry. apply envCells_strncmp. exact Hstr. }
  split; [exact Hstr | split; [exact HT | split; [exact HHu | split; [exact Hread |]]]].
  split.
  - intros ms' h' t' Hdue' Hnan'.
    rewrite updateEnv_failed by (rewrite ?Hread; assumption).
    rewrite Hstr. reflexivity.
  - intros ms' h' t' Hdue' Hval. split.
    + apply updateEnv_over_placeholder; [rewrite Hread; exact Hdue' | exact Hval | exact Hstr].
    + apply envLineText_drawEnvLine.
Qed.

Lemma failed_reading_leaves_placeholder_on_the_line_witness :
  envLineText (tftOps (painted panel_start) ++ tft (sketch loop_after_failure))
  = envCells envPlaceholder
  /\ strncmp_ne envPlaceholder (lastEnvStr (env loop_after_failure)) ENV_LINE_LEN = false
  /\ lastT (env loop_after_failure) = lastT (env loop_after_reading)
  /\ lastH (env loop_after_failure) = lastH (env loop_after_reading)
  /\ lastEnvRead (env loop_after_failure) = 4000
  /\ (forall ms' h' t',
        ENV_INTERVAL <= u32 (ms' - 4000) -> isnan h' = true \/ isnan t' = true ->
        snd (updateEnv (env_bg panel_start) ms' h' t' (env loop_after_failure)) = [])
  /\ (forall ms' h' t',
        ENV_INTERVAL <= u32 (ms' - 4000) -> env_valid h' t' ->
        updateEnv (env_bg panel_start) ms' h' t' (env loop_after_failure)
        = (mkEnvState ms' (strncpy (envText t' h') ENV_LINE_LEN) t' h',
           drawEnvLine (env_bg panel_start) (envText t' h'))
        /\ envLineText ((tftOps (painted panel_start) ++ tft (sketch loop_after_failure))
                        ++ drawEnvLine (env_bg panel_start) (envText t' h'))
           = envCells (envText t' h')).
Proof.
  apply (failed_reading_leaves_placeholder_on_the_line
           panel_W panel_H panel_textWidth (fun _ => F_1) 0 panel_start
           [mkPassInput 2000 2000 2000 [] hum_50 temp_24_0] [] loop_after_reading
           4000 4000 4000 [] NAN NAN loop_after_failure []).
  - unfold panel_H. lia.
  - reflexivity.
  - vm_compute. reflexivity.
  - vm_compute. reflexivity.
  - vm_compute. discriminate.
  - vm_compute. discriminate.
  - left. reflexivity.
Defined.

(** X11: a time line leaves the placeholder on the environment line over
    a sensor that answers.  In the pass in which a time line is accepted
    the forced repaint prints the placeholder on the line, and
    [lastEnvStr] and the values rendered last are not touched.  When a
    later pass reads the sensor and gets a valid reading that is less than
    0.2 degrees and less than 1.0 percent away from the values rendered
    last and composes the text in [lastEnvStr], nothing is printed: the
    sensor was read, yet the line still shows the placeholder and not the
    reading.  (The panel is more than 96 rows high, and no time line is
    accepted in the later pass.) *)
Theorem time_line_leaves_placeholder_over_valid_reading
    (W H : Z) (p : SegParams) (lay : Layout) (textWidth : string -> Z) (bg : Z)
    (cosf : float -> float) (before : list TftOp) (ls : LoopState)
    (now ms msEnv : Z) (rx : list ascii) (h0 t0 : float) (parsed : ClockTime)
    (lsA : LoopState) (restA : list ascii)
    (now' ms' msEnv' : Z) (rx' : list ascii) (h t : float)
    (lsB : LoopState) (restB : list ascii) :
  97 <= H <= 32767 ->
  parseTime (fst (readLine rx "")) = Some parsed ->
  loopPass W H p lay textWidth bg cosf now ms msEnv rx h0 t0 ls = Some (lsA, restA) ->
  parseTime (fst (readLine rx' "")) = None ->
  loopPass W H p lay textWidth bg cosf now' ms' msEnv' rx' h t lsA = Some (lsB, restB) ->
  30 <= u32 (ms' - subAnimMs lsA) ->
  ENV_INTERVAL <= u32 (msEnv' - lastEnvRead (env lsA)) ->
  env_valid h t ->
  isnan (lastT (env lsA)) = false -> isnan (lastH (env lsA)) = false ->
  env_below_steps (env lsA) h t -> env_same_text (env lsA) h t ->
  envLineText (before ++ tft (sketch lsA)) = envCells envPlaceholder
  /\ lastEnvRead (env lsB) = msEnv'
  /\ lastEnvStr (env lsB) = lastEnvStr (env lsA)
  /\ lastT (env lsB) = lastT (env lsA) /\ lastH (env lsB) = lastH (env lsA)
  /\ envLineText (before ++ tft (sketch lsB)) = envCells envPlaceholder
  /\ envLineText (before ++ tft (sketch lsB)) <> envCells (envText t h).
Proof.
  intros HH HpA HA HpB HB Hanim Hdue Hval HT HHu Hbelow Hsame.
  destruct (loopPass_anatomy W H p lay textWidth bg cosf HH now ms msEnv rx h0 t0 ls lsA restA
              HA) as (a1 & ae & a3 & a4 & EtA & _ & _ & _ & HrepA & RA).
  destruct (serialPhase_trace W now rx (sketch ls)) as (os & _ & _ & Hacc & _).
  assert (ShownA : envLineText (before ++ tft (sketch lsA)) = envCells envPlaceholder).
  { destruct HrepA as [(_ & front & ->) | (Hno & _)];
      [| rewrite (Hacc parsed HpA) in Hno; discriminate Hno].
    rewrite EtA, !app_assoc, envLineText_drawEnvLine. apply placeholder_cells. }
  destruct (loopPass_anatomy W H p lay textWidth bg cosf HH now' ms' msEnv' rx' h t
              lsA lsB restB HB) as (b1 & be & b3 & b4 & EtB & Hb1 & Hb3 & HenvB & HrepB & _).
  destruct (serialPhase_trace W now' rx' (sketch lsA)) as (os' & _ & _ & _ & Hrej).
  destruct HrepB as [(Hyes & _) | (_ & ->)];
    [rewrite (Hrej HpB), RA in Hyes; discriminate Hyes |].
  destruct HenvB as [(_ & Eu) | (Hnot & _)]; [| lia].
  rewrite (updateEnv_quiet bg msEnv' h t (env lsA) Hdue HT HHu Hval Hbelow Hsame) in Eu.
  injection Eu as Ee <-.
  assert (ShownB : envLineText (before ++ tft (sketch lsB)) = envCells envPlaceholder).
  { rewrite EtB, !app_nil_r. cbn [app].
    rewrite !app_assoc, envLineText_app by exact Hb3.
    rewrite envLineText_app by exact Hb1. exact ShownA. }
  split; [exact ShownA |].
  rewrite <- Ee. cbn [lastEnvRead lastEnvStr lastT lastH].
  repeat (split; [reflexivity |]).
  split; [exact ShownB |].
  rewrite ShownB. intros E. destruct Hval as (_ & Vt).
  apply (envCells_not_placeholder t h Vt). symmetry. exact E.
Qed.

Lemma time_line_leaves_placeholder_over_valid_reading_witness :
  envLineText (tftOps (painted panel_start) ++ tft (sketch loop_after_time_line))
  = envCells envPlaceholder
  /\ lastEnvRead (env loop_after_same_reading) = 4500
  /\ lastEnvStr (env loop_after_same_reading) = lastEnvStr (env loop_after_time_line)
  /\ lastT (env loop_after_same_reading) = lastT (env loop_after_time_line)
  /\ lastH (env loop_after_same_reading) = lastH (env loop_after_time_line)
  /\ envLineText (tftOps (painted panel_start) ++ tft (sketch loop_after_same_reading))
     = envCells envPlaceholder
  /\ envLineText (tftOps (painted panel_start) ++ tft (sketch loop_after_same_reading))
     <> envCells (envText temp_24_0 hum_50).
Proof.
  apply (time_line_leaves_placeholder_over_valid_reading
           panel_W panel_H (seg panel_start) (layout panel_start) panel_textWidth
           (env_bg panel_start) (fun _ => F_1) (tftOps (painted panel_start))
           loop_after_reading
           3000 3000 3000 (list_ascii_of_string "12:34:56" ++ [LF]) hum_50 temp_24_0
           (mkClockTime 0 0 0 12 34 56 false true) loop_after_time_line []
           4500 4500 4500 [] hum_50 temp_24_0 loop_after_same_reading []).
  - unfold panel_H. lia.
  - reflexivity.
  - vm_compute. reflexivity.
  - reflexivity.
  - vm_compute. reflexivity.
  - vm_compute. discriminate.
  - vm_compute. discriminate.
  - split; reflexivity.
  - reflexivity.
  - reflexivity.
  - split; vm_compute; reflexivity.
  - vm_compute. reflexivity.
Defined.

(** The run of the examples: the reading is on the line after the first
    pass, the placeholder after the failed reading and after the time
    line, and still after the same reading was taken again. *)
Example env_line_in_the_runs :
  envLineText (tftOps (painted panel_start) ++ tft (sketch loop_after_reading))
  = "TEMP 24.0 C   HUM  50 %   "
  /\ envLineText (tftOps (painted panel_start) ++ tft (sketch loop_after_failure))
     = "TEMP --.- C   HUM -- %    "
  /\ envLineText (tftOps (painted panel_start) ++ tft (sketch loop_after_time_line))
     = "TEMP --.- C   HUM -- %    "
  /\ envLineText (tftOps (painted panel_start) ++ tft (sketch loop_after_same_reading))
     = "TEMP --.- C   HUM -- %    "
  /\ lastEnvStr (env loop_after_same_reading) = "TEMP 24.0 C   HUM  50 %"
  /\ ct (sketch loop_after_same_reading) = mkClockTime 0 0 0 12 34 57 false true.
Proof. vm_compute. repeat split. Qed.
